(** * Fused matrix multiply with epilogue: a shallow embedding of
    [transformer_engine/common/gemm/cublaslt_gemm.cu]

    The file follows the source top to bottom: the element formats and
    the type tags of the three multiply libraries, the device functions
    and kernels of namespace [detail], the three build variants of
    [cublas_gemm] (cuBLASLt, hipBLASLt, rocBLAS with hand-written
    epilogue kernels) and the entry point [nvte_cublas_gemm].

    Numbers.  A [float] is modelled by the real number it denotes and
    the arithmetic of the kernels is the exact arithmetic of [R]; a
    literal with the [f] suffix is the binary32 number nearest to its
    decimal text, and the conversions that decide control flow
    ([float(m)] in the block counts) are rounded as binary32 rounds
    them.  The rounding of the sums and products themselves is not
    modelled; in [gelu_backward], where a product can leave the finite
    range and the code then multiplies zero by an infinity, a result
    beyond the largest binary32 number is an infinity, and infinities
    and NaN are values.  An [int] is a [Z] with the wrap-around of a
    32-bit register written out, also for the index of the grid-stride
    loops.

    Effects.  Host code runs in a monad over the device memory (a finite
    map from base addresses to buffers) that records every library call,
    allocation and kernel launch in a trace.  What the external
    libraries answer (status codes, the number of algorithms found, the
    numbers a multiply writes) is read from a [platform] record. *)

From Stdlib Require Import ZArith QArith Qround Qreals Reals Lra Lia String List.
From stdpp Require Import base option list gmap.

#[local] Open Scope Z_scope.

(** ** Element formats ([transformer_engine.h], [common.h]) *)

(** The enumeration is declared in [transformer_engine.h]; the five
    floating formats are the cases [get_cuda_dtype] names, the integer
    formats are the ones that reach its [default] branch. *)
Inductive DType : Type :=
| kByte | kInt32 | kInt64
| kFloat32 | kFloat16 | kBFloat16
| kFloat8E4M3 | kFloat8E5M2.

#[global] Instance DType_eq_dec : EqDecision DType.
Proof. solve_decision. Defined.

(** Modelled from the spec: [is_fp8_dtype] is declared in [common.h];
    the narrow formats are the two 8-bit floating formats. *)
Definition is_fp8_dtype (t : DType) : bool :=
  match t with
  | kFloat8E4M3 | kFloat8E5M2 => true
  | _ => false
  end.

Record SimpleTensor : Type := {
  dptr : Z;                (* base address, 0 is nullptr *)
  shape : list Z;
  dtype : DType
}.

Record Tensor : Type := {
  data : SimpleTensor;
  amax : SimpleTensor;
  scale : SimpleTensor;
  scale_inv : SimpleTensor
}.

(** ** Machine integers *)

(** The value of an [int] register holding the mathematical result [z]. *)
Definition to_int32 (z : Z) : Z := (z + 2 ^ 31) mod 2 ^ 32 - 2 ^ 31.

(** The value of an [unsigned int] register. *)
Definition to_uint32 (z : Z) : Z := z mod 2 ^ 32.

(** Element count of a [hipMalloc(&p, sizeof(float) * a * b)]: the byte
    count is computed in [size_t]. *)
Definition float_elems (a b : Z) : Z := ((4 * a) mod 2 ^ 64 * b) mod 2 ^ 64 / 4.

(** ** Single precision *)

Module Single.

(** Nearest integer to [num / den] for [den > 0], ties to even. *)
Definition rne_div (num den : Z) : Z :=
  let q := num / den in
  match 2 * (num mod den) ?= den with
  | Lt => q
  | Gt => q + 1
  | Eq => if Z.even q then q else q + 1
  end.

(** [floor (log2 (p / d))] for positive [p] and [d]. *)
Definition ilog2 (p d : Z) : Z :=
  let e0 := Z.log2 p - Z.log2 d in
  if (if 0 <=? e0 then d * 2 ^ e0 <=? p else d <=? p * 2 ^ (- e0))
  then e0 else e0 - 1.

(** The binary32 number nearest to [p / d] (24-bit significand, round
    to nearest even; the normal range, which is all the program uses). *)
Definition round_pos (p d : Z) : Q :=
  let s := 23 - ilog2 p d in
  if 0 <=? s
  then (inject_Z (rne_div (p * 2 ^ s) d) / inject_Z (2 ^ s))%Q
  else inject_Z (rne_div p (d * 2 ^ (- s)) * 2 ^ (- s)).

Definition round (q : Q) : Q :=
  match Qnum q with
  | Z0 => 0%Q
  | Zpos p => round_pos (Zpos p) (Zpos (Qden q))
  | Zneg p => (- round_pos (Zpos p) (Zpos (Qden q)))%Q
  end.

(** [float(i)] for an integer [i]. *)
Definition of_int (i : Z) : Q := round (inject_Z i).

(** Single-precision division. *)
Definition div (x y : Q) : Q := round (x / y).

(** [ceil], stored in an [int]. *)
Definition ceil (x : Q) : Z := Qceiling x.

(** A literal written with the [f] suffix. *)
Definition lit (q : Q) : R := Q2R (round q).

End Single.

(** ** Device functions of namespace [detail] *)

Definition gelu_forward (x : R) : R :=
  let cdf :=
    (0.5 * (1 + tanh (Single.lit 0.7978845608028654
                      * (x + Single.lit 0.044715 * x * x * x))))%R in
  (x * cdf)%R.

(** The results of [gelu_backward] can leave the finite range: a value
    of the function is a finite number, an infinity or NaN.  An
    operation on finite numbers gives its exact result, or the infinity
    of its sign when that lies beyond the largest binary32 number; on
    the other values it follows IEEE 754 (zero times an infinity and
    the difference of equal infinities are NaN).  The subexpressions
    the source evaluates in double precision ([0.5 * x] and
    [3.0 * kKappa * x_sq]) are finite in either precision when their
    operands are, so one bound serves. *)
Inductive fp32 : Type :=
| Finite (r : R)
| Infinity (negative : bool)
| NaN.

(** [FLT_MAX], (2^24 - 1) * 2^104 *)
Definition FLT_MAX : R := 340282346638528859811704183484516925440.

Definition is_negative (r : R) : bool := if Rlt_dec r 0 then true else false.

Definition overflow (r : R) : fp32 :=
  if Rle_dec (Rabs r) FLT_MAX then Finite r else Infinity (is_negative r).

Definition fp32_mul (a b : fp32) : fp32 :=
  match a, b with
  | NaN, _ | _, NaN => NaN
  | Finite x, Finite y => overflow (x * y)
  | Finite x, Infinity s | Infinity s, Finite x =>
      if Req_dec_T x 0 then NaN else Infinity (xorb s (is_negative x))
  | Infinity s, Infinity s' => Infinity (xorb s s')
  end.

Definition fp32_add (a b : fp32) : fp32 :=
  match a, b with
  | NaN, _ | _, NaN => NaN
  | Finite x, Finite y => overflow (x + y)
  | Finite _, Infinity s | Infinity s, Finite _ => Infinity s
  | Infinity s, Infinity s' => if Bool.eqb s s' then Infinity s else NaN
  end.

Definition fp32_opp (a : fp32) : fp32 :=
  match a with
  | Finite x => Finite (- x)
  | Infinity s => Infinity (negb s)
  | NaN => NaN
  end.

Definition fp32_sub (a b : fp32) : fp32 := fp32_add a (fp32_opp b).

(** [tanhf] *)
Definition fp32_tanh (a : fp32) : fp32 :=
  match a with
  | Finite x => Finite (tanh x)
  | Infinity s => Finite (if s then -1 else 1)
  | NaN => NaN
  end.

Definition gelu_backward (x dy : R) : fp32 :=
  let kBeta := Finite (Single.lit 0.7978845608028654) in
  let kKappa := Finite (Single.lit 0.044715) in
  let x := Finite x in
  let dy := Finite dy in
  let x_sq := fp32_mul x x in
  let x_cube := fp32_mul x_sq x in
  let tanh_inner :=
    fp32_tanh (fp32_mul kBeta (fp32_add x (fp32_mul kKappa x_cube))) in
  let left := fp32_mul (Finite 0.5) x in
  let right := fp32_add (Finite 1) tanh_inner in
  let left_derivative := fp32_mul (Finite 0.5) right in
  let tanh_derivative :=
    fp32_sub (Finite 1) (fp32_mul tanh_inner tanh_inner) in
  let inner_derivative :=
    fp32_mul kBeta
      (fp32_add (Finite 1) (fp32_mul (fp32_mul (Finite 3) kKappa) x_sq)) in
  let right_derivative :=
    fp32_mul (fp32_mul left tanh_derivative) inner_derivative in
  fp32_mul dy (fp32_add left_derivative right_derivative).

(** ** The platform: what the libraries and the hardware answer *)

Inductive lib_object : Type :=
| Handle | OperationDesc | Adesc | Bdesc | Cdesc | Ddesc | Preference.

#[global] Instance lib_object_eq_dec : EqDecision lib_object.
Proof. solve_decision. Defined.

Inductive attribute : Type :=
| DESC_TRANSA | DESC_TRANSB | DESC_SM_COUNT_TARGET | DESC_FAST_ACCUM
| DESC_A_SCALE_POINTER | DESC_B_SCALE_POINTER
| DESC_D_SCALE_POINTER | DESC_AMAX_D_POINTER
| DESC_BIAS_DATA_TYPE | DESC_BIAS_POINTER
| DESC_EPILOGUE_AUX_POINTER | DESC_EPILOGUE_AUX_LD
| DESC_EPILOGUE_AUX_DATA_TYPE | DESC_EPILOGUE.

Inductive epilogue_t : Type :=
| EPILOGUE_DEFAULT
| EPILOGUE_DGELU_BGRAD | EPILOGUE_GELU_AUX_BIAS
| EPILOGUE_BGRADB | EPILOGUE_BIAS
| EPILOGUE_DGELU | EPILOGUE_GELU_AUX.

Inductive operation : Type := OP_N | OP_T.

(** The calls whose status the code checks. *)
Inductive site : Type :=
| S_rocblas_create_handle | S_rocblas_destroy_handle
| S_rocblas_gemm_ex | S_rocblas_gemm_ex3
| S_hipMalloc | S_hipMemset | S_hipDeviceSynchronize | S_hipFree
| S_LtCreate | S_LtDestroy
| S_LtMatrixLayoutCreate (o : lib_object)
| S_LtMatrixLayoutDestroy (o : lib_object)
| S_LtMatmulDescCreate | S_LtMatmulDescDestroy
| S_LtMatmulDescSetAttribute (a : attribute)
| S_LtMatmulPreferenceCreate | S_LtMatmulPreferenceSetAttribute
| S_LtMatmulPreferenceDestroy
| S_LtMatmulAlgoGetHeuristic | S_LtMatmul.

(** The five type tags of a multiply library; [rocblas_datatype] spells
    them [f16_r, f32_r, bf16_r, f8_r, bf8_r], [cudaDataType_t] and
    [hipblasltDatatype_t] spell them [R_16F, R_32F, R_16BF, R_8F_E4M3,
    R_8F_E5M2]. *)
Inductive rocblas_datatype : Type :=
| rocblas_datatype_f16_r | rocblas_datatype_f32_r | rocblas_datatype_bf16_r
| rocblas_datatype_f8_r | rocblas_datatype_bf8_r.

#[global] Instance rocblas_datatype_eq_dec : EqDecision rocblas_datatype.
Proof. solve_decision. Defined.

Inductive cudaDataType_t : Type :=
| CUDA_R_16F | CUDA_R_32F | CUDA_R_16BF | CUDA_R_8F_E4M3 | CUDA_R_8F_E5M2.

#[global] Instance cudaDataType_t_eq_dec : EqDecision cudaDataType_t.
Proof. solve_decision. Defined.

Inductive hipblasltDatatype_t : Type :=
| HIPBLASLT_R_16F | HIPBLASLT_R_32F | HIPBLASLT_R_16B
| HIPBLASLT_R_8F_E4M3 | HIPBLASLT_R_8F_E5M2.

(** Arguments of [rocblas_gemm_ex] / [rocblas_gemm_ex3]. *)
Record gemm_call : Type := {
  g_ex3 : bool;
  g_transa : operation; g_transb : operation;
  g_m : Z; g_n : Z; g_k : Z;
  g_alpha : R;
  g_A_type : rocblas_datatype; g_lda : Z;
  g_B_type : rocblas_datatype; g_ldb : Z;
  g_beta : R;
  g_D_type : rocblas_datatype; g_ldd : Z
}.

(** Arguments of [cublasLtMatmul] / [hipblasLtMatmul] together with the
    attributes set on the operation descriptor. *)
Record lt_call : Type := {
  lt_transa : operation; lt_transb : operation;
  lt_m : Z; lt_n : Z; lt_k : Z;
  lt_epilogue : epilogue_t;
  lt_A : Z; lt_B : Z; lt_C : Z; lt_D : Z;
  lt_bias : Z; lt_aux : Z;
  lt_beta : R;
  lt_workspace : Z; lt_workspaceSize : Z
}.

Record platform : Type := {
  (** [true] when the call returns its success status *)
  lib_status : site -> bool;
  (** number of algorithms the heuristic search reports *)
  returnedResults : Z;
  (** what an uninitialised [float] happens to hold *)
  uninit : R;
  (** the value a [float] has after conversion to an element format *)
  cast : DType -> R -> R;
  (** the order in which the blocks of a grid of the given size reach
      their [atomicAdd] *)
  schedule : Z -> list Z;
  (** the number [rocblas_gemm_ex] writes at a linear index of D, from
      the contents of A, B and C *)
  gemm_result : gemm_call -> list R -> list R -> list R -> Z -> R;
  (** the device memory after a fused multiply of the Lt libraries *)
  lt_matmul_result : lt_call -> gmap Z (list R) -> gmap Z (list R)
}.

(** ** The trace of a call *)

Inductive kernel : Type :=
| K_gelu_forward | K_gelu_backward
| K_add_bias | K_add_bias_gelu
| K_identity | K_bias_gradient.

(** What the debug branch of [nvte_cublas_gemm] prints. *)
Record log_line : Type := {
  log_m : Z; log_k : Z; log_n : Z;
  log_transa : bool; log_transb : bool;
  log_A_type : DType; log_B_type : DType; log_D_type : DType;
  log_bias_type : DType;
  log_grad : bool; log_bias : bool; log_gelu : bool; log_use_fp8 : bool;
  log_A_scale_inverse : R; log_B_scale_inverse : R;
  log_accumulate : bool
}.

Inductive event : Type :=
| EvMemcpyD2H (src : Z)                       (* blocking copy of one float to the host *)
| EvMalloc (p : Z) (elems : Z)
| EvFree (p : Z)
| EvMemset (p : Z)                            (* hipMemset: no stream argument, default stream *)
| EvSync                                      (* hipDeviceSynchronize *)
| EvCreate (o : lib_object)
| EvDestroy (o : lib_object)
| EvSetAttr (a : attribute)
| EvHeuristic
| EvGemm (stream : Z) (dst : Z)               (* the multiply, enqueued on [stream] *)
| EvLaunch (k : kernel) (stream : Z) (dst : Z) (* hipLaunchKernelGGL on [stream] *)
| EvLog (l : log_line).

(** The stream a piece of device work is enqueued on; [None] for host
    bookkeeping. *)
Definition event_stream (e : event) : option Z :=
  match e with
  | EvGemm s _ => Some s
  | EvLaunch _ s _ => Some s
  | EvMemset _ => Some 0
  | _ => None
  end.

(** The events that write device memory. *)
Definition is_device_work (e : event) : bool :=
  match e with
  | EvGemm _ _ | EvLaunch _ _ _ | EvMemset _ => true
  | _ => false
  end.

(** Library objects created and not yet destroyed, oldest first. *)
Fixpoint live_objects (t : list event) (acc : list lib_object) : list lib_object :=
  match t with
  | [] => acc
  | EvCreate o :: t' => live_objects t' (acc ++ [o])
  | EvDestroy o :: t' => live_objects t' (filter (λ o', o' ≠ o) acc)
  | _ :: t' => live_objects t' acc
  end.

(** ** The host monad *)

Inductive outcome (A : Type) : Type :=
| Ok (a : A)
| Throw (msg : string)   (* the std::runtime_error of NVTE_CHECK, NVTE_ERROR, throw *)
| Fault.                 (* undefined behaviour: an access outside a device buffer *)
Arguments Ok {A} a.
Arguments Throw {A} msg.
Arguments Fault {A}.

Definition M (A : Type) : Type :=
  gmap Z (list R) -> outcome A * gmap Z (list R) * list event.

Definition ret_M {A : Type} (a : A) : M A := λ mem, (Ok a, mem, []).

Definition bind_M {A B : Type} (f : A -> M B) (c : M A) : M B :=
  λ mem,
    match c mem with
    | (Ok a, mem1, t1) =>
        let '(r, mem2, t2) := f a mem1 in (r, mem2, t1 ++ t2)
    | (Throw msg, mem1, t1) => (Throw msg, mem1, t1)
    | (Fault, mem1, t1) => (Fault, mem1, t1)
    end.

#[global] Instance M_ret : MRet M := @ret_M.
#[global] Instance M_bind : MBind M := @bind_M.

Definition throw {A : Type} (msg : string) : M A := λ mem, (Throw msg, mem, []).
Definition fault {A : Type} : M A := λ mem, (Fault, mem, []).
Definition emit (e : event) : M unit := λ mem, (Ok tt, mem, [e]).
Definition get_mem : M (gmap Z (list R)) := λ mem, (Ok mem, mem, []).
Definition put_mem (mem' : gmap Z (list R)) : M unit := λ _, (Ok tt, mem', []).

(** A buffer, or a fault when the pointer is not a live allocation. *)
Definition load (p : Z) : M (list R) :=
  λ mem, match mem !! p with
         | Some b => (Ok b, mem, [])
         | None => (Fault, mem, [])
         end.

Definition store (p : Z) (b : list R) : M unit :=
  λ mem, (Ok tt, <[p := b]> mem, []).

(** A kernel result: [None] is an access out of bounds. *)
Definition store_result (p : Z) (r : option (list R)) : M unit :=
  match r with
  | Some b => store p b
  | None => fault
  end.

(** [logging.h] *)
Definition NVTE_ERROR {A : Type} (x : string) : M A := throw x.

Definition NVTE_CHECK (x : bool) (msg : string) : M unit :=
  if x then mret tt else NVTE_ERROR msg.

Section Host.

Context (P : platform).

Definition NVTE_CHECK_CUDA (s : site) : M unit :=
  if lib_status P s then mret tt else NVTE_ERROR "CUDA Error".

(** [check_cublas_]; [what] is the library named in the message. *)
Definition NVTE_CHECK_CUBLAS (what : string) (s : site) : M unit :=
  if lib_status P s then mret tt else NVTE_ERROR (what ++ " Error").

(** [NVTE_CHECK_CUDA( hipMalloc(&p, sizeof(float) * elems) )] *)
Definition hipMalloc (elems : Z) : M Z :=
  NVTE_CHECK_CUDA S_hipMalloc;;
  mem ← get_mem;
  let p := fresh ({[0]} ∪ dom mem) in
  put_mem (<[p := replicate (Z.to_nat elems) (uninit P)]> mem);;
  emit (EvMalloc p elems);;
  mret p.

Definition hipFree (p : Z) : M unit :=
  NVTE_CHECK_CUDA S_hipFree;;
  mem ← get_mem;
  put_mem (delete p mem);;
  emit (EvFree p).

Definition hipDeviceSynchronize : M unit :=
  NVTE_CHECK_CUDA S_hipDeviceSynchronize;;
  emit EvSync.

(** [hipMemcpy(&x, src, sizeof(float), hipMemcpyDeviceToHost)] with the
    status ignored: on failure the host variable keeps whatever it held. *)
Definition hipMemcpy_to_host (src : Z) : M R :=
  mem ← get_mem;
  emit (EvMemcpyD2H src);;
  mret (match mem !! src with
        | Some (x :: _) => x
        | _ => uninit P
        end).

End Host.

(** ** Kernels of namespace [detail]

    A buffer is the list of the finite numbers its elements denote; a
    kernel result is [None] when a thread accesses an index outside a
    buffer, or when the value to store is not a finite number.

    The elementwise kernels run the loop
    [for (int id = blockIdx.x * blockDim.x + threadIdx.x; id < bound;
          id += blockDim.x * gridDim.x)]
    on every thread of the grid; a thread reads index [id] of its
    inputs and writes index [id] of its outputs. *)

Definition read (b : list R) (i : Z) : option R :=
  if decide (0 <= i) then b !! Z.to_nat i else None.

Definition write (b : list R) (i : Z) (v : R) : option (list R) :=
  if decide (0 <= i < Z.of_nat (length b))
  then Some (<[Z.to_nat i := v]> b) else None.

(** The loop of one thread.  The stride is an [unsigned], the sum is
    taken modulo 2^32 and stored in the [int].  Every body reads index
    [id] of a buffer, so a thread whose index has become negative ends
    in [None] at once; until then the index grows, so the loop is left
    after at most [bound] iterations and [fuel], one more than that, is
    never used up. *)
Fixpoint thread_loop (fuel : nat) (bound stride : Z) (body : Z -> option R)
    (id : Z) (out : list R) : option (list R) :=
  match fuel with
  | O => None
  | S fuel =>
      if id <? bound
      then v ← body id;
           out' ← write out id v;
           thread_loop fuel bound stride body
             (to_int32 (to_uint32 (to_uint32 id + stride))) out'
      else Some out
  end.

(** What the device accepts as the configuration of a launch: a block of
    1 to 1024 threads and a grid of 1 to 2^31 - 1 blocks, with fewer
    than 2^32 threads in all.  With any other configuration the launch
    fails and the kernel does not run; the launchers do not look at the
    status of a launch. *)
Definition launch_valid (gridDim blockDim : Z) : bool :=
  (1 <=? blockDim) && (blockDim <=? 1024)
  && (1 <=? gridDim) && (gridDim <=? 2 ^ 31 - 1)
  && (gridDim * blockDim <? 2 ^ 32).

Section Kernels.

Context (P : platform).

(** The grid of an elementwise kernel: the blocks in the order in which
    the platform schedules them, the threads of a block in turn.  Two
    threads that meet at one index store the same number there. *)
Definition grid_stride (gridDim blockDim : Z) (bound : Z)
    (body : Z -> option R) (out : list R) : option (list R) :=
  let stride := to_uint32 (blockDim * gridDim) in
  foldl (λ acc blockIdx,
           foldl (λ acc threadIdx,
                    o ← acc;
                    thread_loop (Z.to_nat bound + 1) bound stride body
                      (to_int32
                         (to_uint32 (to_uint32 (blockIdx * blockDim)
                                     + threadIdx)))
                      o)
                 acc (seqZ 0 blockDim))
        (Some out) (schedule P gridDim).

(** [gelu_forward_kernel<Tin, T>(in, out, m, n)] *)
Definition gelu_forward_kernel (T : DType) (inp out : list R) (m n : Z)
    (gridDim blockDim : Z) : option (list R) :=
  grid_stride gridDim blockDim (to_int32 (m * n))
    (λ id, x ← read inp id;
           let y := gelu_forward x in
           Some (cast P T y))
    out.

(** The number a finite value denotes. *)
Definition finite (a : fp32) : option R :=
  match a with
  | Finite r => Some r
  | _ => None
  end.

(** [gelu_backward_kernel<Tin, T>(dy, out, pre_gelu_out, m, n)] *)
Definition gelu_backward_kernel (Tin T : DType) (dy out pre_gelu_out : list R)
    (m n : Z) (gridDim blockDim : Z) : option (list R) :=
  grid_stride gridDim blockDim (to_int32 (m * n))
    (λ id, x ← cast P Tin <$> read pre_gelu_out id;
           d ← read dy id;
           dx ← cast P Tin <$> finite (gelu_backward x d);
           Some (cast P T dx))
    out.

(** [add_bias_kernel<Tin, T, Tb>(in, out, bias, m, n)] *)
Definition add_bias_kernel (Tin T : DType) (inp out bias : list R) (m n : Z)
    (gridDim blockDim : Z) : option (list R) :=
  grid_stride gridDim blockDim (to_int32 (m * n))
    (λ id, reg_bias ← cast P Tin <$> read bias (Z.rem id n);
           x ← read inp id;
           let val := (x + reg_bias)%R in
           Some (cast P T val))
    out.

(** [add_bias_gelu_kernel<Tin, T, Tb>(in, out, pre_gelu_out, bias, m, n)]:
    the two stores of a thread, [pre_gelu_out[id]] and [out[id]]. *)
Definition add_bias_gelu_kernel_pre (Tin T : DType)
    (inp pre_gelu_out bias : list R) (m n : Z) (gridDim blockDim : Z)
  : option (list R) :=
  grid_stride gridDim blockDim (to_int32 (m * n))
    (λ id, reg_bias ← cast P Tin <$> read bias (Z.rem id n);
           x ← read inp id;
           let val := (x + reg_bias)%R in
           Some (cast P T val))
    pre_gelu_out.

Definition add_bias_gelu_kernel_out (Tin T : DType)
    (inp out bias : list R) (m n : Z) (gridDim blockDim : Z)
  : option (list R) :=
  grid_stride gridDim blockDim (to_int32 (m * n))
    (λ id, reg_bias ← cast P Tin <$> read bias (Z.rem id n);
           x ← read inp id;
           let val := (x + reg_bias)%R in
           Some (cast P T (gelu_forward val)))
    out.

(** [identity_kernel<Tin, T>(in, out, n)] *)
Definition identity_kernel (T : DType) (inp out : list R) (n : Z)
    (gridDim blockDim : Z) : option (list R) :=
  grid_stride gridDim blockDim n
    (λ id, val ← read inp id;
           Some (cast P T val))
    out.

(** [bias_gradient_kernel<Tin, THREADS_PER_BLOCK>(in, out, m, n)],
    launched with [blockDim.x = THREADS_PER_BLOCK]. *)
Section bias_gradient.

Context (THREADS_PER_BLOCK : Z).

(** [ceil(float(m)/THREADS_PER_BLOCK)] *)
Definition BLOCKS_PER_COL (m : Z) : Z :=
  Single.ceil (Single.div (Single.of_int m) (Single.of_int THREADS_PER_BLOCK)).

(** [hipcub::BlockReduce::Sum(input)]: thread 0 receives the sum of the
    items of all threads of the block.  The sum, and the [atomicAdd]
    below, are additions of [R]: what the device computes differs from
    them by the rounding of each single-precision addition, which also
    makes its result depend on the order of the additions. *)
Definition BlockReduce_Sum (items : list R) : R := foldr Rplus 0%R items.

(** [hipcub::BlockReduce::Sum(input, num_valid)]: the sum of the items
    of the first [num_valid] threads. *)
Definition BlockReduce_Sum_valid (items : list R) (num_valid : Z) : R :=
  foldr Rplus 0%R (take (Z.to_nat num_valid) items).

(** [threadIdx.x + blockIdx.x * blockDim.x], unsigned, stored in an [int] *)
Definition thread_idx (blockIdx threadIdx : Z) : Z :=
  to_int32 (to_uint32 (threadIdx + to_uint32 (blockIdx * THREADS_PER_BLOCK))).

(** The [thread_data] of one thread; it stays uninitialised when
    [row_idx >= m]. *)
Definition thread_data (inp : list R) (m n : Z) (blockIdx threadIdx : Z)
  : option R :=
  let THREADS_PER_COL := to_int32 (BLOCKS_PER_COL m * THREADS_PER_BLOCK) in
  let idx := thread_idx blockIdx threadIdx in
  let col_idx := Z.quot idx THREADS_PER_COL in
  let row_idx := Z.rem idx THREADS_PER_COL in
  if row_idx <? m
  then read inp (to_int32 (to_int32 (row_idx * n) + col_idx))
  else Some (uninit P).

(** One block: the reduction, then the [atomicAdd] of thread 0. *)
Definition bias_gradient_block (inp : list R) (m n : Z) (out : list R)
    (blockIdx : Z) : option (list R) :=
  items ← mapM (thread_data inp m n blockIdx) (seqZ 0 THREADS_PER_BLOCK);
  let THREADS_PER_COL := to_int32 (BLOCKS_PER_COL m * THREADS_PER_BLOCK) in
  let idx := thread_idx blockIdx 0 in
  let col_idx := Z.quot idx THREADS_PER_COL in
  let row_idx := Z.rem idx THREADS_PER_COL in
  let full := to_int32 ((BLOCKS_PER_COL m - 1) * THREADS_PER_BLOCK) in
  let local_sum :=
    if row_idx <? full
    then BlockReduce_Sum items
    else BlockReduce_Sum_valid items (to_int32 (m - full)) in
  old ← read out col_idx;
  write out col_idx (old + local_sum)%R.

(** The grid: the blocks reach their [atomicAdd] in the order the
    platform schedules them. *)
Definition bias_gradient_kernel (inp out : list R) (m n : Z) (grid : Z)
  : option (list R) :=
  foldl (λ acc b, o ← acc; bias_gradient_block inp m n o b)
        (Some out) (schedule P grid).

End bias_gradient.

(** [hipMemset(out, 0, n * sizeof(float))] *)
Definition zero_fill (out : list R) (n : Z) : option (list R) :=
  let elems := float_elems n 1 in
  if decide (elems <= Z.of_nat (length out))
  then Some (replicate (Z.to_nat elems) 0%R ++ drop (Z.to_nat elems) out)
  else None.

(** *** Launchers

    A launcher computes the configuration and launches; when the device
    refuses the configuration nothing runs and the launcher returns as
    if it had. *)

(** [ceil(float(n)/1024)], stored in an [int] *)
Definition blocks_per_row (n : Z) : Z :=
  Single.ceil (Single.div (Single.of_int n) (Single.of_int 1024)).

(** [ceil(x / 1024.)] for an [int] x, stored in an [unsigned]: the
    quotient is exact in double precision.  For x < 0 the result is
    zero or negative and its conversion is undefined; the model takes
    the wrap-around, which no device accepts as a grid. *)
Definition ceil_div_1024 (x : Z) : Z := to_uint32 ((x + 1023) / 1024).

Definition gelu_forward_kernelLauncher (T : DType) (inp out : Z)
    (m n : Z) (stream : Z) : M unit :=
  let grid := to_uint32 (Z.min (to_int32 (m * blocks_per_row n)) 65536) in
  let block := to_uint32 (Z.min n 1024) in
  if launch_valid grid block
  then i ← load inp;
       o ← load out;
       emit (EvLaunch K_gelu_forward stream out);;
       store_result out (gelu_forward_kernel T i o m n grid block)
  else emit (EvLaunch K_gelu_forward stream out).

Definition gelu_backward_kernelLauncher (Tin T : DType)
    (inp out pre_gelu_out : Z) (m n : Z) (stream : Z) : M unit :=
  let grid := to_uint32 (Z.min (to_int32 (m * blocks_per_row n)) 65536) in
  let block := to_uint32 (Z.min n 1024) in
  if launch_valid grid block
  then i ← load inp;
       o ← load out;
       a ← load pre_gelu_out;
       emit (EvLaunch K_gelu_backward stream out);;
       store_result out (gelu_backward_kernel Tin T i o a m n grid block)
  else emit (EvLaunch K_gelu_backward stream out).

Definition add_bias_kernelLauncher (Tin T : DType) (inp out bias : Z)
    (m n : Z) (stream : Z) : M unit :=
  let block := 1024 in
  let grid := ceil_div_1024 (to_int32 (m * n)) in
  if launch_valid grid block
  then i ← load inp;
       o ← load out;
       b ← load bias;
       emit (EvLaunch K_add_bias stream out);;
       store_result out (add_bias_kernel Tin T i o b m n grid block)
  else emit (EvLaunch K_add_bias stream out).

Definition add_bias_gelu_kernelLauncher (Tin T : DType)
    (inp out pre_gelu_out bias : Z) (m n : Z) (stream : Z) : M unit :=
  let block := 1024 in
  let grid := ceil_div_1024 (to_int32 (m * n)) in
  if launch_valid grid block
  then i ← load inp;
       o ← load out;
       a ← load pre_gelu_out;
       b ← load bias;
       emit (EvLaunch K_add_bias_gelu stream out);;
       store_result pre_gelu_out
         (add_bias_gelu_kernel_pre Tin T i a b m n grid block);;
       store_result out (add_bias_gelu_kernel_out Tin T i o b m n grid block)
  else emit (EvLaunch K_add_bias_gelu stream out).

Definition identity_kernelLauncher (T : DType) (inp out : Z) (n : Z)
    (stream : Z) : M unit :=
  let block := 1024 in
  let grid := ceil_div_1024 n in
  if launch_valid grid block
  then i ← load inp;
       o ← load out;
       emit (EvLaunch K_identity stream out);;
       store_result out (identity_kernel T i o n grid block)
  else emit (EvLaunch K_identity stream out).

Definition bias_gradient_kernelLauncher (inp out : Z) (m n : Z) (stream : Z)
  : M unit :=
  let THREADS_PER_BLOCK := 1024 in
  let BLOCKS_PER_COL := BLOCKS_PER_COL THREADS_PER_BLOCK m in
  let grid := to_uint32 (to_int32 (BLOCKS_PER_COL * n)) in
  NVTE_CHECK_CUDA P S_hipMemset;;
  o ← load out;
  emit (EvMemset out);;
  store_result out (zero_fill o n);;
  if launch_valid grid THREADS_PER_BLOCK
  then i ← load inp;
       o ← load out;
       emit (EvLaunch K_bias_gradient stream out);;
       store_result out (bias_gradient_kernel THREADS_PER_BLOCK i o m n grid)
  else emit (EvLaunch K_bias_gradient stream out).

End Kernels.

(** ** [cublas_gemm], rocBLAS variant: bare multiply, then epilogue kernels *)

Module Rocblas.

Definition get_cuda_dtype (t : DType) : M rocblas_datatype :=
  match t with
  | kFloat16 => mret rocblas_datatype_f16_r
  | kFloat32 => mret rocblas_datatype_f32_r
  | kBFloat16 => mret rocblas_datatype_bf16_r
  | kFloat8E4M3 => mret rocblas_datatype_f8_r
  | kFloat8E5M2 => mret rocblas_datatype_bf8_r
  | _ => NVTE_ERROR "Invalid type"
  end.

Definition get_transformer_engine_dtype (t : rocblas_datatype) : DType :=
  match t with
  | rocblas_datatype_f16_r => kFloat16
  | rocblas_datatype_f32_r => kFloat32
  | rocblas_datatype_bf16_r => kBFloat16
  | rocblas_datatype_f8_r => kFloat8E4M3
  | rocblas_datatype_bf8_r => kFloat8E5M2
  end.

(** [TRANSFORMER_ENGINE_TYPE_SWITCH_ROCM_SIM(dtype, type, ...)]: the
    body receives the element format that [type] stands for. *)
Definition TRANSFORMER_ENGINE_TYPE_SWITCH_ROCM_SIM {A : Type}
    (t : DType) (body : DType -> M A) : M A :=
  match t with
  | kFloat32 => body kFloat32
  | kFloat16 => body kFloat16
  | kBFloat16 => body kBFloat16
  | kFloat8E5M2 | kFloat8E4M3 => NVTE_ERROR "FP8 type not instantiated"
  | _ => NVTE_ERROR "Invalid type."
  end.

(** The condition of the [NVTE_CHECK] on the three type tags. *)
Definition enabled_types (A_type B_type D_type : rocblas_datatype) : bool :=
  bool_decide
    ((A_type = rocblas_datatype_f16_r ∧ B_type = rocblas_datatype_f16_r ∧ D_type = rocblas_datatype_f16_r) ∨
     (A_type = rocblas_datatype_f32_r ∧ B_type = rocblas_datatype_f32_r ∧ D_type = rocblas_datatype_f32_r) ∨
     (A_type = rocblas_datatype_f8_r ∧ B_type = rocblas_datatype_f8_r ∧ D_type = rocblas_datatype_f32_r) ∨
     (A_type = rocblas_datatype_f8_r ∧ B_type = rocblas_datatype_f8_r ∧ D_type = rocblas_datatype_f16_r) ∨
     (A_type = rocblas_datatype_f8_r ∧ B_type = rocblas_datatype_bf8_r ∧ D_type = rocblas_datatype_f32_r) ∨
     (A_type = rocblas_datatype_f8_r ∧ B_type = rocblas_datatype_bf8_r ∧ D_type = rocblas_datatype_f16_r) ∨
     (A_type = rocblas_datatype_bf8_r ∧ B_type = rocblas_datatype_f8_r ∧ D_type = rocblas_datatype_f32_r) ∨
     (A_type = rocblas_datatype_bf8_r ∧ B_type = rocblas_datatype_f8_r ∧ D_type = rocblas_datatype_f16_r)).

(** A handle fresh from [rocblas_create_handle] enqueues on the default
    stream; the code never calls [rocblas_set_stream]. *)
Definition handle_stream : Z := 0.

Section Variant.

Context (P : platform).

(** The buffer [c] after the library has written the [m] by [n]
    column-major matrix of leading dimension [ldd] into it. *)
Definition gemm_written (call : gemm_call) (a b c : list R) : list R :=
  imap (λ i old,
          if (Z.of_nat i mod g_ldd call <? g_m call)
             && (Z.of_nat i / g_ldd call <? g_n call)
          then gemm_result P call a b c (Z.of_nat i) else old) c.

(** [rocblas_gemm_ex] / [rocblas_gemm_ex3] with C and D both [D_temp]. *)
Definition rocblas_gemm (call : gemm_call) (A B D_temp : Z) : M unit :=
  NVTE_CHECK_CUBLAS P "ROCBLAS"
    (if g_ex3 call then S_rocblas_gemm_ex3 else S_rocblas_gemm_ex);;
  a ← load A;
  b ← load B;
  c ← load D_temp;
  emit (EvGemm handle_stream D_temp);;
  store D_temp (gemm_written call a b c).

Definition cublas_gemm (inputA inputB outputD inputBias outputPreGelu : Tensor)
    (m n k lda ldb ldd : Z) (transa transb : operation) (grad : bool)
    (workspace workspaceSize : Z) (accumulate use_split_accumulator : bool)
    (math_sm_count : Z) (stream : Z) : M unit :=
  let A := dptr (data inputA) in
  let A_scale_inverse := dptr (scale_inv inputA) in
  let B := dptr (data inputB) in
  let B_scale_inverse := dptr (scale_inv inputB) in
  let D := dptr (data outputD) in
  let bias_ptr := dptr (data inputBias) in
  let bias := negb (bias_ptr =? 0) in
  let pre_gelu_out := dptr (data outputPreGelu) in
  let gelu := negb (pre_gelu_out =? 0) in
  let use_fp8 := is_fp8_dtype (dtype (data inputA))
                 || is_fp8_dtype (dtype (data inputB)) in
  A_type ← get_cuda_dtype (dtype (data inputA));
  B_type ← get_cuda_dtype (dtype (data inputB));
  D_type ← get_cuda_dtype (dtype (data outputD));
  bias_type ← get_cuda_dtype (dtype (data inputBias));
  (if use_fp8 && gelu
   then NVTE_CHECK (negb (is_fp8_dtype (dtype (data outputPreGelu))))
          "fp8 Aux output for gemm + gelu fusion not supported!"
   else mret tt);;
  (if is_fp8_dtype (dtype (data outputD))
   then NVTE_CHECK (negb accumulate)
          "Accumulation mode not supported with FP8 GEMM output!"
   else mret tt);;
  let one := 1%R in
  let zero := 0%R in
  let beta := if accumulate then one else zero in
  alpha ← (if use_fp8
           then A_scale_inv ← hipMemcpy_to_host P A_scale_inverse;
                B_scale_inv ← hipMemcpy_to_host P B_scale_inverse;
                mret (A_scale_inv * B_scale_inv)%R
           else mret 1%R);
  NVTE_CHECK_CUBLAS P "ROCBLAS" S_rocblas_create_handle;;
  emit (EvCreate Handle);;
  NVTE_CHECK (enabled_types A_type B_type D_type)
    "Only the following combinations of data types are enabled now!";;
  let needs_temp :=
    (bias || gelu)
    && bool_decide (D_type = rocblas_datatype_f16_r
                    ∨ D_type = rocblas_datatype_f8_r
                    ∨ D_type = rocblas_datatype_bf8_r) in
  D_temp ← (if needs_temp then hipMalloc P (float_elems m n) else mret D);
  let D_temp_type :=
    if negb (bias || gelu)
       && bool_decide
            ((A_type = rocblas_datatype_f16_r ∧ B_type = rocblas_datatype_f16_r
              ∧ D_type = rocblas_datatype_f16_r)
             ∨ ((A_type = rocblas_datatype_f8_r ∨ A_type = rocblas_datatype_bf8_r)
                ∧ (B_type = rocblas_datatype_f8_r ∨ B_type = rocblas_datatype_bf8_r)
                ∧ D_type = rocblas_datatype_f16_r))
    then rocblas_datatype_f16_r else rocblas_datatype_f32_r in
  rocblas_gemm
    {| g_ex3 := use_fp8; g_transa := transa; g_transb := transb;
       g_m := m; g_n := n; g_k := k; g_alpha := alpha;
       g_A_type := A_type; g_lda := lda; g_B_type := B_type; g_ldb := ldb;
       g_beta := beta; g_D_type := D_temp_type; g_ldd := ldd |}
    A B D_temp;;
  NVTE_CHECK_CUBLAS P "ROCBLAS" S_rocblas_destroy_handle;;
  emit (EvDestroy Handle);;
  (if bias && gelu then
     if grad then
       let batch_size := n in
       let input_dim := m in
       let input_dtype := get_transformer_engine_dtype rocblas_datatype_f32_r in
       let output_dtype := get_transformer_engine_dtype D_type in
       let bias_dtype := get_transformer_engine_dtype bias_type in
       TRANSFORMER_ENGINE_TYPE_SWITCH_ROCM_SIM input_dtype (λ IType,
         TRANSFORMER_ENGINE_TYPE_SWITCH_ROCM_SIM output_dtype (λ OType,
           gelu_backward_kernelLauncher P IType OType D_temp D pre_gelu_out
             batch_size input_dim 0));;
       bias_tmp ← (if bool_decide (bias_type ≠ rocblas_datatype_f32_r)
                   then hipMalloc P (float_elems input_dim 1)
                   else mret bias_ptr);
       TRANSFORMER_ENGINE_TYPE_SWITCH_ROCM_SIM output_dtype (λ OType,
         bias_gradient_kernelLauncher P D bias_tmp batch_size input_dim 0);;
       (if bool_decide (bias_type ≠ rocblas_datatype_f32_r) then
          TRANSFORMER_ENGINE_TYPE_SWITCH_ROCM_SIM bias_dtype (λ OType,
            identity_kernelLauncher P OType bias_tmp bias_ptr input_dim 0);;
          hipDeviceSynchronize P;;
          hipFree P bias_tmp
        else mret tt)
     else
       let batch_size := n in
       let output_dim := m in
       let input_dtype := get_transformer_engine_dtype rocblas_datatype_f32_r in
       let output_dtype := get_transformer_engine_dtype D_type in
       let bias_dtype := get_transformer_engine_dtype bias_type in
       TRANSFORMER_ENGINE_TYPE_SWITCH_ROCM_SIM input_dtype (λ IType,
         TRANSFORMER_ENGINE_TYPE_SWITCH_ROCM_SIM output_dtype (λ OType,
           TRANSFORMER_ENGINE_TYPE_SWITCH_ROCM_SIM bias_dtype (λ BType,
             add_bias_gelu_kernelLauncher P IType OType D_temp D pre_gelu_out
               bias_ptr batch_size output_dim 0)))
   else if bias then
     if grad then
       let batch_size := k in
       let input_dim := m in
       let output_dim := n in
       bias_tmp ← (if bool_decide (bias_type ≠ rocblas_datatype_f32_r)
                   then hipMalloc P (float_elems output_dim 1)
                   else mret bias_ptr);
       let input_dtype := get_transformer_engine_dtype B_type in
       let output_dtype := get_transformer_engine_dtype D_type in
       let bias_dtype := get_transformer_engine_dtype bias_type in
       TRANSFORMER_ENGINE_TYPE_SWITCH_ROCM_SIM input_dtype (λ IType,
         bias_gradient_kernelLauncher P B bias_tmp batch_size output_dim 0);;
       (if bool_decide (bias_type ≠ rocblas_datatype_f32_r) then
          TRANSFORMER_ENGINE_TYPE_SWITCH_ROCM_SIM bias_dtype (λ OType,
            identity_kernelLauncher P OType bias_tmp bias_ptr output_dim 0);;
          hipDeviceSynchronize P;;
          hipFree P bias_tmp
        else mret tt);;
       (if bool_decide (D_type = rocblas_datatype_f16_r) then
          TRANSFORMER_ENGINE_TYPE_SWITCH_ROCM_SIM output_dtype (λ OType,
            identity_kernelLauncher P OType D_temp D
              (to_int32 (input_dim * output_dim)) 0)
        else mret tt)
     else
       let batch_size := n in
       let output_dim := m in
       let input_dtype := get_transformer_engine_dtype rocblas_datatype_f32_r in
       let output_dtype := get_transformer_engine_dtype D_type in
       let bias_dtype := get_transformer_engine_dtype bias_type in
       TRANSFORMER_ENGINE_TYPE_SWITCH_ROCM_SIM input_dtype (λ IType,
         TRANSFORMER_ENGINE_TYPE_SWITCH_ROCM_SIM output_dtype (λ OType,
           TRANSFORMER_ENGINE_TYPE_SWITCH_ROCM_SIM bias_dtype (λ BType,
             add_bias_kernelLauncher P IType OType D_temp D bias_ptr
               batch_size output_dim 0)))
   else if gelu then
     if grad then
       let batch_size := n in
       let input_dim := m in
       let input_dtype := get_transformer_engine_dtype rocblas_datatype_f32_r in
       let output_dtype := get_transformer_engine_dtype D_type in
       TRANSFORMER_ENGINE_TYPE_SWITCH_ROCM_SIM input_dtype (λ IType,
         TRANSFORMER_ENGINE_TYPE_SWITCH_ROCM_SIM output_dtype (λ OType,
           gelu_backward_kernelLauncher P IType OType D_temp D pre_gelu_out
             batch_size input_dim 0))
     else
       let batch_size := n in
       let output_dim := m in
       let input_dtype := get_transformer_engine_dtype rocblas_datatype_f32_r in
       let output_dtype := get_transformer_engine_dtype D_type in
       TRANSFORMER_ENGINE_TYPE_SWITCH_ROCM_SIM input_dtype (λ IType,
         TRANSFORMER_ENGINE_TYPE_SWITCH_ROCM_SIM output_dtype (λ OType,
           gelu_forward_kernelLauncher P OType D_temp D batch_size output_dim 0));;
       TRANSFORMER_ENGINE_TYPE_SWITCH_ROCM_SIM input_dtype (λ IType,
         TRANSFORMER_ENGINE_TYPE_SWITCH_ROCM_SIM output_dtype (λ OType,
           identity_kernelLauncher P OType D_temp pre_gelu_out
             (to_int32 (batch_size * output_dim)) 0))
   else mret tt);;
  (if needs_temp then hipFree P D_temp else mret tt).

End Variant.

End Rocblas.

(** ** [cublas_gemm], the two variants with a fused epilogue *)

Section Lt.

Context (P : platform) (what : string).

Definition lt_create (s : site) (o : lib_object) : M unit :=
  NVTE_CHECK_CUBLAS P what s;;
  emit (EvCreate o).

Definition lt_destroy (s : site) (o : lib_object) : M unit :=
  NVTE_CHECK_CUBLAS P what s;;
  emit (EvDestroy o).

Definition lt_set_attribute (a : attribute) : M unit :=
  NVTE_CHECK_CUBLAS P what (S_LtMatmulDescSetAttribute a);;
  emit (EvSetAttr a).

(** [cublasLtMatmul] / [hipblasLtMatmul], enqueued on [stream]. *)
Definition lt_matmul (call : lt_call) (stream : Z) : M unit :=
  NVTE_CHECK_CUBLAS P what S_LtMatmul;;
  mem ← get_mem;
  emit (EvGemm stream (lt_D call));;
  put_mem (lt_matmul_result P call mem).

End Lt.

Module HipblasLt.

Definition get_cuda_dtype (t : DType) : M hipblasltDatatype_t :=
  match t with
  | kFloat16 => mret HIPBLASLT_R_16F
  | kFloat32 => mret HIPBLASLT_R_32F
  | kBFloat16 => mret HIPBLASLT_R_16B
  | kFloat8E4M3 => mret HIPBLASLT_R_8F_E4M3
  | kFloat8E5M2 => mret HIPBLASLT_R_8F_E5M2
  | _ => NVTE_ERROR "Invalid type"
  end.

Section Variant.

Context (P : platform).

Definition cublas_gemm (inputA inputB outputD inputBias outputPreGelu : Tensor)
    (m n k lda ldb ldd : Z) (transa transb : operation) (grad : bool)
    (workspace workspaceSize : Z) (accumulate use_split_accumulator : bool)
    (math_sm_count : Z) (stream : Z) : M unit :=
  let A := dptr (data inputA) in
  let A_scale_inverse := dptr (scale_inv inputA) in
  let B := dptr (data inputB) in
  let B_scale_inverse := dptr (scale_inv inputB) in
  let D := dptr (data outputD) in
  let bias_ptr := dptr (data inputBias) in
  let bias := negb (bias_ptr =? 0) in
  let pre_gelu_out := dptr (data outputPreGelu) in
  let gelu := negb (pre_gelu_out =? 0) in
  let use_fp8 := is_fp8_dtype (dtype (data inputA))
                 || is_fp8_dtype (dtype (data inputB)) in
  A_type ← get_cuda_dtype (dtype (data inputA));
  B_type ← get_cuda_dtype (dtype (data inputB));
  D_type ← get_cuda_dtype (dtype (data outputD));
  bias_type ← get_cuda_dtype (dtype (data inputBias));
  NVTE_CHECK (negb (is_fp8_dtype (dtype (data inputA)))
              || negb (A_scale_inverse =? 0))
    "FP8 input to GEMM requires inverse of scale!";;
  NVTE_CHECK (negb (is_fp8_dtype (dtype (data inputB)))
              || negb (B_scale_inverse =? 0))
    "FP8 input to GEMM requires inverse of scale!";;
  (if use_fp8
   then NVTE_CHECK (negb gelu) "fp8 gemm + gelu fusion is unavailable right now!"
   else mret tt);;
  let one := 1%R in
  let zero := 0%R in
  let beta := if accumulate then one else zero in
  lt_create P "HIPBLASLT" S_LtCreate Handle;;
  lt_create P "HIPBLASLT" (S_LtMatrixLayoutCreate Adesc) Adesc;;
  lt_create P "HIPBLASLT" (S_LtMatrixLayoutCreate Bdesc) Bdesc;;
  lt_create P "HIPBLASLT" (S_LtMatrixLayoutCreate Ddesc) Ddesc;;
  lt_create P "HIPBLASLT" S_LtMatmulDescCreate OperationDesc;;
  lt_set_attribute P "HIPBLASLT" DESC_TRANSA;;
  lt_set_attribute P "HIPBLASLT" DESC_TRANSB;;
  (if use_fp8 then
     lt_set_attribute P "HIPBLASLT" DESC_A_SCALE_POINTER;;
     lt_set_attribute P "HIPBLASLT" DESC_B_SCALE_POINTER;;
     (if bias then lt_set_attribute P "HIPBLASLT" DESC_BIAS_DATA_TYPE
      else mret tt)
   else mret tt);;
  epilogue ←
    (if bias && gelu then
       lt_set_attribute P "HIPBLASLT" DESC_BIAS_POINTER;;
       lt_set_attribute P "HIPBLASLT" DESC_EPILOGUE_AUX_POINTER;;
       lt_set_attribute P "HIPBLASLT" DESC_EPILOGUE_AUX_LD;;
       mret (if grad then EPILOGUE_DGELU_BGRAD else EPILOGUE_GELU_AUX_BIAS)
     else if bias then
       lt_set_attribute P "HIPBLASLT" DESC_BIAS_POINTER;;
       mret (if grad then EPILOGUE_BGRADB else EPILOGUE_BIAS)
     else if gelu then
       lt_set_attribute P "HIPBLASLT" DESC_EPILOGUE_AUX_POINTER;;
       lt_set_attribute P "HIPBLASLT" DESC_EPILOGUE_AUX_LD;;
       mret (if grad then EPILOGUE_DGELU else EPILOGUE_GELU_AUX)
     else mret EPILOGUE_DEFAULT);
  lt_set_attribute P "HIPBLASLT" DESC_EPILOGUE;;
  lt_create P "HIPBLASLT" S_LtMatmulPreferenceCreate Preference;;
  NVTE_CHECK_CUBLAS P "HIPBLASLT" S_LtMatmulPreferenceSetAttribute;;
  NVTE_CHECK_CUBLAS P "HIPBLASLT" S_LtMatmulAlgoGetHeuristic;;
  emit EvHeuristic;;
  (if returnedResults P =? 0
   then throw "Unable to find any suitable algorithms"
   else mret tt);;
  lt_matmul P "HIPBLASLT"
    {| lt_transa := transa; lt_transb := transb;
       lt_m := m; lt_n := n; lt_k := k; lt_epilogue := epilogue;
       lt_A := A; lt_B := B; lt_C := D; lt_D := D;
       lt_bias := bias_ptr; lt_aux := pre_gelu_out; lt_beta := beta;
       lt_workspace := workspace; lt_workspaceSize := workspaceSize |}
    stream;;
  lt_destroy P "HIPBLASLT" S_LtMatmulPreferenceDestroy Preference;;
  lt_destroy P "HIPBLASLT" (S_LtMatrixLayoutDestroy Ddesc) Ddesc;;
  lt_destroy P "HIPBLASLT" (S_LtMatrixLayoutDestroy Bdesc) Bdesc;;
  lt_destroy P "HIPBLASLT" (S_LtMatrixLayoutDestroy Adesc) Adesc;;
  lt_destroy P "HIPBLASLT" S_LtMatmulDescDestroy OperationDesc;;
  lt_destroy P "HIPBLASLT" S_LtDestroy Handle.

End Variant.

End HipblasLt.

Module CublasLt.

Definition get_cuda_dtype (t : DType) : M cudaDataType_t :=
  match t with
  | kFloat16 => mret CUDA_R_16F
  | kFloat32 => mret CUDA_R_32F
  | kBFloat16 => mret CUDA_R_16BF
  | kFloat8E4M3 => mret CUDA_R_8F_E4M3
  | kFloat8E5M2 => mret CUDA_R_8F_E5M2
  | _ => NVTE_ERROR "Invalid type"
  end.

Section Variant.

Context (P : platform).

Definition cublas_gemm (inputA inputB outputD inputBias outputPreGelu : Tensor)
    (m n k lda ldb ldd : Z) (transa transb : operation) (grad : bool)
    (workspace workspaceSize : Z) (accumulate use_split_accumulator : bool)
    (math_sm_count : Z) (stream : Z) : M unit :=
  let A := dptr (data inputA) in
  let A_scale_inverse := dptr (scale_inv inputA) in
  let B := dptr (data inputB) in
  let B_scale_inverse := dptr (scale_inv inputB) in
  let C := dptr (data outputD) in
  let D := dptr (data outputD) in
  let bias_ptr := dptr (data inputBias) in
  let bias := negb (bias_ptr =? 0) in
  let pre_gelu_out := dptr (data outputPreGelu) in
  let gelu := negb (pre_gelu_out =? 0) in
  let use_fp8 := is_fp8_dtype (dtype (data inputA))
                 || is_fp8_dtype (dtype (data inputB)) in
  A_type ← get_cuda_dtype (dtype (data inputA));
  B_type ← get_cuda_dtype (dtype (data inputB));
  D_type ← get_cuda_dtype (dtype (data outputD));
  bias_type ← get_cuda_dtype (dtype (data inputBias));
  NVTE_CHECK (negb (is_fp8_dtype (dtype (data inputA)))
              || negb (A_scale_inverse =? 0))
    "FP8 input to GEMM requires inverse of scale!";;
  NVTE_CHECK (negb (is_fp8_dtype (dtype (data inputB)))
              || negb (B_scale_inverse =? 0))
    "FP8 input to GEMM requires inverse of scale!";;
  (if use_fp8 && gelu
   then NVTE_CHECK (negb (is_fp8_dtype (dtype (data outputPreGelu))))
          "fp8 Aux output for gemm + gelu fusion not supported!"
   else mret tt);;
  (if is_fp8_dtype (dtype (data outputD))
   then NVTE_CHECK (negb accumulate)
          "Accumulation mode not supported with FP8 GEMM output!"
   else mret tt);;
  let one := 1%R in
  let zero := 0%R in
  let beta := if accumulate then one else zero in
  lt_create P "CUBLAS" S_LtCreate Handle;;
  lt_create P "CUBLAS" (S_LtMatrixLayoutCreate Adesc) Adesc;;
  lt_create P "CUBLAS" (S_LtMatrixLayoutCreate Bdesc) Bdesc;;
  lt_create P "CUBLAS" (S_LtMatrixLayoutCreate Ddesc) Ddesc;;
  lt_create P "CUBLAS" S_LtMatmulDescCreate OperationDesc;;
  lt_set_attribute P "CUBLAS" DESC_TRANSA;;
  lt_set_attribute P "CUBLAS" DESC_TRANSB;;
  (if negb (math_sm_count =? 0)
   then lt_set_attribute P "CUBLAS" DESC_SM_COUNT_TARGET
   else mret tt);;
  C ← (if use_fp8 then
         lt_set_attribute P "CUBLAS" DESC_FAST_ACCUM;;
         lt_set_attribute P "CUBLAS" DESC_A_SCALE_POINTER;;
         lt_set_attribute P "CUBLAS" DESC_B_SCALE_POINTER;;
         C ← (if is_fp8_dtype (dtype (data outputD)) then
                lt_set_attribute P "CUBLAS" DESC_D_SCALE_POINTER;;
                lt_set_attribute P "CUBLAS" DESC_AMAX_D_POINTER;;
                lt_create P "CUBLAS" (S_LtMatrixLayoutCreate Cdesc) Cdesc;;
                mret 0
              else
                lt_create P "CUBLAS" (S_LtMatrixLayoutCreate Cdesc) Cdesc;;
                mret C);
         (if bias then lt_set_attribute P "CUBLAS" DESC_BIAS_DATA_TYPE
          else mret tt);;
         mret C
       else
         lt_create P "CUBLAS" (S_LtMatrixLayoutCreate Cdesc) Cdesc;;
         mret C);
  epilogue ←
    (if bias && gelu then
       lt_set_attribute P "CUBLAS" DESC_BIAS_POINTER;;
       lt_set_attribute P "CUBLAS" DESC_EPILOGUE_AUX_POINTER;;
       lt_set_attribute P "CUBLAS" DESC_EPILOGUE_AUX_LD;;
       aux_type ← get_cuda_dtype (dtype (data outputPreGelu));
       lt_set_attribute P "CUBLAS" DESC_EPILOGUE_AUX_DATA_TYPE;;
       mret (if grad then EPILOGUE_DGELU_BGRAD else EPILOGUE_GELU_AUX_BIAS)
     else if bias then
       lt_set_attribute P "CUBLAS" DESC_BIAS_POINTER;;
       mret (if grad then EPILOGUE_BGRADB else EPILOGUE_BIAS)
     else if gelu then
       lt_set_attribute P "CUBLAS" DESC_EPILOGUE_AUX_POINTER;;
       lt_set_attribute P "CUBLAS" DESC_EPILOGUE_AUX_LD;;
       mret (if grad then EPILOGUE_DGELU else EPILOGUE_GELU_AUX)
     else mret EPILOGUE_DEFAULT);
  lt_set_attribute P "CUBLAS" DESC_EPILOGUE;;
  lt_create P "CUBLAS" S_LtMatmulPreferenceCreate Preference;;
  NVTE_CHECK_CUBLAS P "CUBLAS" S_LtMatmulPreferenceSetAttribute;;
  NVTE_CHECK_CUBLAS P "CUBLAS" S_LtMatmulAlgoGetHeuristic;;
  emit EvHeuristic;;
  (if returnedResults P =? 0
   then throw "Unable to find any suitable algorithms"
   else mret tt);;
  lt_matmul P "CUBLAS"
    {| lt_transa := transa; lt_transb := transb;
       lt_m := m; lt_n := n; lt_k := k; lt_epilogue := epilogue;
       lt_A := A; lt_B := B; lt_C := C; lt_D := D;
       lt_bias := bias_ptr; lt_aux := pre_gelu_out; lt_beta := beta;
       lt_workspace := workspace; lt_workspaceSize := workspaceSize |}
    stream;;
  lt_destroy P "CUBLAS" S_LtMatmulPreferenceDestroy Preference;;
  lt_destroy P "CUBLAS" (S_LtMatrixLayoutDestroy Ddesc) Ddesc;;
  lt_destroy P "CUBLAS" (S_LtMatrixLayoutDestroy Cdesc) Cdesc;;
  lt_destroy P "CUBLAS" (S_LtMatrixLayoutDestroy Bdesc) Bdesc;;
  lt_destroy P "CUBLAS" (S_LtMatrixLayoutDestroy Adesc) Adesc;;
  lt_destroy P "CUBLAS" S_LtMatmulDescDestroy OperationDesc.

End Variant.

End CublasLt.

(** ** The entry point *)

(** The three build configurations of the file:
    no [__HIP_PLATFORM_HCC__]; [__HIP_PLATFORM_HCC__] with
    [USE_HIPBLASLT]; [__HIP_PLATFORM_HCC__] without it. *)
Inductive backend : Type := CUBLASLT | HIPBLASLT | ROCBLAS.

(** [t.shape[i]] of a [std::vector]; outside the vector the access is
    undefined. *)
Definition shape_at (t : SimpleTensor) (i : nat) : M Z :=
  match shape t !! i with
  | Some d => mret d
  | None => fault
  end.

Section Entry.

Context (variant : backend) (P : platform).

(** [getenv] is the value of the environment variable
    [NVTE_LOG_GEMM_CONFIG], [None] when it is unset. *)
Definition nvte_cublas_gemm (getenv : option string)
    (A B D bias pre_gelu_out : Tensor) (transa transb grad : bool)
    (workspace : Tensor) (accumulate use_split_accumulator : bool)
    (math_sm_count : Z) (stream : Z) : M unit :=
  let inputA := A in
  let inputB := B in
  let outputD := D in
  let biasTensor := bias in
  let outputGelu := pre_gelu_out in
  let wspace := workspace in
  m ← (d ← shape_at (data inputA) (if transa then 0 else 1)%nat; mret (to_int32 d));
  k ← (d ← shape_at (data inputA) (if transa then 1 else 0)%nat; mret (to_int32 d));
  n ← (d ← shape_at (data inputB) (if transb then 1 else 0)%nat; mret (to_int32 d));
  ld ← (if transa && negb transb then mret (k, k, m)
        else if negb transa && negb transb then mret (m, k, m)
        else if negb transa && transb then mret (m, n, m)
        else NVTE_ERROR "TT layout not allowed.");
  let '(lda, ldb, ldd) := ld in
  let nvte_log_gemm_config := bool_decide (getenv = Some "1"%string) in
  (if nvte_log_gemm_config then
     A_scale_inv ← hipMemcpy_to_host P (dptr (scale_inv inputA));
     B_scale_inv ← hipMemcpy_to_host P (dptr (scale_inv inputB));
     emit (EvLog
       {| log_m := m; log_k := k; log_n := n;
          log_transa := transa; log_transb := transb;
          log_A_type := dtype (data inputA);
          log_B_type := dtype (data inputB);
          log_D_type := dtype (data outputD);
          log_bias_type := dtype (data biasTensor);
          log_grad := grad;
          log_bias := negb (dptr (data biasTensor) =? 0);
          log_gelu := negb (dptr (data outputGelu) =? 0);
          log_use_fp8 := is_fp8_dtype (dtype (data inputA))
                         || is_fp8_dtype (dtype (data inputB));
          log_A_scale_inverse := A_scale_inv;
          log_B_scale_inverse := B_scale_inv;
          log_accumulate := accumulate |})
   else mret tt);;
  workspaceSize ← shape_at (data wspace) 0%nat;
  match variant with
  | HIPBLASLT =>
      HipblasLt.cublas_gemm P inputA inputB outputD biasTensor outputGelu
        m n k lda ldb ldd
        (if transa then OP_T else OP_N) (if transb then OP_T else OP_N)
        grad (dptr (data wspace)) workspaceSize
        accumulate use_split_accumulator math_sm_count stream
  | CUBLASLT =>
      CublasLt.cublas_gemm P inputA inputB outputD biasTensor outputGelu
        m n k lda ldb ldd
        (if transa then OP_T else OP_N) (if transb then OP_T else OP_N)
        grad (dptr (data wspace)) workspaceSize
        accumulate use_split_accumulator math_sm_count stream
  | ROCBLAS =>
      Rocblas.cublas_gemm P inputA inputB outputD biasTensor outputGelu
        m n k lda ldb ldd
        (if transa then OP_T else OP_N) (if transb then OP_T else OP_N)
        grad (dptr (data wspace)) workspaceSize
        accumulate use_split_accumulator math_sm_count stream
  end.

End Entry.

(** Running a host computation: result, final device memory, trace. *)
Definition result_of {A : Type} (r : outcome A * gmap Z (list R) * list event)
  : outcome A := r.1.1.
Definition memory_of {A : Type} (r : outcome A * gmap Z (list R) * list event)
  : gmap Z (list R) := r.1.2.
Definition trace_of {A : Type} (r : outcome A * gmap Z (list R) * list event)
  : list event := r.2.

(** ** A reference platform

    Every call succeeds, one algorithm is found, conversions keep the
    value, blocks run in index order, and the multiply computes
    [D = alpha * op(A) * op(B) + beta * C] on column-major matrices. *)

Definition nth_R (b : list R) (i : Z) : R := default 0%R (read b i).

Definition gemm_reference (call : gemm_call) (a b c : list R) (i : Z) : R :=
  let row := i mod g_ldd call in
  let col := i / g_ldd call in
  let opA l := match g_transa call with
               | OP_N => nth_R a (row + l * g_lda call)
               | OP_T => nth_R a (l + row * g_lda call)
               end in
  let opB l := match g_transb call with
               | OP_N => nth_R b (l + col * g_ldb call)
               | OP_T => nth_R b (col + l * g_ldb call)
               end in
  (g_alpha call * foldr Rplus 0 ((λ l, opA l * opB l) <$> seqZ 0 (g_k call))
   + g_beta call * nth_R c i)%R.

Definition reference_platform : platform :=
  {| lib_status := λ _, true;
     returnedResults := 1;
     uninit := 0%R;
     cast := λ _ x, x;
     schedule := seqZ 0;
     gemm_result := gemm_reference;
     lt_matmul_result := λ _ mem, mem |}.

(** ** Vocabulary of the statements *)

(** Weakest precondition of a host computation started in [mem]. *)
Definition wp {A : Type} (c : M A) (mem : gmap Z (list R))
    (Q : outcome A -> gmap Z (list R) -> list event -> Prop) : Prop :=
  Q (result_of (c mem)) (memory_of (c mem)) (trace_of (c mem)).

(** Every event a computation records satisfies [φ], from any memory. *)
Definition trace_all {A : Type} (φ : event -> Prop) (c : M A) : Prop :=
  ∀ mem, Forall φ (trace_of (c mem)).


Definition is_gemm (e : event) : bool :=
  match e with
  | EvGemm _ _ => true
  | _ => false
  end.

Definition is_destroy (e : event) : bool :=
  match e with
  | EvDestroy _ => true
  | _ => false
  end.

Definition on_default_stream (e : event) : Prop :=
  ∀ s, event_stream e = Some s -> s = Rocblas.handle_stream.

(** The type triples as the specification lists them:
    (fp16, fp16, fp16); (fp32, fp32, fp32); (e4m3 or e5m2, e4m3 or
    e5m2, fp32 or fp16) except when both inputs are e5m2. *)
Definition accepted_triple (a b d : DType) : bool :=
  bool_decide (a = kFloat16 ∧ b = kFloat16 ∧ d = kFloat16)
  || bool_decide (a = kFloat32 ∧ b = kFloat32 ∧ d = kFloat32)
  || (bool_decide (a = kFloat8E4M3 ∨ a = kFloat8E5M2)
      && bool_decide (b = kFloat8E4M3 ∨ b = kFloat8E5M2)
      && bool_decide (d = kFloat32 ∨ d = kFloat16)
      && negb (bool_decide (a = kFloat8E5M2 ∧ b = kFloat8E5M2))).

(** An allocation of device memory. *)
Definition is_malloc (e : event) : bool :=
  match e with
  | EvMalloc _ _ => true
  | _ => false
  end.

(** An epilogue is requested and the output is not single precision. *)
Definition wants_scratch (outputD inputBias outputPreGelu : Tensor) : bool :=
  (negb (dptr (data inputBias) =? 0) || negb (dptr (data outputPreGelu) =? 0))
  && negb (bool_decide (dtype (data outputD) = kFloat32)).

(** Sum of column [c] over the first [rows] rows of a row-major matrix
    with [cols] columns. *)
Definition column_sum (b : list R) (rows cols c : Z) : R :=
  foldr Rplus 0%R ((λ r, nth_R b (r * cols + c)) <$> seqZ 0 rows).

Definition column_sums (b : list R) (rows cols : Z) : list R :=
  column_sum b rows cols <$> seqZ 0 cols.

(** The expression of the specification for the activation. *)
(** The value of [gelu_backward] when every operation stays within the
    finite range. *)
Definition gelu_backward_exact (x dy : R) : R :=
  let kBeta := Single.lit 0.7978845608028654 in
  let kKappa := Single.lit 0.044715 in
  let x_sq := (x * x)%R in
  let x_cube := (x_sq * x)%R in
  let tanh_inner := tanh (kBeta * (x + kKappa * x_cube)) in
  let left := (0.5 * x)%R in
  let right := (1 + tanh_inner)%R in
  let left_derivative := (0.5 * right)%R in
  let tanh_derivative := (1 - tanh_inner * tanh_inner)%R in
  let inner_derivative := (kBeta * (1 + 3 * kKappa * x_sq))%R in
  let right_derivative := (left * tanh_derivative * inner_derivative)%R in
  (dy * (left_derivative + right_derivative))%R.

Definition gelu_formula (x : R) : R :=
  (x * 0.5 * (1 + tanh (Single.lit 0.7978845608
                        * (x + Single.lit 0.044715 * x ^ 3))))%R.

(** A tensor with no scale, amax or inverse scale. *)
Definition plain_tensor (p : Z) (sh : list Z) (t : DType) : Tensor :=
  {| data := {| dptr := p; shape := sh; dtype := t |};
     amax := {| dptr := 0; shape := []; dtype := kFloat32 |};
     scale := {| dptr := 0; shape := []; dtype := kFloat32 |};
     scale_inv := {| dptr := 0; shape := []; dtype := kFloat32 |} |}.

(** A tensor of a narrow format with its inverse scale at [sinv]. *)
Definition scaled_tensor (p : Z) (sh : list Z) (t : DType) (sinv : Z) : Tensor :=
  {| data := {| dptr := p; shape := sh; dtype := t |};
     amax := {| dptr := 0; shape := []; dtype := kFloat32 |};
     scale := {| dptr := 0; shape := []; dtype := kFloat32 |};
     scale_inv := {| dptr := sinv; shape := [1]; dtype := kFloat32 |} |}.

Definition null_tensor : Tensor := plain_tensor 0 [] kFloat32.

(** The reference platform when the heuristic search finds nothing. *)
Definition no_algorithm_platform : platform :=
  {| lib_status := λ _, true;
     returnedResults := 0;
     uninit := 0%R;
     cast := λ _ x, x;
     schedule := seqZ 0;
     gemm_result := gemm_reference;
     lt_matmul_result := λ _ mem, mem |}.


(** A narrow operand whose inverse-scale pointer is null. *)
Definition missing_inverse_scale (inputA inputB : Tensor) : Prop :=
  (is_fp8_dtype (dtype (data inputA)) = true ∧ dptr (scale_inv inputA) = 0)
  ∨ (is_fp8_dtype (dtype (data inputB)) = true ∧ dptr (scale_inv inputB) = 0).

(** The call throws, with [msg] unless an element format is not a
    floating format at all, and has recorded nothing and written
    nothing. *)
Definition fails_before_device_work {A : Type}
    (run : outcome A * gmap Z (list R) * list event) (mem : gmap Z (list R))
    (msg : string) : Prop :=
  (result_of run = Throw msg ∨ result_of run = Throw "Invalid type")
  ∧ trace_of run = [] ∧ memory_of run = mem.

(** What a fused-epilogue variant leaves behind: after a normal return
    nothing (hipBLASLt) or at most the handle (cuBLASLt); after the
    failure of the heuristic search nothing has been destroyed. *)
Definition lt_released (hipblaslt : bool) (r : outcome unit) (t : list event)
  : Prop :=
  (r = Ok tt ->
   if hipblaslt then live_objects t [] = []
   else ∀ o, o ∈ live_objects t [] -> o = Handle)
  ∧ (r = Throw "Unable to find any suitable algorithms" ->
     Forall (λ e, is_destroy e = false) t).

(** ** Vocabulary of the column reduction *)

(** Sum of a list of reals. *)
Definition Rsum (l : list R) : R := foldr Rplus 0%R l.
Arguments Rsum : simpl never.

(** Column and first row of block [b] in a grid of [BPC] blocks per
    column and [T] threads per block. *)
Definition block_col (BPC b : Z) : Z := b / BPC.
Definition block_row (T BPC b : Z) : Z := b mod BPC * T.

(** The value a thread would add if its row existed. *)
Definition guarded (inp : list R) (rows n c r : Z) : R :=
  if r <? rows then nth_R inp (r * n + c) else 0%R.

Definition contribution (inp : list R) (T BPC rows n b : Z) : R :=
  Rsum ((λ t, guarded inp rows n (block_col BPC b) (block_row T BPC b + t))
        <$> seqZ 0 T).

(** The output after the blocks [bs] have added their sums. *)
Definition accumulated (inp : list R) (T BPC rows n : Z) (bs : list Z)
    (out : list R) : list R :=
  imap (λ c old,
          (old + Rsum ((λ b, if block_col BPC b =? Z.of_nat c
                             then contribution inp T BPC rows n b
                             else 0%R) <$> bs))%R) out.




(** ** Vocabulary of the epilogues, of the errors and of the resources *)

(** The first [n] entries replaced by [f 0], ..., [f (n - 1)], the rest
    kept; nothing changes when [n <= 0]. *)
Definition elementwise (f : Z -> R) (n : Z) (out : list R) : list R :=
  (f <$> seqZ 0 n) ++ drop (Z.to_nat n) out.

(** The state of a grid-stride loop of the given stride and bound when
    the threads whose first index satisfies [S] have run: the buffer
    holds [g i] at every index [i] below the bound whose remainder by
    the stride satisfies [S], and what [out] held elsewhere. *)
Definition visited (stride bound : Z) (g : Z -> R) (out : list R)
    (S : Z -> Prop) (acc : option (list R)) : Prop :=
  ∃ o, acc = Some o ∧ length o = length out
       ∧ ∀ i : nat,
           (Z.of_nat i < bound ∧ S (Z.of_nat i mod stride) ->
            o !! i = Some (g (Z.of_nat i)))
           ∧ (¬ (Z.of_nat i < bound ∧ S (Z.of_nat i mod stride)) ->
              o !! i = out !! i).

(** The multiply that precedes an epilogue kernel of the rocBLAS
    variant: alpha is 1 and the result is single precision. *)
Definition emulated_call (ft : rocblas_datatype) (transa transb : operation)
    (m n k lda ldb ldd : Z) (accumulate : bool) : gemm_call :=
  {| g_ex3 := false; g_transa := transa; g_transb := transb;
     g_m := m; g_n := n; g_k := k; g_alpha := 1%R;
     g_A_type := ft; g_lda := lda; g_B_type := ft; g_ldb := ldb;
     g_beta := if accumulate then 1%R else 0%R;
     g_D_type := rocblas_datatype_f32_r; g_ldd := ldd |}.

(** The buffer the multiply has written when an epilogue follows: the
    output itself when it is single precision, a scratch buffer of
    [m * n] floats otherwise. *)
Definition multiply_buffer (P : platform) (ft : DType) (call : gemm_call)
    (a b d : list R) (m n : Z) : list R :=
  Rocblas.gemm_written P call a b
    (match ft with
     | kFloat32 => d
     | _ => replicate (Z.to_nat (m * n)) (uninit P)
     end).

(** The content of the output tensor when the epilogue kernel starts. *)
Definition output_before_epilogue (ft : DType) (W d : list R) : list R :=
  match ft with
  | kFloat32 => W
  | _ => d
  end.

(** The conversion of a single-precision bias gradient to the format of
    the bias tensor; none when that is single precision. *)
Definition bias_cast (P : platform) (bt : DType) (x : R) : R :=
  match bt with
  | kFloat32 => x
  | _ => cast P bt x
  end.

(** The epilogue the fused variants request, from the presence of a
    bias, of an auxiliary buffer, and the gradient flag. *)
Definition epilogue_of (bias gelu grad : bool) : epilogue_t :=
  match bias, gelu, grad with
  | true, true, true => EPILOGUE_DGELU_BGRAD
  | true, true, false => EPILOGUE_GELU_AUX_BIAS
  | true, false, true => EPILOGUE_BGRADB
  | true, false, false => EPILOGUE_BIAS
  | false, true, true => EPILOGUE_DGELU
  | false, true, false => EPILOGUE_GELU_AUX
  | false, false, _ => EPILOGUE_DEFAULT
  end.

(** The one fused multiply of a call of a fused variant; [C] is the
    pointer passed as the matrix C. *)
Definition fused_call (inputA inputB outputD inputBias outputPreGelu : Tensor)
    (m n k : Z) (transa transb : operation) (grad : bool)
    (workspace workspaceSize : Z) (accumulate : bool) (C : Z) : lt_call :=
  {| lt_transa := transa; lt_transb := transb;
     lt_m := m; lt_n := n; lt_k := k;
     lt_epilogue := epilogue_of (negb (dptr (data inputBias) =? 0))
                      (negb (dptr (data outputPreGelu) =? 0)) grad;
     lt_A := dptr (data inputA); lt_B := dptr (data inputB);
     lt_C := C; lt_D := dptr (data outputD);
     lt_bias := dptr (data inputBias); lt_aux := dptr (data outputPreGelu);
     lt_beta := if accumulate then 1%R else 0%R;
     lt_workspace := workspace; lt_workspaceSize := workspaceSize |}.

(** The element formats [get_cuda_dtype] has a case for. *)
Definition is_float_dtype (t : DType) : bool :=
  match t with
  | kFloat32 | kFloat16 | kBFloat16 | kFloat8E4M3 | kFloat8E5M2 => true
  | _ => false
  end.

(** The call throws [msg], has recorded nothing and written nothing. *)
Definition throws_at_once {A : Type}
    (run : outcome A * gmap Z (list R) * list event) (mem : gmap Z (list R))
    (msg : string) : Prop :=
  result_of run = Throw msg ∧ trace_of run = [] ∧ memory_of run = mem.

(** Events that create or release a resource. *)
Definition is_alloc (e : event) : bool :=
  match e with
  | EvMalloc _ _ | EvFree _ | EvCreate _ | EvDestroy _ => true
  | _ => false
  end.

(** Buffers obtained from [hipMalloc] and not yet freed, oldest first. *)
Fixpoint live_buffers (t : list event) (acc : list Z) : list Z :=
  match t with
  | [] => acc
  | EvMalloc p _ :: t' => live_buffers t' (acc ++ [p])
  | EvFree p :: t' => live_buffers t' (filter (λ q, q ≠ p) acc)
  | _ :: t' => live_buffers t' acc
  end.

(** A computation that allocates and releases nothing and leaves the
    set of device buffers as it found it. *)
Definition keeps_buffers {A : Type} (c : M A) : Prop :=
  ∀ mem, Forall (λ e, is_alloc e = false) (trace_of (c mem))
         ∧ dom (memory_of (c mem)) = dom mem.

(** ** Example calls *)

(** A forward bias-add on the rocBLAS variant, called with stream 7. *)
Definition stream_example_memory : gmap Z (list R) :=
  <[1 := [3%R]]> (<[2 := [2%R]]> (<[3 := [0%R]]> (<[4 := [1%R]]> ∅))).

Definition stream_example : outcome unit * gmap Z (list R) * list event :=
  nvte_cublas_gemm ROCBLAS reference_platform None
    (plain_tensor 1 [1; 1] kFloat32) (plain_tensor 2 [1; 1] kFloat32)
    (plain_tensor 3 [1; 1] kFloat32) (plain_tensor 4 [1] kFloat32)
    null_tensor true false false (plain_tensor 0 [0] kByte)
    false false 0 7 stream_example_memory.

(** An e4m3 operand A whose inverse-scale pointer is null, on the
    rocBLAS variant. *)
Definition no_inverse_scale_memory : gmap Z (list R) :=
  <[1 := [1%R]]> (<[2 := [1%R]]> (<[3 := [0%R]]> (<[5 := [1%R]]> ∅))).

Definition no_inverse_scale_example
  : outcome unit * gmap Z (list R) * list event :=
  nvte_cublas_gemm ROCBLAS reference_platform None
    (scaled_tensor 1 [1; 1] kFloat8E4M3 0) (scaled_tensor 2 [1; 1] kFloat8E4M3 5)
    (plain_tensor 3 [1; 1] kFloat32) null_tensor
    null_tensor true false false (plain_tensor 0 [0] kByte)
    false false 0 0 no_inverse_scale_memory.

(** An e4m3 output with [accumulate = true], on the hipBLASLt variant. *)
Definition narrow_accumulate_memory : gmap Z (list R) :=
  <[1 := [1%R]]> (<[2 := [1%R]]> (<[3 := [0%R]]> ∅)).

Definition narrow_accumulate_example
  : outcome unit * gmap Z (list R) * list event :=
  nvte_cublas_gemm HIPBLASLT reference_platform None
    (plain_tensor 1 [1; 1] kFloat16) (plain_tensor 2 [1; 1] kFloat16)
    (plain_tensor 3 [1; 1] kFloat8E4M3) null_tensor
    null_tensor true false false (plain_tensor 0 [0] kByte)
    true false 0 7 narrow_accumulate_memory.

(** A plain single-precision multiply on the cuBLASLt variant when the
    heuristic search finds no algorithm. *)
Definition no_algorithm_memory : gmap Z (list R) :=
  <[1 := [1%R]]> (<[2 := [1%R]]> (<[3 := [0%R]]> ∅)).

Definition no_algorithm_example : outcome unit * gmap Z (list R) * list event :=
  nvte_cublas_gemm CUBLASLT no_algorithm_platform None
    (plain_tensor 1 [1; 1] kFloat32) (plain_tensor 2 [1; 1] kFloat32)
    (plain_tensor 3 [1; 1] kFloat32) null_tensor
    null_tensor true false false (plain_tensor 0 [0] kByte)
    false false 0 7 no_algorithm_memory.

(** The same call on the hipBLASLt variant. *)
Definition no_algorithm_hipblaslt_example
  : outcome unit * gmap Z (list R) * list event :=
  nvte_cublas_gemm HIPBLASLT no_algorithm_platform None
    (plain_tensor 1 [1; 1] kFloat32) (plain_tensor 2 [1; 1] kFloat32)
    (plain_tensor 3 [1; 1] kFloat32) null_tensor
    null_tensor true false false (plain_tensor 0 [0] kByte)
    false false 0 7 no_algorithm_memory.

(** A bfloat16 multiply and a half-precision bias-gradient call on the
    rocBLAS variant. *)
Definition bf16_example : outcome unit * gmap Z (list R) * list event :=
  Rocblas.cublas_gemm reference_platform
    (plain_tensor 1 [1; 1] kBFloat16) (plain_tensor 2 [1; 1] kBFloat16)
    (plain_tensor 3 [1; 1] kBFloat16) null_tensor null_tensor
    1 1 1 1 1 1 OP_T OP_N false 0 0 false false 0 0 stream_example_memory.

Definition fp16_bias_gradient_example
  : outcome unit * gmap Z (list R) * list event :=
  Rocblas.cublas_gemm reference_platform
    (plain_tensor 1 [1; 1] kFloat16) (plain_tensor 2 [1; 1] kFloat16)
    (plain_tensor 3 [1; 1] kFloat16) (plain_tensor 4 [1] kFloat16) null_tensor
    1 1 1 1 1 1 OP_N OP_T true 0 0 false false 0 7 stream_example_memory.

Definition hipblaslt_example : outcome unit * gmap Z (list R) * list event :=
  HipblasLt.cublas_gemm reference_platform
    (plain_tensor 1 [1; 1] kFloat32) (plain_tensor 2 [1; 1] kFloat32)
    (plain_tensor 3 [1; 1] kFloat32) null_tensor null_tensor
    1 1 1 1 1 1 OP_T OP_N false 0 0 false false 0 7 no_algorithm_memory.



(** A matrix of 2^24 + 1 rows and one column, every entry 1. *)
Definition long_column : list R := replicate (Z.to_nat 16777217) 1%R.

Definition long_column_memory : gmap Z (list R) :=
  <[1 := long_column]> (<[2 := [0%R]]> ∅).

(** Operands of a 2 by 1 product on the rocBLAS variant: A is the 1 by 2
    matrix (3 1), B the 1 by 1 matrix (2); a bias and an auxiliary
    buffer of two entries each, and an inverse scale 2 at address 6. *)
Definition epilogue_example_memory : gmap Z (list R) :=
  <[1 := [3%R; 1%R]]> (<[2 := [2%R]]> (<[3 := [0%R; 0%R]]>
    (<[4 := [1%R; 4%R]]> (<[5 := [5%R; 6%R]]> (<[6 := [2%R]]> ∅))))).
Definition example_A : Tensor := plain_tensor 1 [2; 1] kFloat32.
Definition example_B : Tensor := plain_tensor 2 [1; 1] kFloat32.
Definition example_D : Tensor := plain_tensor 3 [1; 2] kFloat32.
Definition example_bias : Tensor := plain_tensor 4 [2] kFloat32.
Definition example_aux : Tensor := plain_tensor 5 [1; 2] kFloat32.

(** The same operands in a narrow format and in half precision. *)
Definition example_A_fp8 : Tensor := scaled_tensor 1 [2; 1] kFloat8E4M3 6.
Definition example_B_fp8 : Tensor := scaled_tensor 2 [1; 1] kFloat8E4M3 6.
Definition example_A_fp16 : Tensor := plain_tensor 1 [2; 1] kFloat16.
Definition example_B_fp16 : Tensor := plain_tensor 2 [1; 1] kFloat16.
Definition example_D_fp16 : Tensor := plain_tensor 3 [1; 2] kFloat16.

(** * Proofs *)

(** ** Rules of the host monad *)

Section wp_rules.

Context {A : Type}.
Implicit Types (mem : gmap Z (list R)).
Implicit Types (Q : outcome A -> gmap Z (list R) -> list event -> Prop).

Lemma wp_bind {B : Type} (c : M B) (f : B -> M A) mem Q :
  wp c mem (λ r mem1 t1,
    match r with
    | Ok a => wp (f a) mem1 (λ r' mem2 t2, Q r' mem2 (t1 ++ t2))
    | Throw msg => Q (Throw msg) mem1 t1
    | Fault => Q Fault mem1 t1
    end) ->
  wp (c ≫= f) mem Q.
Proof.
  unfold wp, result_of, memory_of, trace_of, mbind, M_bind, bind_M.
  destruct (c mem) as [[[a|msg|] mem1] t1]; simpl; auto.
  destruct (f a mem1) as [[r mem2] t2]; simpl; auto.
Qed.

Lemma wp_mono (c : M A) mem Q Q' :
  wp c mem Q -> (∀ r mem' t, Q r mem' t -> Q' r mem' t) -> wp c mem Q'.
Proof. unfold wp. auto. Qed.

Lemma wp_ret (a : A) mem Q : Q (Ok a) mem [] -> wp (mret a) mem Q.
Proof. auto. Qed.

Lemma wp_throw msg mem Q : Q (Throw msg) mem [] -> wp (throw msg) mem Q.
Proof. auto. Qed.

Lemma wp_error msg mem Q : Q (Throw msg) mem [] -> wp (NVTE_ERROR msg) mem Q.
Proof. auto. Qed.

Lemma wp_fault mem Q : Q Fault mem [] -> wp fault mem Q.
Proof. auto. Qed.

End wp_rules.

Section wp_primitives.

Implicit Types (mem : gmap Z (list R)).

Lemma wp_emit e mem Q : Q (Ok tt) mem [e] -> wp (emit e) mem Q.
Proof. auto. Qed.

Lemma wp_get_mem mem Q : Q (Ok mem) mem [] -> wp get_mem mem Q.
Proof. auto. Qed.

Lemma wp_put_mem mem' mem Q : Q (Ok tt) mem' [] -> wp (put_mem mem') mem Q.
Proof. auto. Qed.

Lemma wp_check b msg mem Q :
  (b = true -> Q (Ok tt) mem []) ->
  (b = false -> Q (Throw msg) mem []) ->
  wp (NVTE_CHECK b msg) mem Q.
Proof. destruct b; unfold wp; simpl; auto. Qed.

Lemma wp_check_cublas P what s mem Q :
  (lib_status P s = true -> Q (Ok tt) mem []) ->
  (lib_status P s = false -> Q (Throw (what ++ " Error")%string) mem []) ->
  wp (NVTE_CHECK_CUBLAS P what s) mem Q.
Proof.
  unfold NVTE_CHECK_CUBLAS. destruct (lib_status P s); unfold wp; simpl; auto.
Qed.

Lemma wp_check_cuda P s mem Q :
  (lib_status P s = true -> Q (Ok tt) mem []) ->
  (lib_status P s = false -> Q (Throw "CUDA Error") mem []) ->
  wp (NVTE_CHECK_CUDA P s) mem Q.
Proof.
  unfold NVTE_CHECK_CUDA. destruct (lib_status P s); unfold wp; simpl; auto.
Qed.

Lemma wp_load p mem Q :
  (∀ b, mem !! p = Some b -> Q (Ok b) mem []) ->
  (mem !! p = None -> Q Fault mem []) ->
  wp (load p) mem Q.
Proof.
  intros H1 H2. unfold wp, load, result_of, memory_of, trace_of.
  destruct (mem !! p) eqn:E; simpl; [by apply H1 | by apply H2].
Qed.

Lemma wp_store p b mem Q : Q (Ok tt) (<[p := b]> mem) [] -> wp (store p b) mem Q.
Proof. auto. Qed.

Lemma wp_store_result p r mem Q :
  (∀ b, r = Some b -> Q (Ok tt) (<[p := b]> mem) []) ->
  (r = None -> Q Fault mem []) ->
  wp (store_result p r) mem Q.
Proof.
  intros H1 H2. destruct r; unfold wp; simpl; [apply H1 | apply H2]; reflexivity.
Qed.

Lemma wp_memcpy P src mem Q :
  Q (Ok (match mem !! src with Some (x :: _) => x | _ => uninit P end))
    mem [EvMemcpyD2H src] ->
  wp (hipMemcpy_to_host P src) mem Q.
Proof. auto. Qed.

Lemma wp_shape_at t i mem Q :
  (∀ d, shape t !! i = Some d -> Q (Ok d) mem []) ->
  (shape t !! i = None -> Q Fault mem []) ->
  wp (shape_at t i) mem Q.
Proof.
  intros H1 H2. unfold shape_at.
  destruct (shape t !! i) eqn:E; unfold wp; simpl; [by apply H1 | by apply H2].
Qed.

Lemma wp_rocblas_dtype t mem Q :
  (∀ v, Rocblas.get_transformer_engine_dtype v = t -> Q (Ok v) mem []) ->
  Q (Throw "Invalid type") mem [] ->
  wp (Rocblas.get_cuda_dtype t) mem Q.
Proof. intros H1 H2. destruct t; unfold wp; simpl; auto; by apply H1. Qed.

Lemma wp_cuda_dtype t mem Q :
  (∀ v, Q (Ok v) mem []) ->
  Q (Throw "Invalid type") mem [] ->
  wp (CublasLt.get_cuda_dtype t) mem Q.
Proof. intros H1 H2. destruct t; unfold wp; simpl; first [apply H2 | apply H1]. Qed.

Lemma wp_hipblaslt_dtype t mem Q :
  (∀ v, Q (Ok v) mem []) ->
  Q (Throw "Invalid type") mem [] ->
  wp (HipblasLt.get_cuda_dtype t) mem Q.
Proof. intros H1 H2. destruct t; unfold wp; simpl; first [apply H2 | apply H1]. Qed.

End wp_primitives.

Ltac wp_step :=
  lazymatch goal with
  | |- wp (mbind _ _) _ _ => apply wp_bind
  | |- wp (mret _) _ _ => apply wp_ret
  | |- wp (throw _) _ _ => apply wp_throw
  | |- wp (NVTE_ERROR _) _ _ => apply wp_error
  | |- wp fault _ _ => apply wp_fault
  | |- wp (emit _) _ _ => apply wp_emit
  | |- wp get_mem _ _ => apply wp_get_mem
  | |- wp (put_mem _) _ _ => apply wp_put_mem
  | |- wp (store _ _) _ _ => apply wp_store
  | |- wp (NVTE_CHECK _ _) _ _ => apply wp_check; intros ?
  | |- wp (NVTE_CHECK_CUBLAS _ _ _) _ _ => apply wp_check_cublas; intros ?
  | |- wp (NVTE_CHECK_CUDA _ _) _ _ => apply wp_check_cuda; intros ?
  | |- wp (hipMemcpy_to_host _ _) _ _ => apply wp_memcpy
  | |- wp (shape_at _ _) _ _ => apply wp_shape_at; intros ? ?
  | |- wp (Rocblas.get_cuda_dtype _) _ _ => apply wp_rocblas_dtype; [intros ? ?|]
  | |- wp (CublasLt.get_cuda_dtype _) _ _ => apply wp_cuda_dtype; [intros ?|]
  | |- wp (HipblasLt.get_cuda_dtype _) _ _ => apply wp_hipblaslt_dtype; [intros ?|]
  | |- wp (if ?b then _ else _) _ _ => destruct b eqn:?
  | |- wp (let '(_, _) := ?x in _) _ _ => destruct x
  end.

(** ** Rules for properties of every recorded event *)

Section trace_all_rules.

Context (φ : event -> Prop).

Lemma trace_all_bind {A B : Type} (c : M A) (f : A -> M B) :
  trace_all φ c -> (∀ a, trace_all φ (f a)) -> trace_all φ (c ≫= f).
Proof.
  intros Hc Hf mem. specialize (Hc mem).
  unfold trace_of, mbind, M_bind, bind_M in *.
  destruct (c mem) as [[[a|msg|] mem1] t1]; simpl in *; auto.
  specialize (Hf a mem1). unfold trace_of in Hf.
  destruct (f a mem1) as [[r mem2] t2]; simpl in *.
  apply Forall_app; auto.
Qed.

Lemma trace_all_quiet {A : Type} (c : M A) :
  (∀ mem, trace_of (c mem) = []) -> trace_all φ c.
Proof. intros H mem. rewrite H. constructor. Qed.

Lemma trace_all_ret {A : Type} (a : A) : trace_all φ (mret a).
Proof. by apply trace_all_quiet. Qed.

Lemma trace_all_throw {A : Type} msg : trace_all φ (@throw A msg).
Proof. by apply trace_all_quiet. Qed.

Lemma trace_all_error {A : Type} msg : trace_all φ (@NVTE_ERROR A msg).
Proof. by apply trace_all_quiet. Qed.

Lemma trace_all_fault {A : Type} : trace_all φ (@fault A).
Proof. by apply trace_all_quiet. Qed.

Lemma trace_all_get_mem : trace_all φ get_mem.
Proof. by apply trace_all_quiet. Qed.

Lemma trace_all_put_mem m : trace_all φ (put_mem m).
Proof. by apply trace_all_quiet. Qed.

Lemma trace_all_load p : trace_all φ (load p).
Proof.
  apply trace_all_quiet. intros mem. unfold load, trace_of.
  by destruct (mem !! p).
Qed.

Lemma trace_all_store p b : trace_all φ (store p b).
Proof. by apply trace_all_quiet. Qed.

Lemma trace_all_store_result p r : trace_all φ (store_result p r).
Proof. destruct r; by apply trace_all_quiet. Qed.

Lemma trace_all_check b msg : trace_all φ (NVTE_CHECK b msg).
Proof. destruct b; by apply trace_all_quiet. Qed.

Lemma trace_all_check_cuda P s : trace_all φ (NVTE_CHECK_CUDA P s).
Proof.
  unfold NVTE_CHECK_CUDA. destruct (lib_status P s); by apply trace_all_quiet.
Qed.

Lemma trace_all_check_cublas P w s : trace_all φ (NVTE_CHECK_CUBLAS P w s).
Proof.
  unfold NVTE_CHECK_CUBLAS. destruct (lib_status P s); by apply trace_all_quiet.
Qed.

Lemma trace_all_shape_at t i : trace_all φ (shape_at t i).
Proof. unfold shape_at. destruct (shape t !! i); by apply trace_all_quiet. Qed.

Lemma trace_all_emit e : φ e -> trace_all φ (emit e).
Proof. intros H mem. by repeat constructor. Qed.

Lemma trace_all_type_switch {A : Type} t (body : DType -> M A) :
  (∀ T, trace_all φ (body T)) ->
  trace_all φ (Rocblas.TRANSFORMER_ENGINE_TYPE_SWITCH_ROCM_SIM t body).
Proof. intros H. destruct t; simpl; auto using trace_all_error. Qed.

Lemma wp_trace_all {A : Type} (c : M A) mem
    (Q : outcome A -> gmap Z (list R) -> list event -> Prop) :
  trace_all φ c -> (∀ r mem' t, Forall φ t -> Q r mem' t) -> wp c mem Q.
Proof. intros Hc HQ. apply HQ, Hc. Qed.

End trace_all_rules.

Ltac trace_all_step :=
  lazymatch goal with
  | |- trace_all _ (mbind _ _) => apply trace_all_bind; [|intros ?]
  | |- trace_all _ (mret _) => apply trace_all_ret
  | |- trace_all _ (throw _) => apply trace_all_throw
  | |- trace_all _ (NVTE_ERROR _) => apply trace_all_error
  | |- trace_all _ fault => apply trace_all_fault
  | |- trace_all _ get_mem => apply trace_all_get_mem
  | |- trace_all _ (put_mem _) => apply trace_all_put_mem
  | |- trace_all _ (load _) => apply trace_all_load
  | |- trace_all _ (store _ _) => apply trace_all_store
  | |- trace_all _ (store_result _ _) => apply trace_all_store_result
  | |- trace_all _ (NVTE_CHECK _ _) => apply trace_all_check
  | |- trace_all _ (NVTE_CHECK_CUDA _ _) => apply trace_all_check_cuda
  | |- trace_all _ (NVTE_CHECK_CUBLAS _ _ _) => apply trace_all_check_cublas
  | |- trace_all _ (shape_at _ _) => apply trace_all_shape_at
  | |- trace_all _ (emit _) => apply trace_all_emit
  | |- trace_all _ (Rocblas.TRANSFORMER_ENGINE_TYPE_SWITCH_ROCM_SIM _ _) =>
      apply trace_all_type_switch; intros ?
  | |- trace_all _ (if ?b then _ else _) => destruct b
  | |- trace_all _ (match ?x with _ => _ end) => destruct x
  end.

Ltac unfold_host :=
  unfold Rocblas.rocblas_gemm, Rocblas.get_cuda_dtype,
    hipMalloc, hipFree, hipDeviceSynchronize, hipMemcpy_to_host,
    gelu_forward_kernelLauncher, gelu_backward_kernelLauncher,
    add_bias_kernelLauncher, add_bias_gelu_kernelLauncher,
    identity_kernelLauncher, bias_gradient_kernelLauncher,
    lt_create, lt_destroy, lt_set_attribute, lt_matmul;
  cbv zeta.

Lemma wp_hipMalloc P elems mem Q :
  (lib_status P S_hipMalloc = true ->
   let p := fresh ({[0]} ∪ dom mem) in
   Q (Ok p) (<[p := replicate (Z.to_nat elems) (uninit P)]> mem)
     [EvMalloc p elems]) ->
  (lib_status P S_hipMalloc = false -> Q (Throw "CUDA Error") mem []) ->
  wp (hipMalloc P elems) mem Q.
Proof.
  intros H1 H2. unfold hipMalloc. repeat wp_step; simpl; auto.
Qed.

Lemma wp_rocblas_gemm P call A B D_temp mem Q :
  (lib_status P (if g_ex3 call then S_rocblas_gemm_ex3 else S_rocblas_gemm_ex)
   = false -> Q (Throw "ROCBLAS Error") mem []) ->
  Q Fault mem [] ->
  (∀ a b c, mem !! A = Some a -> mem !! B = Some b -> mem !! D_temp = Some c ->
     Q (Ok tt) (<[D_temp := Rocblas.gemm_written P call a b c]> mem)
       [EvGemm Rocblas.handle_stream D_temp]) ->
  wp (Rocblas.rocblas_gemm P call A B D_temp) mem Q.
Proof.
  intros H1 H2 H3. unfold Rocblas.rocblas_gemm.
  apply wp_bind, wp_check_cublas; intros Hs; [|by apply H1].
  apply wp_bind, wp_load; [intros a Ha|intros _; apply H2].
  apply wp_bind, wp_load; [intros b Hb|intros _; apply H2].
  apply wp_bind, wp_load; [intros c Hc|intros _; apply H2].
  apply wp_bind, wp_emit, wp_store. simpl. by eapply H3.
Qed.

(** A pointer handed out by [hipMalloc] is neither null nor a live
    allocation. *)
Lemma fresh_pointer (mem : gmap Z (list R)) p :
  p = 0 ∨ is_Some (mem !! p) -> fresh ({[0]} ∪ dom mem) ≠ p.
Proof.
  intros Hp Heq.
  pose proof (is_fresh ({[0]} ∪ dom mem)) as Hf. rewrite Heq in Hf.
  apply Hf. destruct Hp as [->|Hp]; [set_solver|].
  apply elem_of_union_r, elem_of_dom, Hp.
Qed.

(** ** Type combinations of the rocBLAS variant *)

(** The condition of the check is the list of the specification. *)
Lemma enabled_types_accepted va vb vd :
  Rocblas.enabled_types va vb vd
  = accepted_triple (Rocblas.get_transformer_engine_dtype va)
      (Rocblas.get_transformer_engine_dtype vb)
      (Rocblas.get_transformer_engine_dtype vd).
Proof. by destruct va, vb, vd. Qed.

(** C10.  On the rocBLAS variant a call whose (A, B, D) element formats
    are not one of (fp16, fp16, fp16), (fp32, fp32, fp32), or (e4m3 or
    e5m2, e4m3 or e5m2, fp32 or fp16) with not both inputs e5m2, throws,
    records no multiply and leaves the device memory as it was. *)
Theorem rocblas_type_combinations P inputA inputB outputD inputBias outputPreGelu
    m n k lda ldb ldd transa transb grad workspace workspaceSize
    accumulate use_split_accumulator math_sm_count stream mem :
  accepted_triple (dtype (data inputA)) (dtype (data inputB))
    (dtype (data outputD)) = false ->
  let run := Rocblas.cublas_gemm P inputA inputB outputD inputBias outputPreGelu
               m n k lda ldb ldd transa transb grad workspace workspaceSize
               accumulate use_split_accumulator math_sm_count stream mem in
  (∃ msg, result_of run = Throw msg)
  ∧ Forall (λ e, is_gemm e = false) (trace_of run)
  ∧ memory_of run = mem.
Proof.
  intros Hacc run. subst run.
  match goal with |- context [result_of (?c mem)] =>
    change (wp c mem (λ r mem' t,
      (∃ msg, r = Throw msg) ∧ Forall (λ e, is_gemm e = false) t ∧ mem' = mem))
  end.
  unfold Rocblas.cublas_gemm.
  repeat wp_step; simpl;
    try (split; [eauto | split; [repeat constructor | done]]).
  all: exfalso.
  all: repeat match goal with
       | H : Rocblas.get_transformer_engine_dtype _ = _ |- _ =>
           rewrite <- H in Hacc; clear H
       end.
  all: rewrite <- enabled_types_accepted in Hacc; congruence.
Qed.

Lemma rocblas_type_combinations_witness :
  accepted_triple kBFloat16 kBFloat16 kBFloat16 = false
  ∧ (∃ msg, result_of bf16_example = Throw msg)
  ∧ Forall (λ e, is_gemm e = false) (trace_of bf16_example)
  ∧ memory_of bf16_example = stream_example_memory.
Proof.
  split; [reflexivity|]. unfold bf16_example.
  apply (rocblas_type_combinations reference_platform
           (plain_tensor 1 [1; 1] kBFloat16) (plain_tensor 2 [1; 1] kBFloat16)
           (plain_tensor 3 [1; 1] kBFloat16)).
  reflexivity.
Defined.

(** ** The scratch buffer of the rocBLAS variant *)

Ltac no_gemm := unfold_host; repeat trace_all_step; reflexivity.

Ltac no_gemm_recorded :=
  intros; simpl in *;
  match goal with
  | H : EvGemm _ _ ∈ _ |- _ =>
      repeat (apply elem_of_cons in H as [H|H]; [done|]);
      by apply elem_of_nil in H
  end.

Lemma no_gemm_elem_of (t : list event) s dst :
  Forall (λ e, is_gemm e = false) t -> EvGemm s dst ∈ t -> False.
Proof. intros Ht Hin. rewrite Forall_forall in Ht. by apply Ht in Hin. Qed.

(** Once the type check has passed, the condition of the allocation is
    "an epilogue is requested and D is not single precision". *)
Lemma needs_temp_wants_scratch va vb vd outputD inputBias outputPreGelu :
  Rocblas.enabled_types va vb vd = true ->
  Rocblas.get_transformer_engine_dtype vd = dtype (data outputD) ->
  (negb (dptr (data inputBias) =? 0) || negb (dptr (data outputPreGelu) =? 0))
  && bool_decide (vd = rocblas_datatype_f16_r ∨ vd = rocblas_datatype_f8_r
                  ∨ vd = rocblas_datatype_bf8_r)
  = wants_scratch outputD inputBias outputPreGelu.
Proof.
  intros He Hd. unfold wants_scratch. rewrite <- Hd. f_equal.
  by destruct va, vb, vd.
Qed.

(** The multiply is recorded once: a trace that holds it between two
    parts without a multiply splits at it in one way only. *)
Lemma gemm_split_unique (l1 t pre post : list event) s0 d0 s dst :
  Forall (λ e, is_gemm e = false) l1 ->
  Forall (λ e, is_gemm e = false) t ->
  l1 ++ EvGemm s0 d0 :: t = pre ++ EvGemm s dst :: post ->
  pre = l1.
Proof.
  intros Hl1 Ht. revert pre.
  induction Hl1 as [|e l1 He Hl1 IH]; intros pre Heq.
  - destruct pre as [|e' pre]; [done|]. simpl in Heq.
    injection Heq as <- Heq. exfalso.
    assert (Hin : EvGemm s dst ∈ t).
    { rewrite Heq. apply elem_of_app. right. by left. }
    rewrite Forall_forall in Ht. by apply Ht in Hin.
  - destruct pre as [|e' pre]; simpl in Heq.
    + injection Heq as -> _. done.
    + injection Heq as <- Heq. f_equal. by apply IH.
Qed.

(** C2.  On the rocBLAS variant, whenever the multiply is issued on an
    allocated output tensor: if an epilogue is requested (bias or
    auxiliary pointer non-null) and the output format is not single
    precision, the multiply writes a buffer obtained from [hipMalloc]
    in this call, of m*n floats and distinct from the output; in every
    other case it writes the output tensor itself and nothing has been
    allocated when it is issued. *)
Theorem rocblas_scratch_iff P inputA inputB outputD inputBias outputPreGelu
    m n k lda ldb ldd transa transb grad workspace workspaceSize
    accumulate use_split_accumulator math_sm_count stream mem s dst :
  let run := Rocblas.cublas_gemm P inputA inputB outputD inputBias outputPreGelu
               m n k lda ldb ldd transa transb grad workspace workspaceSize
               accumulate use_split_accumulator math_sm_count stream mem in
  is_Some (mem !! dptr (data outputD)) ->
  EvGemm s dst ∈ trace_of run ->
  if wants_scratch outputD inputBias outputPreGelu
  then dst ≠ dptr (data outputD) ∧ EvMalloc dst (float_elems m n) ∈ trace_of run
  else dst = dptr (data outputD)
       ∧ ∀ pre post, trace_of run = pre ++ EvGemm s dst :: post ->
           Forall (λ e, is_malloc e = false) pre.
Proof.
  intros run HD. subst run. revert s dst.
  match goal with |- ∀ s dst, _ ∈ trace_of (?c mem) -> _ =>
    change (wp c mem (λ _ _ t, ∀ s dst, EvGemm s dst ∈ t ->
      if wants_scratch outputD inputBias outputPreGelu
      then dst ≠ dptr (data outputD) ∧ EvMalloc dst (float_elems m n) ∈ t
      else dst = dptr (data outputD)
           ∧ ∀ pre post, t = pre ++ EvGemm s dst :: post ->
               Forall (λ e, is_malloc e = false) pre))
  end.
  unfold Rocblas.cublas_gemm.
  repeat wp_step; try no_gemm_recorded.
  all: match goal with
       | He : Rocblas.enabled_types _ _ ?vd = true,
         Hd : Rocblas.get_transformer_engine_dtype ?vd = dtype (data _),
         Hn : _ && bool_decide _ = _ |- _ =>
           rewrite (needs_temp_wants_scratch _ _ _ _ _ _ He Hd) in Hn; rewrite Hn
       end.
  all: try (apply wp_hipMalloc; [intros ? p|no_gemm_recorded]).
  all: repeat wp_step.
  all: apply wp_rocblas_gemm;
    [no_gemm_recorded|no_gemm_recorded|intros a b c Ha Hb Hc].
  all: apply (wp_trace_all (λ e, is_gemm e = false)); [no_gemm|].
  all: intros r mem' t Ht s dst Hin; simpl in Hin.
  all: repeat (apply elem_of_cons in Hin as [Hin|Hin];
               [try done; injection Hin as -> ->|]).
  all: try by (exfalso; eapply no_gemm_elem_of).
  all: try done.
  all: try (split; [reflexivity|]; intros pre post Heq; simpl in Heq;
            match type of Heq with
            | ?e1 :: ?e2 :: ?e3 :: EvGemm _ _ :: _ = _ =>
                pose proof (gemm_split_unique [e1; e2; e3] _ _ _ _ _ _ _
                              ltac:(by repeat constructor) Ht Heq) as ->
            | ?e1 :: EvGemm _ _ :: _ = _ =>
                pose proof (gemm_split_unique [e1] _ _ _ _ _ _ _
                              ltac:(by repeat constructor) Ht Heq) as ->
            end;
            by repeat constructor).
  all: split; [by apply fresh_pointer; right|].
  all: simpl; rewrite !elem_of_cons; repeat (first [left; reflexivity | right]).
Qed.

Lemma fp16_bias_gradient_trace :
  trace_of fp16_bias_gradient_example
  = [EvCreate Handle; EvMalloc 5 1; EvGemm 0 5; EvDestroy Handle;
     EvMalloc 6 1; EvMemset 6; EvLaunch K_bias_gradient 0 6;
     EvLaunch K_identity 0 4; EvSync; EvFree 6; EvLaunch K_identity 0 3;
     EvFree 5].
Proof. vm_compute. reflexivity. Qed.

Lemma rocblas_scratch_iff_witness :
  is_Some (stream_example_memory !! 3)
  ∧ EvGemm 0 5 ∈ trace_of fp16_bias_gradient_example
  ∧ 5 ≠ 3
  ∧ EvMalloc 5 (float_elems 1 1) ∈ trace_of fp16_bias_gradient_example.
Proof.
  assert (H1 : is_Some (stream_example_memory !! 3)) by (by eexists).
  assert (H2 : EvGemm 0 5 ∈ trace_of fp16_bias_gradient_example).
  { rewrite fp16_bias_gradient_trace, !elem_of_cons. right; right; by left. }
  split; [exact H1|]. split; [exact H2|].
  exact (rocblas_scratch_iff reference_platform
           (plain_tensor 1 [1; 1] kFloat16) (plain_tensor 2 [1; 1] kFloat16)
           (plain_tensor 3 [1; 1] kFloat16) (plain_tensor 4 [1] kFloat16)
           null_tensor 1 1 1 1 1 1 OP_N OP_T true 0 0 false false 0 7
           stream_example_memory 0 5 H1 H2).
Defined.

(** ** Streams *)

Lemma rocblas_default_stream_only P inputA inputB outputD inputBias outputPreGelu
    m n k lda ldb ldd transa transb grad workspace workspaceSize
    accumulate use_split_accumulator math_sm_count stream :
  trace_all on_default_stream
    (Rocblas.cublas_gemm P inputA inputB outputD inputBias outputPreGelu
       m n k lda ldb ldd transa transb grad workspace workspaceSize
       accumulate use_split_accumulator math_sm_count stream).
Proof.
  unfold Rocblas.cublas_gemm. unfold_host.
  repeat trace_all_step.
  all: intros s Hs; simpl in Hs; by simplify_eq.
Qed.

(** C7.  The code at the failing input: on the rocBLAS variant every
    piece of device work of every call is enqueued on stream 0, whatever
    stream the caller supplies; the forward bias-add called with stream
    7 returns normally having enqueued its multiply and its kernel on
    stream 0. *)
Theorem rocblas_ignores_caller_stream :
  (∀ P inputA inputB outputD inputBias outputPreGelu
     m n k lda ldb ldd transa transb grad workspace workspaceSize
     accumulate use_split_accumulator math_sm_count stream mem e s,
     e ∈ trace_of (Rocblas.cublas_gemm P inputA inputB outputD inputBias
                     outputPreGelu m n k lda ldb ldd transa transb grad
                     workspace workspaceSize accumulate use_split_accumulator
                     math_sm_count stream mem) ->
     event_stream e = Some s -> s = 0)
  ∧ result_of stream_example = Ok tt
  ∧ trace_of stream_example
    = [EvCreate Handle; EvGemm 0 3; EvDestroy Handle; EvLaunch K_add_bias 0 3].
Proof.
  split; [|split; vm_compute; reflexivity].
  intros P inputA inputB outputD inputBias outputPreGelu m n k lda ldb ldd
    transa transb grad workspace workspaceSize accumulate use_split_accumulator
    math_sm_count stream mem e s He Hs.
  pose proof (rocblas_default_stream_only P inputA inputB outputD inputBias
    outputPreGelu m n k lda ldb ldd transa transb grad workspace workspaceSize
    accumulate use_split_accumulator math_sm_count stream mem) as Hall.
  rewrite Forall_forall in Hall. by apply (Hall e He s).
Qed.

(** ** Missing inverse scale *)

Ltac fp8_cases :=
  repeat match goal with
  | H : _ ∨ _ |- _ => destruct H
  | H : _ ∧ _ |- _ => destruct H
  | H : negb ?a || negb ?b = true, Ha : ?a = true, Hb : ?z = 0 |- _ =>
      rewrite Ha, Hb in H; discriminate H
  end.

(** The two variants with a fused epilogue check the pointers first. *)
Lemma cublaslt_requires_inverse_scale P inputA inputB outputD inputBias
    outputPreGelu m n k lda ldb ldd transa transb grad workspace workspaceSize
    accumulate use_split_accumulator math_sm_count stream mem :
  missing_inverse_scale inputA inputB ->
  fails_before_device_work
    (CublasLt.cublas_gemm P inputA inputB outputD inputBias outputPreGelu
       m n k lda ldb ldd transa transb grad workspace workspaceSize
       accumulate use_split_accumulator math_sm_count stream mem)
    mem "FP8 input to GEMM requires inverse of scale!".
Proof.
  intros Hm.
  match goal with |- fails_before_device_work (?c mem) _ ?msg =>
    change (wp c mem (λ r mem' t,
      (r = Throw msg ∨ r = Throw "Invalid type") ∧ t = [] ∧ mem' = mem))
  end.
  unfold CublasLt.cublas_gemm.
  do 12 (try wp_step); simpl; auto.
  all: exfalso; unfold missing_inverse_scale in Hm; fp8_cases.
Qed.

Lemma hipblaslt_requires_inverse_scale P inputA inputB outputD inputBias
    outputPreGelu m n k lda ldb ldd transa transb grad workspace workspaceSize
    accumulate use_split_accumulator math_sm_count stream mem :
  missing_inverse_scale inputA inputB ->
  fails_before_device_work
    (HipblasLt.cublas_gemm P inputA inputB outputD inputBias outputPreGelu
       m n k lda ldb ldd transa transb grad workspace workspaceSize
       accumulate use_split_accumulator math_sm_count stream mem)
    mem "FP8 input to GEMM requires inverse of scale!".
Proof.
  intros Hm.
  match goal with |- fails_before_device_work (?c mem) _ ?msg =>
    change (wp c mem (λ r mem' t,
      (r = Throw msg ∨ r = Throw "Invalid type") ∧ t = [] ∧ mem' = mem))
  end.
  unfold HipblasLt.cublas_gemm.
  do 12 (try wp_step); simpl; auto.
  all: exfalso; unfold missing_inverse_scale in Hm; fp8_cases.
Qed.

(** C3.  The code at the failing input: on the rocBLAS variant a call
    whose operand A is e4m3 with a null inverse-scale pointer returns
    normally; it copies from the null pointer, creates the handle and
    enqueues the multiply. *)
Theorem rocblas_multiplies_without_inverse_scale :
  result_of no_inverse_scale_example = Ok tt
  ∧ trace_of no_inverse_scale_example
    = [EvMemcpyD2H 0; EvMemcpyD2H 5; EvCreate Handle; EvGemm 0 3;
       EvDestroy Handle].
Proof. split; vm_compute; reflexivity. Qed.

(** ** Accumulation into a narrow output *)

(** The cuBLASLt and the rocBLAS variants refuse the combination. *)
Lemma cublaslt_rejects_narrow_accumulate P inputA inputB outputD inputBias
    outputPreGelu m n k lda ldb ldd transa transb grad workspace workspaceSize
    use_split_accumulator math_sm_count stream mem :
  is_fp8_dtype (dtype (data outputD)) = true ->
  let run := CublasLt.cublas_gemm P inputA inputB outputD inputBias outputPreGelu
               m n k lda ldb ldd transa transb grad workspace workspaceSize
               true use_split_accumulator math_sm_count stream mem in
  (∃ msg, result_of run = Throw msg) ∧ trace_of run = [] ∧ memory_of run = mem.
Proof.
  intros HD run. subst run.
  match goal with |- context [result_of (?c mem)] =>
    change (wp c mem (λ r mem' t, (∃ msg, r = Throw msg) ∧ t = [] ∧ mem' = mem))
  end.
  unfold CublasLt.cublas_gemm. rewrite HD.
  repeat (wp_step; try done); simpl; eauto.
Qed.

Lemma rocblas_rejects_narrow_accumulate P inputA inputB outputD inputBias
    outputPreGelu m n k lda ldb ldd transa transb grad workspace workspaceSize
    use_split_accumulator math_sm_count stream mem :
  is_fp8_dtype (dtype (data outputD)) = true ->
  let run := Rocblas.cublas_gemm P inputA inputB outputD inputBias outputPreGelu
               m n k lda ldb ldd transa transb grad workspace workspaceSize
               true use_split_accumulator math_sm_count stream mem in
  (∃ msg, result_of run = Throw msg) ∧ trace_of run = [] ∧ memory_of run = mem.
Proof.
  intros HD run. subst run.
  match goal with |- context [result_of (?c mem)] =>
    change (wp c mem (λ r mem' t, (∃ msg, r = Throw msg) ∧ t = [] ∧ mem' = mem))
  end.
  unfold Rocblas.cublas_gemm. rewrite HD.
  repeat (wp_step; try done); simpl; eauto.
Qed.

(** C4.  The code at the failing input: on the hipBLASLt variant a call
    with an e4m3 output and [accumulate = true] returns normally, having
    enqueued the multiply on the caller's stream. *)
Theorem hipblaslt_accumulates_into_narrow_output :
  result_of narrow_accumulate_example = Ok tt
  ∧ EvGemm 7 3 ∈ trace_of narrow_accumulate_example.
Proof.
  split; [vm_compute; reflexivity|].
  assert (trace_of narrow_accumulate_example
          = [EvCreate Handle; EvCreate Adesc; EvCreate Bdesc; EvCreate Ddesc;
             EvCreate OperationDesc; EvSetAttr DESC_TRANSA; EvSetAttr DESC_TRANSB;
             EvSetAttr DESC_EPILOGUE; EvCreate Preference; EvHeuristic;
             EvGemm 7 3; EvDestroy Preference; EvDestroy Ddesc; EvDestroy Bdesc;
             EvDestroy Adesc; EvDestroy OperationDesc; EvDestroy Handle]) as ->
    by (vm_compute; reflexivity).
  rewrite !elem_of_cons. do 10 right. by left.
Qed.

(** ** Lifetime of the library objects *)

(** C8.  The code at the failing input: when the heuristic search finds
    no algorithm, either fused variant throws with every object it has
    created still alive, the handle, the operation descriptor, the
    layouts and the preference. *)
Theorem objects_leak_without_algorithm :
  result_of no_algorithm_example = Throw "Unable to find any suitable algorithms"
  ∧ live_objects (trace_of no_algorithm_example) []
    = [Handle; Adesc; Bdesc; Ddesc; OperationDesc; Cdesc; Preference]
  ∧ result_of no_algorithm_hipblaslt_example
    = Throw "Unable to find any suitable algorithms"
  ∧ live_objects (trace_of no_algorithm_hipblaslt_example) []
    = [Handle; Adesc; Bdesc; Ddesc; OperationDesc; Preference].
Proof. repeat split; vm_compute; reflexivity. Qed.

Ltac unfold_lt := unfold lt_create, lt_destroy, lt_set_attribute, lt_matmul.

Ltac lt_released_leaf :=
  split; intros Hr; try discriminate Hr;
  first [ reflexivity
        | by (intros o Ho; apply elem_of_cons in Ho as [Ho|Ho];
              [|apply elem_of_nil in Ho])
        | by repeat constructor ].

(** The release is written for the normal return only: when a
    fused-epilogue variant returns normally, every operation descriptor,
    matrix layout and preference it created has been destroyed, and on
    hipBLASLt the handle as well; when it fails because the heuristic
    search found no algorithm, nothing has been destroyed. *)
Lemma lt_objects_released_on_success P inputA inputB outputD inputBias
    outputPreGelu m n k lda ldb ldd transa transb grad workspace workspaceSize
    accumulate use_split_accumulator math_sm_count stream mem :
  let hip := HipblasLt.cublas_gemm P inputA inputB outputD inputBias outputPreGelu
               m n k lda ldb ldd transa transb grad workspace workspaceSize
               accumulate use_split_accumulator math_sm_count stream mem in
  let cu := CublasLt.cublas_gemm P inputA inputB outputD inputBias outputPreGelu
               m n k lda ldb ldd transa transb grad workspace workspaceSize
               accumulate use_split_accumulator math_sm_count stream mem in
  lt_released true (result_of hip) (trace_of hip)
  ∧ lt_released false (result_of cu) (trace_of cu).
Proof.
  intros hip cu. subst hip cu. split.
  - match goal with |- lt_released ?b (result_of (?c mem)) _ =>
      change (wp c mem (λ r _ t, lt_released b r t))
    end.
    unfold HipblasLt.cublas_gemm. unfold_lt.
    repeat wp_step; simpl.
    all: lt_released_leaf.
  - match goal with |- lt_released ?b (result_of (?c mem)) _ =>
      change (wp c mem (λ r _ t, lt_released b r t))
    end.
    unfold CublasLt.cublas_gemm. unfold_lt.
    repeat wp_step; simpl.
    all: lt_released_leaf.
Qed.

(** ** The debug switch *)






(** ** The activation *)

Section Activation.

#[local] Open Scope R_scope.

Lemma cosh_pos x : 0 < cosh x.
Proof.
  unfold cosh. pose proof (exp_pos x). pose proof (exp_pos (- x)). lra.
Qed.

Lemma derivable_pt_lim_tanh x : derivable_pt_lim tanh x (1 - tanh x * tanh x).
Proof.
  pose proof (cosh_pos x) as Hc.
  replace (1 - tanh x * tanh x)
    with ((cosh x * cosh x - sinh x * sinh x) / (cosh x)²).
  - change tanh with (sinh / cosh)%F.
    apply derivable_pt_lim_div;
      [apply derivable_pt_lim_sinh | apply derivable_pt_lim_cosh | lra].
  - unfold tanh, Rsqr. field. lra.
Qed.

Lemma derivable_pt_lim_ext (f g : R -> R) x l :
  (∀ y, f y = g y) -> derivable_pt_lim f x l -> derivable_pt_lim g x l.
Proof.
  intros Hfg Hf eps Heps. destruct (Hf eps Heps) as [delta Hd].
  exists delta. intros h Hh Hlt. rewrite <- !Hfg. by apply Hd.
Qed.

(** The derivative of the expression, for any two constants. *)
Lemma derivable_pt_lim_gelu (b k x : R) :
  derivable_pt_lim
    (λ x, x * (0.5 * (1 + tanh (b * (x + k * x * x * x))))) x
    (0.5 * (1 + tanh (b * (x + k * (x * x * x))))
     + 0.5 * x
       * (1 - tanh (b * (x + k * (x * x * x))) * tanh (b * (x + k * (x * x * x))))
       * (b * (1 + 3 * k * (x * x)))).
Proof.
  set (inner := λ x : R, b * (x + k * x * x * x)).
  assert (Hin : derivable_pt_lim inner x (b * (1 + 3 * k * (x * x)))).
  { unfold inner.
    replace (b * (1 + 3 * k * (x * x)))
      with (0 * (x + k * x * x * x)
            + b * (1 + (((0 * x + k * 1) * x + k * x * 1) * x + k * x * x * 1)))
      by ring.
    apply (derivable_pt_lim_mult (λ _, b) (λ x, x + k * x * x * x));
      [apply derivable_pt_lim_const|].
    apply (derivable_pt_lim_plus id (λ x, k * x * x * x));
      [apply derivable_pt_lim_id|].
    apply (derivable_pt_lim_mult (λ x, k * x * x) id);
      [|apply derivable_pt_lim_id].
    apply (derivable_pt_lim_mult (λ x, k * x) id); [|apply derivable_pt_lim_id].
    apply (derivable_pt_lim_mult (λ _, k) id);
      [apply derivable_pt_lim_const | apply derivable_pt_lim_id]. }
  assert (Ht : derivable_pt_lim (λ x, tanh (inner x)) x
                 ((1 - tanh (inner x) * tanh (inner x))
                  * (b * (1 + 3 * k * (x * x))))).
  { apply (derivable_pt_lim_comp inner tanh);
      [exact Hin | apply derivable_pt_lim_tanh]. }
  replace (b * (x + k * (x * x * x))) with (inner x) by (unfold inner; ring).
  replace (0.5 * (1 + tanh (inner x))
           + 0.5 * x * (1 - tanh (inner x) * tanh (inner x))
             * (b * (1 + 3 * k * (x * x))))
    with (1 * (0.5 * (1 + tanh (inner x)))
          + x * (0 * (1 + tanh (inner x))
                 + 0.5 * (0 + (1 - tanh (inner x) * tanh (inner x))
                               * (b * (1 + 3 * k * (x * x)))))) by ring.
  apply (derivable_pt_lim_mult id (λ x, 0.5 * (1 + tanh (inner x))));
    [apply derivable_pt_lim_id|].
  apply (derivable_pt_lim_mult (λ _, 0.5) (λ x, 1 + tanh (inner x)));
    [apply derivable_pt_lim_const|].
  apply (derivable_pt_lim_plus (λ _, 1) (λ x, tanh (inner x)));
    [apply derivable_pt_lim_const | exact Ht].
Qed.

(** The ten digits of the specification and the sixteen of the source
    are the same single-precision number. *)
Lemma kBeta_single_precision :
  Single.lit 0.7978845608 = Single.lit 0.7978845608028654.
Proof. reflexivity. Qed.

Lemma gelu_forward_formula x : gelu_forward x = gelu_formula x.
Proof.
  unfold gelu_forward, gelu_formula. rewrite kBeta_single_precision.
  replace (x ^ 3) with (x * x * x) by ring.
  replace (Single.lit 0.044715 * (x * x * x))
    with (Single.lit 0.044715 * x * x * x) by ring.
  ring.
Qed.

(** In exact arithmetic the gradient is dy times the derivative of the
    expression. *)
Lemma gelu_backward_exact_derivative (x dy : R) :
  ∃ l, derivable_pt_lim gelu_formula x l ∧ gelu_backward_exact x dy = dy * l.
Proof.
  eexists. split.
  - apply (derivable_pt_lim_ext gelu_forward); [apply gelu_forward_formula|].
    unfold gelu_forward.
    apply (derivable_pt_lim_gelu (Single.lit 0.7978845608028654)
             (Single.lit 0.044715) x).
  - unfold gelu_backward_exact. cbv zeta.
    replace (x * x * x) with (x * (x * x)) by ring. ring.
Qed.

Lemma overflow_finite (r : R) : Rabs r <= FLT_MAX -> overflow r = Finite r.
Proof. intros H. unfold overflow. by destruct (Rle_dec (Rabs r) FLT_MAX). Qed.

Lemma overflow_infinite (r : R) :
  FLT_MAX < r -> overflow r = Infinity false.
Proof.
  intros H. unfold overflow, is_negative, FLT_MAX in *.
  destruct (Rle_dec (Rabs r) _) as [Hle|_].
  - rewrite Rabs_right in Hle by lra. lra.
  - destruct (Rlt_dec r 0); [lra|done].
Qed.

Lemma Rabs_mult_le (a b A B : R) :
  Rabs a <= A -> Rabs b <= B -> Rabs (a * b) <= A * B.
Proof.
  intros Ha Hb. rewrite Rabs_mult.
  apply Rmult_le_compat; auto using Rabs_pos.
Qed.

Lemma Rabs_plus_le (a b A B : R) :
  Rabs a <= A -> Rabs b <= B -> Rabs (a + b) <= A + B.
Proof. intros Ha Hb. pose proof (Rabs_triang a b). lra. Qed.

Lemma single_constants :
  0 < Single.lit 0.7978845608028654 < 1 ∧ 0 < Single.lit 0.044715 < 1.
Proof.
  unfold Single.lit.
  set (b := Single.round 0.7978845608028654).
  set (k := Single.round 0.044715).
  assert (Hb : (0 < b)%Q ∧ (b < 1)%Q) by (by vm_compute).
  assert (Hk : (0 < k)%Q ∧ (k < 1)%Q) by (by vm_compute).
  destruct Hb as [Hb0 Hb1], Hk as [Hk0 Hk1].
  apply Qlt_Rlt in Hb0, Hb1, Hk0, Hk1.
  rewrite RMicromega.Q2R_0 in Hb0, Hk0. rewrite RMicromega.Q2R_1 in Hb1, Hk1.
  lra.
Qed.

Lemma tanh_bounds (x : R) : -1 < tanh x < 1.
Proof.
  unfold tanh. pose proof (cosh_pos x) as Hc.
  assert (Hlo : - cosh x < sinh x)
    by (unfold sinh, cosh; pose proof (exp_pos x); lra).
  assert (Hhi : sinh x < cosh x)
    by (unfold sinh, cosh; pose proof (exp_pos (- x)); lra).
  split.
  - apply (Rmult_lt_reg_r (cosh x)); [done|].
    unfold Rdiv. rewrite Rmult_assoc, Rinv_l by lra. lra.
  - apply (Rmult_lt_reg_r (cosh x)); [done|].
    unfold Rdiv. rewrite Rmult_assoc, Rinv_l by lra. lra.
Qed.

(** For a pre-activation value of magnitude at most 2^20 and an upstream
    gradient of magnitude at most 2^64 no operation of [gelu_backward]
    leaves the finite range, and its value is dy times the derivative of
    the expression. *)
Lemma gelu_backward_in_range (x dy : R) :
  Rabs x <= 1048576 -> Rabs dy <= 18446744073709551616 ->
  gelu_backward x dy = Finite (gelu_backward_exact x dy).
Proof.
  intros Hx Hdy. unfold gelu_backward, gelu_backward_exact. cbv zeta.
  destruct single_constants as [HB HK].
  set (kB := Single.lit 0.7978845608028654) in *.
  set (kK := Single.lit 0.044715) in *.
  assert (HaB : Rabs kB <= 1) by (rewrite Rabs_right; lra).
  assert (HaK : Rabs kK <= 1) by (rewrite Rabs_right; lra).
  assert (Hhalf : Rabs 0.5 <= 1) by (rewrite Rabs_right; lra).
  assert (H1 : Rabs 1 <= 1) by (rewrite Rabs_right; lra).
  assert (H3 : Rabs 3 <= 3) by (rewrite Rabs_right; lra).
  unfold fp32_sub, fp32_opp, fp32_tanh, fp32_add, fp32_mul.
  pose proof (Rabs_mult_le x x _ _ Hx Hx) as Hsq.
  rewrite (overflow_finite (x * x)) by (unfold FLT_MAX; lra).
  pose proof (Rabs_mult_le (x * x) x _ _ Hsq Hx) as Hcube.
  rewrite (overflow_finite (x * x * x)) by (unfold FLT_MAX; lra).
  pose proof (Rabs_mult_le kK (x * x * x) _ _ HaK Hcube) as Hkc.
  rewrite (overflow_finite (kK * (x * x * x))) by (unfold FLT_MAX; lra).
  pose proof (Rabs_plus_le x (kK * (x * x * x)) _ _ Hx Hkc) as Hin.
  rewrite (overflow_finite (x + kK * (x * x * x))) by (unfold FLT_MAX; lra).
  pose proof (Rabs_mult_le kB _ _ _ HaB Hin) as Hbin.
  rewrite (overflow_finite (kB * (x + kK * (x * x * x))))
    by (unfold FLT_MAX; lra).
  set (t := tanh (kB * (x + kK * (x * x * x)))).
  assert (Ht : Rabs t <= 1)
    by (unfold t; apply Rabs_le;
        pose proof (tanh_bounds (kB * (x + kK * (x * x * x)))); lra).
  pose proof (Rabs_mult_le 0.5 x _ _ Hhalf Hx) as Hleft.
  rewrite (overflow_finite (0.5 * x)) by (unfold FLT_MAX; lra).
  pose proof (Rabs_plus_le 1 t _ _ H1 Ht) as Hright.
  rewrite (overflow_finite (1 + t)) by (unfold FLT_MAX; lra).
  pose proof (Rabs_mult_le 0.5 (1 + t) _ _ Hhalf Hright) as Hld.
  rewrite (overflow_finite (0.5 * (1 + t))) by (unfold FLT_MAX; lra).
  pose proof (Rabs_mult_le t t _ _ Ht Ht) as Htt.
  rewrite (overflow_finite (t * t)) by (unfold FLT_MAX; lra).
  assert (Hntt : Rabs (- (t * t)) <= 1 * 1) by (by rewrite Rabs_Ropp).
  pose proof (Rabs_plus_le 1 (- (t * t)) _ _ H1 Hntt) as Htd.
  rewrite (overflow_finite (1 + - (t * t))) by (unfold FLT_MAX; lra).
  pose proof (Rabs_mult_le 3 kK _ _ H3 HaK) as H3k.
  rewrite (overflow_finite (3 * kK)) by (unfold FLT_MAX; lra).
  pose proof (Rabs_mult_le (3 * kK) (x * x) _ _ H3k Hsq) as H3kx.
  rewrite (overflow_finite (3 * kK * (x * x))) by (unfold FLT_MAX; lra).
  pose proof (Rabs_plus_le 1 (3 * kK * (x * x)) _ _ H1 H3kx) as Hid0.
  rewrite (overflow_finite (1 + 3 * kK * (x * x))) by (unfold FLT_MAX; lra).
  pose proof (Rabs_mult_le kB _ _ _ HaB Hid0) as Hid.
  rewrite (overflow_finite (kB * (1 + 3 * kK * (x * x))))
    by (unfold FLT_MAX; lra).
  pose proof (Rabs_mult_le (0.5 * x) (1 + - (t * t)) _ _ Hleft Htd) as Hlt.
  rewrite (overflow_finite (0.5 * x * (1 + - (t * t))))
    by (unfold FLT_MAX; lra).
  pose proof (Rabs_mult_le _ _ _ _ Hlt Hid) as Hrd.
  rewrite (overflow_finite (0.5 * x * (1 + - (t * t))
                            * (kB * (1 + 3 * kK * (x * x)))))
    by (unfold FLT_MAX; lra).
  pose proof (Rabs_plus_le _ _ _ _ Hld Hrd) as Hsum.
  rewrite (overflow_finite (0.5 * (1 + t)
                            + 0.5 * x * (1 + - (t * t))
                              * (kB * (1 + 3 * kK * (x * x)))))
    by (unfold FLT_MAX; lra).
  pose proof (Rabs_mult_le dy _ _ _ Hdy Hsum) as Hres.
  rewrite overflow_finite by (unfold FLT_MAX; lra).
  f_equal; subst t; ring.
Qed.

(** X29. For a pre-activation value of magnitude at most 2^20 and an
    upstream gradient of magnitude at most 2^64, gelu_forward is the
    expression x * 0.5 * (1 + tanh(kBeta * (x + kKappa * x^3))) and
    gelu_backward is a finite number, dy times the derivative of that
    expression at x. *)
Theorem gelu_matches_formula_in_range (x dy : R) :
  Rabs x <= 1048576 -> Rabs dy <= 18446744073709551616 ->
  gelu_forward x = gelu_formula x
  ∧ ∃ l, derivable_pt_lim gelu_formula x l
         ∧ gelu_backward x dy = Finite (dy * l).
Proof.
  intros Hx Hdy. split; [apply gelu_forward_formula|].
  destruct (gelu_backward_exact_derivative x dy) as (l & Hl & Heq).
  exists l. split; [done|]. by rewrite gelu_backward_in_range, Heq.
Qed.

Lemma fp32_mul_finite_infinity (a : R) (s : bool) :
  a <> 0 -> fp32_mul (Finite a) (Infinity s) = Infinity (xorb s (is_negative a)).
Proof. intros H. cbn. by destruct (Req_dec_T a 0). Qed.

Lemma fp32_mul_infinity_finite (a : R) (s : bool) :
  a <> 0 -> fp32_mul (Infinity s) (Finite a) = Infinity (xorb s (is_negative a)).
Proof. intros H. cbn. by destruct (Req_dec_T a 0). Qed.

Lemma fp32_mul_zero_infinity (s : bool) : fp32_mul (Finite 0) (Infinity s) = NaN.
Proof. cbn. by destruct (Req_dec_T 0 0). Qed.

Lemma fp32_mul_infinity_zero (s : bool) : fp32_mul (Infinity s) (Finite 0) = NaN.
Proof. cbn. by destruct (Req_dec_T 0 0). Qed.

Lemma fp32_mul_nan_r (a : fp32) : fp32_mul a NaN = NaN.
Proof. by destruct a. Qed.

Lemma fp32_mul_nan_l (a : fp32) : fp32_mul NaN a = NaN.
Proof. by destruct a. Qed.

Lemma fp32_add_nan_r (a : fp32) : fp32_add a NaN = NaN.
Proof. by destruct a. Qed.

Lemma fp32_add_finite_infinity (a : R) (s : bool) :
  fp32_add (Finite a) (Infinity s) = Infinity s.
Proof. done. Qed.

Lemma fp32_tanh_infinity (s : bool) :
  ∃ t, fp32_tanh (Infinity s) = Finite t ∧ t * t = 1.
Proof. exists (if s then -1 else 1). split; [done|]. destruct s; lra. Qed.

Lemma gelu_matches_formula_in_range_witness :
  gelu_forward 1 = gelu_formula 1
  ∧ ∃ l, derivable_pt_lim gelu_formula 1 l
         ∧ gelu_backward 1 1 = Finite (1 * l).
Proof.
  apply (gelu_matches_formula_in_range 1 1); apply Rabs_le; lra.
Defined.

(** C6.  The code at the failing inputs: when the square of the
    pre-activation value is beyond the largest binary32 number, as it is
    for every x of magnitude 2^64 or more, [gelu_backward] is NaN
    whatever the upstream gradient: x_sq and inner_derivative are
    infinite, tanh_derivative is zero, and their product is not a
    number. *)
Theorem gelu_backward_not_a_number (x dy : R) :
  FLT_MAX < x * x -> gelu_backward x dy = NaN.
Proof.
  intros Hx. unfold gelu_backward. cbv zeta.
  destruct single_constants as [HB HK].
  set (kB := Single.lit 0.7978845608028654) in *.
  set (kK := Single.lit 0.044715) in *.
  assert (Hx0 : x <> 0) by (intros ->; unfold FLT_MAX in Hx; lra).
  change (fp32_mul (Finite x) (Finite x)) with (overflow (x * x)).
  rewrite (overflow_infinite (x * x)) by done.
  rewrite (fp32_mul_infinity_finite x) by done.
  rewrite (fp32_mul_finite_infinity kK) by lra.
  rewrite fp32_add_finite_infinity.
  rewrite (fp32_mul_finite_infinity kB) by lra.
  destruct (fp32_tanh_infinity
              (xorb (xorb (xorb false (is_negative x)) (is_negative kK))
                 (is_negative kB))) as (t & -> & Ht).
  change (fp32_mul (Finite t) (Finite t)) with (overflow (t * t)).
  rewrite Ht, (overflow_finite 1) by (apply Rabs_le; unfold FLT_MAX; lra).
  change (fp32_sub (Finite 1) (Finite 1)) with (overflow (1 + - 1)).
  replace (1 + - 1) with 0 by lra.
  rewrite (overflow_finite 0) by (apply Rabs_le; unfold FLT_MAX; lra).
  change (fp32_mul (Finite 3) (Finite kK)) with (overflow (3 * kK)).
  rewrite (overflow_finite (3 * kK)) by (apply Rabs_le; unfold FLT_MAX; lra).
  rewrite (fp32_mul_finite_infinity (3 * kK)) by lra.
  rewrite fp32_add_finite_infinity.
  rewrite (fp32_mul_finite_infinity kB) by lra.
  change (fp32_mul (Finite 0.5) (Finite x)) with (overflow (0.5 * x)).
  assert (Hleft : ∀ s, fp32_mul (fp32_mul (overflow (0.5 * x)) (Finite 0))
                         (Infinity s) = NaN).
  { intros s. destruct (overflow (0.5 * x)) as [l| |].
    - change (fp32_mul (Finite l) (Finite 0)) with (overflow (l * 0)).
      rewrite Rmult_0_r, (overflow_finite 0)
        by (apply Rabs_le; unfold FLT_MAX; lra).
      apply fp32_mul_zero_infinity.
    - by rewrite fp32_mul_infinity_zero.
    - done. }
  by rewrite Hleft, fp32_add_nan_r, fp32_mul_nan_r.
Qed.

Lemma gelu_backward_not_a_number_witness :
  FLT_MAX < 36893488147419103232 * 36893488147419103232
  ∧ gelu_backward 36893488147419103232 1 = NaN.
Proof.
  assert (H : FLT_MAX < 36893488147419103232 * 36893488147419103232)
    by (unfold FLT_MAX; lra).
  split; [exact H|].
  exact (gelu_backward_not_a_number 36893488147419103232 1 H).
Defined.

End Activation.

(** ** Machine integers in range *)

Lemma to_int32_small z : - 2 ^ 31 <= z < 2 ^ 31 -> to_int32 z = z.
Proof. intros H. unfold to_int32. rewrite Z.mod_small; lia. Qed.

Lemma to_uint32_small z : 0 <= z < 2 ^ 32 -> to_uint32 z = z.
Proof. intros H. unfold to_uint32. by rewrite Z.mod_small. Qed.

Lemma float_elems_small a : 0 <= a < 2 ^ 61 -> float_elems a 1 = a.
Proof.
  intros H. unfold float_elems.
  rewrite (Z.mod_small (4 * a)) by lia. rewrite Z.mul_1_r, Z.mod_small by lia.
  rewrite Z.mul_comm. apply Z.div_mul. lia.
Qed.

(** ** Sums *)

Lemma Rsum_cons x l : Rsum (x :: l) = (x + Rsum l)%R.
Proof. done. Qed.

Lemma Rsum_app l k : Rsum (l ++ k) = (Rsum l + Rsum k)%R.
Proof.
  induction l as [|x l IH]; [unfold Rsum; simpl; lra|].
  rewrite <- app_comm_cons, !Rsum_cons, IH. lra.
Qed.

Lemma Rsum_perm l k : l ≡ₚ k -> Rsum l = Rsum k.
Proof.
  induction 1 as [|x l k _ IH|x y l|l k k' _ IH1 _ IH2];
    rewrite ?Rsum_cons; [done | rewrite IH; lra | lra | congruence].
Qed.

Lemma Rsum_zero {A : Type} (f : A -> R) (l : list A) :
  (∀ x, x ∈ l -> f x = 0%R) -> Rsum (f <$> l) = 0%R.
Proof.
  induction l as [|x l IH]; intros H; [done|].
  rewrite fmap_cons, Rsum_cons, H by apply list_elem_of_here.
  rewrite IH; [lra|]. intros y Hy. apply H. by apply list_elem_of_further.
Qed.

Lemma Rsum_ext {A : Type} (f g : A -> R) (l : list A) :
  (∀ x, x ∈ l -> f x = g x) -> Rsum (f <$> l) = Rsum (g <$> l).
Proof.
  induction l as [|x l IH]; intros H; [done|].
  rewrite !fmap_cons, !Rsum_cons, H by apply list_elem_of_here.
  rewrite IH; [done|]. intros y Hy. apply H. by apply list_elem_of_further.
Qed.

(** A sum over [len * cnt] consecutive indices, chunk by chunk. *)
Lemma Rsum_chunks (h : Z -> R) (len : Z) (cnt : nat) :
  0 <= len ->
  Rsum (h <$> seqZ 0 (len * Z.of_nat cnt))
  = Rsum ((λ q, Rsum ((λ j, h (q * len + j)) <$> seqZ 0 len))
          <$> seqZ 0 (Z.of_nat cnt)).
Proof.
  intros Hlen. induction cnt as [|cnt IH].
  - by rewrite Z.mul_0_r.
  - rewrite seqZ_S, fmap_app, Rsum_app, <- IH.
    cbn [fmap list_fmap]. rewrite Rsum_cons. change (Rsum []) with 0%R.
    replace (len * Z.of_nat (S cnt)) with (len * Z.of_nat cnt + len) by lia.
    rewrite seqZ_app by lia. rewrite fmap_app, Rsum_app. f_equal.
    replace (0 + len * Z.of_nat cnt) with (len * Z.of_nat cnt + 0) by lia.
    rewrite Rplus_0_r, <- (fmap_add_seqZ (len * Z.of_nat cnt) 0).
    rewrite <- list_fmap_compose. apply Rsum_ext. intros j _. simpl.
    f_equal. lia.
Qed.

(** Only the chunk [c] contributes. *)
Lemma Rsum_single (x : R) (c cnt : Z) :
  0 <= c < cnt ->
  Rsum ((λ q, if q =? c then x else 0%R) <$> seqZ 0 cnt) = x.
Proof.
  intros Hc.
  replace cnt with (c + (1 + (cnt - c - 1))) by lia.
  rewrite !seqZ_app by lia. rewrite !fmap_app, !Rsum_app.
  rewrite (Rsum_zero _ (seqZ 0 c)), (Rsum_zero _ (seqZ _ (cnt - c - 1))).
  - rewrite (seqZ_cons _ 1), seqZ_nil by lia.
    cbn [fmap list_fmap]. rewrite Rsum_cons. change (Rsum []) with 0%R.
    rewrite Z.add_0_l, Z.eqb_refl. lra.
  - intros q Hq. apply elem_of_seqZ in Hq. destruct (Z.eqb_spec q c); [lia|done].
  - intros q Hq. apply elem_of_seqZ in Hq. destruct (Z.eqb_spec q c); [lia|done].
Qed.

(** A guarded sum is the sum over the indices that pass the guard. *)
Lemma Rsum_guard (x : Z -> R) (a v len : Z) :
  0 <= v <= len ->
  Rsum ((λ t, if a + t <? a + v then x (a + t) else 0%R) <$> seqZ 0 len)
  = Rsum ((λ t, x (a + t)) <$> seqZ 0 v).
Proof.
  intros Hv. replace len with (v + (len - v)) by lia.
  rewrite seqZ_app, fmap_app, Rsum_app by lia.
  rewrite (Rsum_zero _ (seqZ _ (len - v))).
  - rewrite Rplus_0_r. apply Rsum_ext. intros t Ht. apply elem_of_seqZ in Ht.
    destruct (Z.ltb_spec (a + t) (a + v)); [done|lia].
  - intros t Ht. apply elem_of_seqZ in Ht.
    destruct (Z.ltb_spec (a + t) (a + v)); [lia|done].
Qed.

(** ** The column reduction *)

Lemma read_Some b i :
  0 <= i < Z.of_nat (length b) -> read b i = Some (nth_R b i).
Proof.
  intros Hi. unfold nth_R, read. rewrite decide_True by lia.
  destruct (lookup_lt_is_Some_2 b (Z.to_nat i)) as [x Hx]; [lia|].
  by rewrite Hx.
Qed.

Lemma mapM_fmap_Some_ext {A B : Type} (f : A -> option B) (h : A -> B) l :
  (∀ x, x ∈ l -> f x = Some (h x)) -> mapM f l = Some (h <$> l).
Proof.
  intros H. apply mapM_Some_2. induction l as [|x l IH]; [constructor|].
  rewrite fmap_cons. constructor.
  - apply H, list_elem_of_here.
  - apply IH. intros y Hy. by apply H, list_elem_of_further.
Qed.

Section bias_gradient_correct.

Context (P : platform) (T m n : Z) (inp : list R).

(** The block count the kernel computes, and the rows its grid covers. *)
Context (BPC : Z) (HBPCdef : BLOCKS_PER_COL T m = BPC).

Abbreviation rows := (Z.min m (BPC * T)).

Context (HT : 0 < T) (Hm : 0 <= m < 2 ^ 31) (Hn : 0 <= n).
Context (HBPC : 0 <= BPC) (Hlast : (BPC - 1) * T < m).
Context (Hgrid : BPC * T * n < 2 ^ 31).
Context (Hinp : rows * n <= Z.of_nat (length inp)).

Abbreviation bcol := (block_col BPC).
Abbreviation brow := (block_row T BPC).
Abbreviation grd := (guarded inp rows n).
Abbreviation contrib := (contribution inp T BPC rows n).
Abbreviation accum := (accumulated inp T BPC rows n).

Lemma block_bounds b :
  0 <= b < BPC * n ->
  0 < BPC ∧ 0 < n ∧ 0 <= bcol b < n ∧ 0 <= b mod BPC < BPC
  ∧ BPC * T < 2 ^ 31 ∧ 0 <= brow b ∧ brow b + T <= BPC * T.
Proof.
  intros Hb. assert (0 < BPC) by nia. assert (0 < n) by nia.
  pose proof (Z.mod_pos_bound b BPC ltac:(lia)) as Hj.
  assert (0 <= b / BPC) by (apply Z.div_pos; lia).
  assert (b / BPC < n) by (apply Z.div_lt_upper_bound; lia).
  assert (BPC * T * 1 <= BPC * T * n)
    by (apply Z.mul_le_mono_nonneg_l; [apply Z.mul_nonneg_nonneg|]; lia).
  assert ((b mod BPC + 1) * T <= BPC * T)
    by (apply Z.mul_le_mono_nonneg_r; lia).
  assert (0 <= b mod BPC * T) by (apply Z.mul_nonneg_nonneg; lia).
  unfold block_col, block_row. repeat split; lia.
Qed.

Lemma thread_idx_small b t :
  0 <= b < BPC * n -> 0 <= t < T -> thread_idx T b t = t + b * T.
Proof.
  intros Hb Ht. destruct (block_bounds b Hb) as (? & ? & ? & ? & ? & ? & ?).
  unfold thread_idx.
  assert (0 <= b * T) by (apply Z.mul_nonneg_nonneg; lia).
  assert ((b + 1) * T <= BPC * n * T) by (apply Z.mul_le_mono_nonneg_r; lia).
  assert (BPC * n * T = BPC * T * n) by ring.
  rewrite (to_uint32_small (b * T)) by lia.
  rewrite to_uint32_small by lia. apply to_int32_small. lia.
Qed.

Lemma thread_coords b t :
  0 <= b < BPC * n -> 0 <= t < T ->
  Z.quot (t + b * T) (BPC * T) = bcol b
  ∧ Z.rem (t + b * T) (BPC * T) = brow b + t.
Proof.
  intros Hb Ht. destruct (block_bounds b Hb) as (? & ? & ? & ? & ? & ? & ?).
  assert (0 <= b * T) by (apply Z.mul_nonneg_nonneg; lia).
  assert (0 < BPC * T) by (apply Z.mul_pos_pos; lia).
  rewrite Z.quot_div_nonneg, Z.rem_mod_nonneg by lia.
  assert (Heq : t + b * T = BPC * T * bcol b + (brow b + t)).
  { unfold block_row, block_col. pose proof (Z.div_mod b BPC ltac:(lia)) as Hdm.
    rewrite Hdm at 1. ring. }
  split.
  - symmetry. apply (Z.div_unique _ _ _ (brow b + t)); lia.
  - symmetry. apply (Z.mod_unique _ _ (bcol b)); lia.
Qed.

Lemma row_index_small b t :
  0 <= b < BPC * n -> 0 <= t < T -> brow b + t < m ->
  0 <= (brow b + t) * n + bcol b < rows * n
  ∧ rows * n <= BPC * T * n.
Proof.
  intros Hb Ht Hlt. destruct (block_bounds b Hb) as (? & ? & ? & ? & ? & ? & ?).
  assert (Hr : brow b + t + 1 <= rows) by lia.
  assert ((brow b + t + 1) * n <= rows * n)
    by (apply Z.mul_le_mono_nonneg_r; lia).
  assert (0 <= (brow b + t) * n) by (apply Z.mul_nonneg_nonneg; lia).
  assert (rows * n <= BPC * T * n) by (apply Z.mul_le_mono_nonneg_r; lia).
  lia.
Qed.

Lemma thread_data_spec b t :
  0 <= b < BPC * n -> 0 <= t < T ->
  thread_data P T inp m n b t
  = Some (if brow b + t <? m
          then nth_R inp ((brow b + t) * n + bcol b)
          else uninit P).
Proof.
  intros Hb Ht. destruct (block_bounds b Hb) as (? & ? & ? & ? & ? & ? & ?).
  unfold thread_data. rewrite HBPCdef, thread_idx_small by done.
  rewrite (to_int32_small (BPC * T)) by lia.
  destruct (thread_coords b t Hb Ht) as [-> ->].
  destruct (Z.ltb_spec (brow b + t) m) as [Hlt|]; [|done].
  destruct (row_index_small b t Hb Ht Hlt) as [? ?].
  assert (0 <= (brow b + t) * n) by (apply Z.mul_nonneg_nonneg; lia).
  rewrite (to_int32_small (_ * n)) by lia.
  rewrite to_int32_small by lia.
  apply read_Some. lia.
Qed.

Lemma block_sum_full b :
  0 <= b < BPC * n -> brow b < (BPC - 1) * T ->
  BlockReduce_Sum
    ((λ t, if brow b + t <? m
           then nth_R inp ((brow b + t) * n + bcol b)
           else uninit P) <$> seqZ 0 T)
  = contrib b.
Proof.
  intros Hb Hj. destruct (block_bounds b Hb) as (? & ? & ? & ? & ? & ? & ?).
  assert (b mod BPC < BPC - 1).
  { unfold block_row in Hj. apply (Z.mul_lt_mono_pos_r T); lia. }
  assert ((b mod BPC + 1) * T <= (BPC - 1) * T)
    by (apply Z.mul_le_mono_nonneg_r; lia).
  unfold contribution. apply Rsum_ext. intros t Ht. apply elem_of_seqZ in Ht.
  unfold guarded.
  assert (brow b + t < (BPC - 1) * T) by (unfold block_row; lia).
  destruct (Z.ltb_spec (brow b + t) m); [|lia].
  destruct (Z.ltb_spec (brow b + t) rows); [done|lia].
Qed.

Lemma block_sum_last b :
  0 <= b < BPC * n -> (BPC - 1) * T <= brow b ->
  BlockReduce_Sum_valid
    ((λ t, if brow b + t <? m
           then nth_R inp ((brow b + t) * n + bcol b)
           else uninit P) <$> seqZ 0 T)
    (m - (BPC - 1) * T)
  = contrib b.
Proof.
  intros Hb Hj. destruct (block_bounds b Hb) as (? & ? & ? & ? & ? & ? & ?).
  assert (Hrow : brow b = (BPC - 1) * T).
  { assert (BPC * T = (BPC - 1) * T + T) by ring. lia. }
  unfold contribution, BlockReduce_Sum_valid. fold (Rsum).
  remember (Z.min (m - (BPC - 1) * T) T) as v eqn:Hvdef.
  assert (Hv : 0 <= v <= T) by lia.
  assert (Hrows : rows = brow b + v) by lia.
  rewrite <- fmap_take.
  replace (take (Z.to_nat (m - (BPC - 1) * T)) (seqZ 0 T)) with (seqZ 0 v).
  2:{ replace T with (v + (T - v)) at 2 by lia.
      rewrite seqZ_app by lia.
      destruct (decide (m - (BPC - 1) * T <= T)).
      - rewrite take_app_le, take_ge; [done| |]; rewrite length_seqZ; lia.
      - replace (T - v) with 0 by lia. rewrite (seqZ_nil _ 0), app_nil_r by lia.
        rewrite take_ge; [done|]. rewrite length_seqZ. lia. }
  transitivity (Rsum ((λ t, nth_R inp ((brow b + t) * n + bcol b))
                      <$> seqZ 0 v)).
  - apply Rsum_ext. intros t Ht. apply elem_of_seqZ in Ht.
    destruct (Z.ltb_spec (brow b + t) m); [done|lia].
  - unfold guarded. rewrite Hrows.
    by rewrite (Rsum_guard (λ r, nth_R inp (r * n + bcol b)) _ v T).
Qed.

Lemma block_spec out b :
  0 <= b < BPC * n -> n <= Z.of_nat (length out) ->
  bias_gradient_block P T inp m n out b
  = Some (<[Z.to_nat (bcol b)
            := (nth_R out (bcol b) + contrib b)%R]> out).
Proof.
  intros Hb Hout. destruct (block_bounds b Hb) as (? & ? & ? & ? & ? & ? & ?).
  unfold bias_gradient_block.
  rewrite (mapM_fmap_Some_ext _
    (λ t, if brow b + t <? m
          then nth_R inp ((brow b + t) * n + bcol b)
          else uninit P)).
  2:{ intros t Ht. apply elem_of_seqZ in Ht. apply thread_data_spec; lia. }
  simpl. rewrite HBPCdef, thread_idx_small by lia.
  rewrite (to_int32_small (BPC * T)) by lia.
  destruct (thread_coords b 0 Hb ltac:(lia)) as [-> ->].
  assert (0 <= (BPC - 1) * T) by (apply Z.mul_nonneg_nonneg; lia).
  rewrite (to_int32_small ((BPC - 1) * T)) by lia.
  rewrite (to_int32_small (m - _)) by lia.
  rewrite read_Some by lia. simpl.
  unfold write. rewrite decide_True by lia. do 2 f_equal.
  f_equal. rewrite Z.add_0_r.
  destruct (Z.ltb_spec (brow b) ((BPC - 1) * T)).
  - by apply block_sum_full.
  - by apply block_sum_last.
Qed.

Lemma grid_fold bs out :
  Forall (λ b, 0 <= b < BPC * n) bs -> n <= Z.of_nat (length out) ->
  foldl (λ acc b, o ← acc; bias_gradient_block P T inp m n o b) (Some out) bs
  = Some (accum bs out).
Proof.
  intros Hbs. revert out. induction Hbs as [|b bs Hb _ IH]; intros out Hout.
  - simpl. f_equal. apply list_eq. intros i. unfold accumulated.
    rewrite list_lookup_imap. destruct (out !! i) as [x|]; [|done].
    simpl. f_equal. change (Rsum []) with 0%R. lra.
  - destruct (block_bounds b Hb) as (? & ? & ? & ? & ? & ? & ?).
    simpl. rewrite block_spec by done. rewrite IH by (rewrite length_insert; lia).
    f_equal. apply list_eq. intros i. unfold accumulated.
    rewrite !list_lookup_imap, fmap_cons, Rsum_cons.
    destruct (decide (i = Z.to_nat (bcol b))) as [->|Hne].
    + rewrite list_lookup_insert_eq by lia.
      rewrite Z2Nat.id, Z.eqb_refl by lia.
      assert (Hx : out !! Z.to_nat (bcol b)
                   = Some (nth_R out (bcol b))).
      { pose proof (read_Some out (bcol b) ltac:(lia)) as Hr.
        unfold read in Hr. by rewrite decide_True in Hr by lia. }
      rewrite Hx. simpl. f_equal. lra.
    + rewrite list_lookup_insert_ne by done.
      destruct (Z.eqb_spec (bcol b) (Z.of_nat i)); [lia|].
      destruct (out !! i) as [x|]; [|done]. simpl. f_equal. lra.
Qed.

Lemma block_col_chunk q j : 0 <= j < BPC -> bcol (q * BPC + j) = q.
Proof.
  intros Hj. unfold block_col. symmetry.
  apply (Z.div_unique _ _ _ j); lia.
Qed.

Lemma block_row_chunk q j : 0 <= j < BPC -> brow (q * BPC + j) = j * T.
Proof.
  intros Hj. unfold block_row. f_equal. symmetry.
  apply (Z.mod_unique _ _ q); lia.
Qed.

(** All the blocks of one column together add the column sum over the
    rows the grid covers. *)
Lemma column_total c :
  0 <= c < n ->
  Rsum ((λ b, if bcol b =? c then contrib b else 0%R)
        <$> seqZ 0 (BPC * n))
  = column_sum inp rows n c.
Proof.
  intros Hc. rewrite <- (Z2Nat.id n) at 1 by lia.
  rewrite Rsum_chunks by done.
  rewrite (Rsum_ext _
    (λ q, if q =? c
          then Rsum ((λ j, contrib (c * BPC + j)) <$> seqZ 0 BPC)
          else 0%R)).
  2:{ intros q _. destruct (Z.eqb_spec q c) as [->|Hq].
      - apply Rsum_ext. intros j Hj. apply elem_of_seqZ in Hj.
        by rewrite block_col_chunk, Z.eqb_refl by lia.
      - apply Rsum_zero. intros j Hj. apply elem_of_seqZ in Hj.
        rewrite block_col_chunk by lia.
        by destruct (Z.eqb_spec q c). }
  rewrite Z2Nat.id, Rsum_single by lia.
  rewrite (Rsum_ext _
    (λ j, Rsum ((λ t, grd c (j * T + t)) <$> seqZ 0 T))).
  2:{ intros j Hj. apply elem_of_seqZ in Hj. unfold contribution.
      by rewrite block_col_chunk, block_row_chunk by lia. }
  rewrite <- (Z2Nat.id BPC) at 1 by lia.
  rewrite <- (Rsum_chunks (grd c)), Z2Nat.id by lia.
  assert (Hrows : 0 <= rows <= T * BPC) by lia.
  transitivity (Rsum ((λ t, nth_R inp ((0 + t) * n + c)) <$> seqZ 0 rows)).
  - rewrite <- (Rsum_guard (λ r, nth_R inp (r * n + c)) 0 rows (T * BPC)) by done.
    apply Rsum_ext. intros r _. unfold guarded. by rewrite !Z.add_0_l.
  - unfold column_sum. fold Rsum. apply Rsum_ext. intros r _.
    by rewrite Z.add_0_l.
Qed.

Lemma column_outside c :
  n <= c ->
  Rsum ((λ b, if bcol b =? c then contrib b else 0%R)
        <$> seqZ 0 (BPC * n)) = 0%R.
Proof.
  intros Hc. apply Rsum_zero. intros b Hb. apply elem_of_seqZ in Hb.
  destruct (block_bounds b ltac:(lia)) as (? & ? & ? & ? & ? & ? & ?).
  destruct (Z.eqb_spec (bcol b) c); [lia|done].
Qed.

(** The kernel on a grid of [BPC * n] blocks, in any order. *)
Lemma bias_gradient_kernel_spec out :
  n <= Z.of_nat (length out) ->
  schedule P (BPC * n) ≡ₚ seqZ 0 (BPC * n) ->
  bias_gradient_kernel P T inp out m n (BPC * n)
  = Some (imap (λ c old,
                  if Z.of_nat c <? n
                  then (old + column_sum inp rows n (Z.of_nat c))%R
                  else old) out).
Proof.
  intros Hout Hsched. unfold bias_gradient_kernel.
  rewrite grid_fold; [|by rewrite Hsched, Forall_seqZ; lia|done].
  f_equal. unfold accumulated. apply imap_ext. intros c old _. simpl.
  rewrite (Rsum_perm _ _ (fmap_Permutation _ _ _ Hsched)).
  destruct (Z.ltb_spec (Z.of_nat c) n).
  - by rewrite column_total by lia.
  - rewrite column_outside by lia. lra.
Qed.

End bias_gradient_correct.

(** ** Single precision: numbers that round to themselves *)

Lemma rne_div_exact x y : 0 < y -> (y | x) -> Single.rne_div x y * y = x.
Proof.
  intros Hy [k ->]. unfold Single.rne_div.
  rewrite Z.mod_mul, Z.div_mul, Z.mul_0_r by lia. cbv zeta.
  destruct (Z.compare_spec 0 y); [lia|done|lia].
Qed.

(** [2 ^ ilog2 p d <= p / d] *)
Lemma ilog2_lower p d :
  0 < p -> 0 < d -> 0 <= Single.ilog2 p d -> d * 2 ^ Single.ilog2 p d <= p.
Proof.
  intros Hp Hd. unfold Single.ilog2.
  pose proof (Z.log2_spec p Hp) as [Hp1 Hp2].
  pose proof (Z.log2_spec d Hd) as [Hd1 Hd2].
  pose proof (Z.log2_nonneg p). pose proof (Z.log2_nonneg d).
  set (e0 := Z.log2 p - Z.log2 d) in *.
  destruct (0 <=? e0) eqn:E0.
  - apply Z.leb_le in E0.
    destruct (Z.leb_spec (d * 2 ^ e0) p) as [Hc|Hc]; [done|]. intros He.
    assert (2 ^ Z.log2 p = 2 ^ (e0 - 1) * 2 ^ Z.succ (Z.log2 d)) as Heq.
    { rewrite <- Z.pow_add_r by lia. f_equal. lia. }
    assert (0 < 2 ^ (e0 - 1)) by (apply Z.pow_pos_nonneg; lia).
    nia.
  - apply Z.leb_gt in E0.
    destruct (Z.leb_spec d (p * 2 ^ (- e0))); lia.
Qed.

Lemma round_pos_exact p d :
  0 < p -> 0 < d ->
  (if 0 <=? 23 - Single.ilog2 p d
   then (d | p * 2 ^ (23 - Single.ilog2 p d))
   else (d * 2 ^ (- (23 - Single.ilog2 p d)) | p)) ->
  (Single.round_pos p d == p # Z.to_pos d)%Q.
Proof.
  intros Hp Hd. unfold Single.round_pos.
  set (s := 23 - Single.ilog2 p d).
  destruct (Z.leb_spec 0 s) as [Hs|Hs]; intros Hdiv.
  - assert (0 < 2 ^ s) by (apply Z.pow_pos_nonneg; lia).
    pose proof (rne_div_exact _ _ Hd Hdiv) as He.
    unfold Qeq, Qdiv, Qmult, Qinv, inject_Z. simpl.
    destruct (2 ^ s) as [|q|q] eqn:Eq; try lia. simpl.
    rewrite Z2Pos.id by lia. nia.
  - assert (0 < 2 ^ (- s)) by (apply Z.pow_pos_nonneg; lia).
    assert (0 < d * 2 ^ (- s)) by lia.
    pose proof (rne_div_exact _ _ ltac:(eassumption) Hdiv) as He.
    unfold Qeq, inject_Z. simpl. rewrite Z2Pos.id by lia. nia.
Qed.

(** A positive rational [m / 2^a] with [m <= 2^24] is a binary32
    number. *)
Lemma round_exact (q : Q) (m a : Z) :
  0 < m <= 2 ^ 24 -> 0 <= a <= 24 ->
  (q == m # Z.to_pos (2 ^ a))%Q -> (Single.round q == q)%Q.
Proof.
  intros Hm Ha Hq.
  assert (H2a : 0 < 2 ^ a) by (apply Z.pow_pos_nonneg; lia).
  destruct q as [p d]. unfold Qeq in Hq. simpl in Hq.
  rewrite Z2Pos.id in Hq by lia.
  assert (Hp : 0 < p) by nia.
  unfold Single.round. simpl.
  destruct p as [|p|p]; try lia.
  rewrite round_pos_exact; [by rewrite Pos2Z.id | lia | lia |].
  set (P := Z.pos p) in *. set (D := Z.pos d) in *.
  assert (HD : 0 < D) by lia.
  set (e := Single.ilog2 P D).
  assert (Hbig : 24 - a <= e -> m = 2 ^ 24 ∧ e = 24 - a ∧ P = D * 2 ^ (24 - a)).
  { intros He. pose proof (ilog2_lower P D Hp HD ltac:(fold e; lia)) as Hl.
    fold e in Hl.
    assert (2 ^ (24 - a) <= 2 ^ e) by (apply Z.pow_le_mono_r; lia).
    assert (2 ^ 24 = 2 ^ (24 - a) * 2 ^ a)
      by (rewrite <- Z.pow_add_r by lia; f_equal; lia).
    assert (0 < 2 ^ (24 - a)) by (apply Z.pow_pos_nonneg; lia).
    assert (Hm24 : m = 2 ^ 24) by nia.
    assert (He' : e = 24 - a).
    { destruct (decide (e = 24 - a)); [done|].
      assert (2 ^ (24 - a + 1) <= 2 ^ e) by (apply Z.pow_le_mono_r; lia).
      rewrite Z.pow_add_r in * by lia. nia. }
    repeat split; [done|done|]. subst m. nia. }
  destruct (Z.leb_spec 0 (23 - e)) as [Hs|Hs].
  - destruct (decide (a <= 23 - e)) as [Hsa|Hsa].
    + exists (m * 2 ^ (23 - e - a)).
      replace (2 ^ (23 - e)) with (2 ^ a * 2 ^ (23 - e - a))
        by (rewrite <- Z.pow_add_r by lia; f_equal; lia).
      nia.
    + destruct Hbig as (_ & _ & ->); [lia|].
      exists (2 ^ (24 - a) * 2 ^ (23 - e)). ring.
  - destruct Hbig as (_ & He & HP); [lia|].
    assert (a = 0) by lia. subst a. 
    replace (- (23 - e)) with 1 by lia.
    exists (2 ^ 23). rewrite HP. replace (24 - 0) with 24 by lia.
    change (2 ^ 24) with (2 ^ 23 * 2). change (2 ^ 1) with 2. ring.
Qed.

Lemma of_int_exact m : 0 <= m <= 2 ^ 24 -> (Single.of_int m == inject_Z m)%Q.
Proof.
  intros Hm. unfold Single.of_int.
  destruct (decide (m = 0)) as [->|]; [done|].
  apply (round_exact _ m 0); [lia|lia|done].
Qed.

(** The block count for up to [2^24] rows is the exact ceiling. *)
Lemma BLOCKS_PER_COL_exact m :
  0 <= m <= 2 ^ 24 -> BLOCKS_PER_COL 1024 m = (m + 1023) / 1024.
Proof.
  intros Hm. unfold BLOCKS_PER_COL, Single.ceil, Single.div.
  destruct (decide (m = 0)) as [->|Hne]; [done|].
  assert (Hq : (Single.of_int m / Single.of_int 1024 == m # 1024)%Q).
  { rewrite of_int_exact by done.
    change (Single.of_int 1024) with ((8388608 # 8192)%Q).
    unfold Qeq, Qdiv, Qmult, Qinv, inject_Z. simpl. lia. }
  rewrite (Qceiling_comp _ (m # 1024)).
  - unfold Qceiling, Qfloor. simpl.
    pose proof (Z.div_mod (- m) 1024 ltac:(lia)).
    pose proof (Z.mod_pos_bound (- m) 1024 ltac:(lia)).
    pose proof (Z.div_mod (m + 1023) 1024 ltac:(lia)).
    pose proof (Z.mod_pos_bound (m + 1023) 1024 ltac:(lia)).
    lia.
  - rewrite (round_exact _ m 10); [done|lia|lia|done].
Qed.

Lemma BLOCKS_PER_COL_16777217 : BLOCKS_PER_COL 1024 16777217 = 16384.
Proof. vm_compute. reflexivity. Qed.

(** ** Elementwise kernels *)

Lemma elementwise_length f n out :
  n <= Z.of_nat (length out) -> length (elementwise f n out) = length out.
Proof.
  intros Hn. unfold elementwise.
  rewrite length_app, length_fmap, length_seqZ, length_drop. lia.
Qed.

Lemma elementwise_lookup f n out i :
  n <= Z.of_nat (length out) ->
  nth_R (elementwise f n out) i
  = if decide (0 <= i < n) then f i else nth_R out i.
Proof.
  intros Hn. unfold elementwise, nth_R, read.
  destruct (decide (0 <= i < n)) as [Hi|Hi].
  - rewrite decide_True by lia.
    rewrite lookup_app_l by (rewrite length_fmap, length_seqZ; lia).
    rewrite list_lookup_fmap, lookup_seqZ_lt by lia. simpl. f_equal. lia.
  - destruct (decide (0 <= i)) as [H0|H0]; [|done].
    rewrite lookup_app_r by (rewrite length_fmap, length_seqZ; lia).
    rewrite length_fmap, length_seqZ, lookup_drop. do 2 f_equal. lia.
Qed.

Lemma elementwise_zero f out : elementwise f 0 out = out.
Proof. done. Qed.

Lemma elementwise_list_lookup f n out (i : nat) :
  0 <= n <= Z.of_nat (length out) ->
  elementwise f n out !! i
  = if decide (Z.of_nat i < n) then Some (f (Z.of_nat i)) else out !! i.
Proof.
  intros Hn. unfold elementwise. destruct (decide (Z.of_nat i < n)) as [Hi|Hi].
  - rewrite lookup_app_l by (rewrite length_fmap, length_seqZ; lia).
    by rewrite list_lookup_fmap, lookup_seqZ_lt by lia.
  - rewrite lookup_app_r by (rewrite length_fmap, length_seqZ; lia).
    rewrite length_fmap, length_seqZ, lookup_drop. f_equal. lia.
Qed.

(** The grid-stride loop.  When the bound and the stride together stay
    within the range of an [int], no index wraps around, every index
    below the bound is visited by the thread whose first index is its
    remainder by the stride, and the grid leaves [g id] at every index
    [id] below the bound, in whatever order the blocks run. *)
Section grid_stride_correct.

Context (P : platform) (gridDim blockDim bound : Z).
Context (body : Z -> option R) (g : Z -> R) (out : list R).
Context (Hblock : 1 <= blockDim) (Hgrid : 1 <= gridDim).
Context (Hbound : 0 <= bound).
Context (Hwrap : bound + blockDim * gridDim <= 2 ^ 31).
Context (Hlen : bound <= Z.of_nat (length out)).
Context (Hbody : ∀ id, 0 <= id < bound -> body id = Some (g id)).

#[local] Abbreviation stride := (blockDim * gridDim).

Lemma stride_pos : 1 <= stride.
Proof. nia. Qed.

Lemma thread_loop_visits (fuel : nat) (id : Z) (o : list R) :
  0 <= id -> Z.max 0 (bound - id) < Z.of_nat fuel ->
  length o = length out ->
  ∃ o', thread_loop fuel bound stride body id o = Some o'
        ∧ length o' = length out
        ∧ ∀ i : nat,
            (id <= Z.of_nat i < bound ∧ (Z.of_nat i - id) mod stride = 0 ->
             o' !! i = Some (g (Z.of_nat i)))
            ∧ (¬ (id <= Z.of_nat i < bound
                  ∧ (Z.of_nat i - id) mod stride = 0) ->
               o' !! i = o !! i).
Proof.
  pose proof stride_pos as Hs.
  revert id o. induction fuel as [|fuel IH]; intros id o Hid Hfuel Hlo;
    [lia|].
  cbn [thread_loop]. destruct (Z.ltb_spec id bound) as [Hlt|Hge].
  - rewrite Hbody by lia. cbn [mbind option_bind]. unfold write.
    rewrite decide_True by lia. cbn [mbind option_bind].
    rewrite (to_uint32_small id), (to_uint32_small (id + stride)),
      (to_int32_small (id + stride)) by lia.
    destruct (IH (id + stride) (<[Z.to_nat id := g id]> o))
      as (o' & Hrun & Hlo' & Hvis);
      [lia | lia | by rewrite length_insert |].
    exists o'. split; [done|]. split; [done|]. intros i.
    destruct (Hvis i) as [Hin Hout]. clear Hvis.
    destruct (decide (Z.of_nat i = id)) as [Hi|Hi].
    + split; [|intros Hn; exfalso; apply Hn; subst id;
                 rewrite Z.sub_diag, Z.mod_0_l; lia].
      intros _. rewrite Hout by lia. subst id. rewrite Nat2Z.id.
      apply list_lookup_insert_eq. lia.
    + assert (Hmod : (Z.of_nat i - (id + stride)) mod stride
                     = (Z.of_nat i - id) mod stride).
      { replace (Z.of_nat i - (id + stride))
          with (Z.of_nat i - id + (-1) * stride) by ring.
        apply Z_mod_plus_full. }
      assert (Hfar : id <= Z.of_nat i -> (Z.of_nat i - id) mod stride = 0 ->
                     id + stride <= Z.of_nat i).
      { intros Hle H0.
        pose proof (Z.div_mod (Z.of_nat i - id) stride ltac:(lia)) as Hdm.
        rewrite H0 in Hdm.
        set (q := (Z.of_nat i - id) / stride) in *.
        destruct (decide (q <= 0)); nia. }
      split.
      * intros [Hr H0]. apply Hin. rewrite Hmod. split; [|done].
        specialize (Hfar ltac:(lia) H0). lia.
      * intros Hn. rewrite Hout.
        -- apply list_lookup_insert_ne. lia.
        -- rewrite Hmod. intros [Hr H0]. apply Hn. split; [lia|done].
  - exists o. split; [done|]. split; [done|]. intros i. split; [lia|done].
Qed.

#[local] Abbreviation seen := (visited stride bound g out).

Lemma visited_ext (S S' : Z -> Prop) acc :
  (∀ x, S x ↔ S' x) -> seen S acc -> seen S' acc.
Proof.
  intros HS (o & -> & Hlo & Hvis). exists o. split; [done|]. split; [done|].
  intros i. destruct (Hvis i) as [Hin Hout]. split.
  - intros [? ?]. apply Hin. split; [done|]. by apply HS.
  - intros Hn. apply Hout. intros [? ?]. apply Hn. split; [done|].
    by apply HS.
Qed.

Lemma first_index_remainder (id : Z) (i : nat) :
  0 <= id < stride ->
  (id <= Z.of_nat i ∧ (Z.of_nat i - id) mod stride = 0)
  ↔ Z.of_nat i mod stride = id.
Proof.
  pose proof stride_pos as Hs. intros Hid. split.
  - intros [Hle H0].
    pose proof (Z.div_mod (Z.of_nat i - id) stride ltac:(lia)) as Hdm.
    rewrite H0 in Hdm.
    replace (Z.of_nat i)
      with (id + (Z.of_nat i - id) / stride * stride) by lia.
    rewrite Z_mod_plus_full. apply Z.mod_small. lia.
  - intros Hr.
    pose proof (Z.div_mod (Z.of_nat i) stride ltac:(lia)) as Hdm.
    assert (0 <= Z.of_nat i / stride) by (apply Z.div_pos; lia).
    split; [nia|].
    replace (Z.of_nat i - id) with (Z.of_nat i / stride * stride) by lia.
    apply Z_mod_mult.
Qed.

Lemma thread_visits (S : Z -> Prop) acc (id : Z) :
  0 <= id < stride -> seen S acc ->
  seen (λ x, S x ∨ x = id)
    (o ← acc; thread_loop (Z.to_nat bound + 1) bound stride body id o).
Proof.
  intros Hid (o & -> & Hlo & Hvis). cbn [mbind option_bind].
  destruct (thread_loop_visits (Z.to_nat bound + 1) id o)
    as (o' & -> & Hlo' & Hvis'); [lia | lia | done |].
  exists o'. split; [done|]. split; [done|]. intros i.
  destruct (Hvis i) as [Hin Hout], (Hvis' i) as [Hin' Hout'].
  pose proof (first_index_remainder id i Hid) as Hrem.
  destruct (decide (Z.of_nat i < bound ∧ Z.of_nat i mod stride = id))
    as [[Hb Hr]|Hno].
  - split; [|intros Hn; exfalso; apply Hn; auto].
    intros _. apply Hin'. apply Hrem in Hr. lia.
  - assert (Hkeep : o' !! i = o !! i).
    { apply Hout'. intros [Hr H0]. apply Hno. split; [lia|].
      apply Hrem. split; [lia|done]. }
    rewrite Hkeep. split.
    + intros [Hb [HS|Hr]]; [by apply Hin|]. exfalso. by apply Hno.
    + intros Hn. apply Hout. intros [Hb HS]. apply Hn. auto.
Qed.

Lemma first_index_small (b t : Z) :
  0 <= b < gridDim -> 0 <= t < blockDim ->
  0 <= b * blockDim + t < stride
  ∧ to_int32 (to_uint32 (to_uint32 (b * blockDim) + t)) = b * blockDim + t.
Proof.
  intros Hb Ht. pose proof stride_pos.
  assert (0 <= b * blockDim) by (apply Z.mul_nonneg_nonneg; lia).
  assert (b * blockDim + t < stride) by nia.
  split; [lia|].
  by rewrite (to_uint32_small (b * blockDim)), to_uint32_small,
    to_int32_small by lia.
Qed.

Lemma block_visits (S : Z -> Prop) acc (b : Z) (ts : list Z) :
  0 <= b < gridDim -> Forall (λ t, 0 <= t < blockDim) ts ->
  seen S acc ->
  seen (λ x, S x ∨ ∃ t, t ∈ ts ∧ x = b * blockDim + t)
    (foldl (λ acc threadIdx,
              o ← acc;
              thread_loop (Z.to_nat bound + 1) bound
                (to_uint32 stride) body
                (to_int32 (to_uint32 (to_uint32 (b * blockDim) + threadIdx)))
                o)
           acc ts).
Proof.
  intros Hb Hts. revert S acc.
  induction Hts as [|t ts Ht Hts IH]; intros S acc Hacc.
  - eapply visited_ext; [|exact Hacc]. intros x. split; [auto|].
    intros [?|(t & Ht & _)]; [done|]. by apply elem_of_nil in Ht.
  - cbn [foldl].
    destruct (first_index_small b t Hb Ht) as [Hid Hfirst].
    rewrite Hfirst, to_uint32_small by (pose proof stride_pos; lia).
    pose proof (thread_visits S acc _ Hid Hacc) as Hstep.
    apply IH in Hstep.
    rewrite to_uint32_small in Hstep by (pose proof stride_pos; lia).
    eapply visited_ext; [|exact Hstep]. intros x. split.
    + intros [[HS| ->]|(t' & Ht' & ->)].
      * by left.
      * right. exists t. split; [by left|done].
      * right. exists t'. split; [by right|done].
    + intros [HS|(t' & Ht' & ->)]; [by left; left|].
      apply elem_of_cons in Ht' as [->|Ht']; [by left; right|].
      right. by exists t'.
Qed.

Lemma grid_visits (S : Z -> Prop) acc (bs : list Z) :
  Forall (λ b, 0 <= b < gridDim) bs ->
  seen S acc ->
  seen (λ x, S x ∨ ∃ b t, b ∈ bs ∧ 0 <= t < blockDim
                             ∧ x = b * blockDim + t)
    (foldl (λ acc blockIdx,
              foldl (λ acc threadIdx,
                       o ← acc;
                       thread_loop (Z.to_nat bound + 1) bound
                         (to_uint32 stride) body
                         (to_int32
                            (to_uint32 (to_uint32 (blockIdx * blockDim)
                                        + threadIdx)))
                         o)
                    acc (seqZ 0 blockDim))
           acc bs).
Proof.
  intros Hbs. revert S acc.
  induction Hbs as [|b bs Hb Hbs IH]; intros S acc Hacc.
  - eapply visited_ext; [|exact Hacc]. intros x. split; [auto|].
    intros [?|(b & t & Hb & _)]; [done|]. by apply elem_of_nil in Hb.
  - cbn [foldl].
    pose proof (block_visits S acc b (seqZ 0 blockDim) Hb) as Hstep.
    specialize (Hstep ltac:(apply Forall_forall; intros t Ht;
                            apply elem_of_seqZ in Ht; lia) Hacc).
    apply IH in Hstep.
    eapply visited_ext; [|exact Hstep]. intros x. split.
    + intros [[HS|(t & Ht & ->)]|(b' & t & Hb' & Ht & ->)].
      * by left.
      * right. exists b, t. split; [by left|].
        apply elem_of_seqZ in Ht. split; [lia|done].
      * right. exists b', t. split; [by right|done].
    + intros [HS|(b' & t & Hb' & Ht & ->)]; [by left; left|].
      apply elem_of_cons in Hb' as [->|Hb'].
      * left. right. exists t. split; [|done]. apply elem_of_seqZ. lia.
      * right. by exists b', t.
Qed.

Lemma grid_stride_elementwise :
  schedule P gridDim ≡ₚ seqZ 0 gridDim ->
  grid_stride P gridDim blockDim bound body out
  = Some (elementwise g bound out).
Proof.
  intros Hsched. pose proof stride_pos as Hs. unfold grid_stride. cbv zeta.
  pose proof (grid_visits (λ _, False) (Some out) (schedule P gridDim)) as H.
  destruct H as (o & Hrun & Hlo & Hvis).
  - apply Forall_forall. intros b Hb. rewrite Hsched in Hb.
    apply elem_of_seqZ in Hb. lia.
  - exists out. split; [done|]. split; [done|]. intros i.
    split; [by intros [_ []]|done].
  - rewrite Hrun. f_equal. apply list_eq. intros i.
    rewrite elementwise_list_lookup by lia.
    destruct (Hvis i) as [Hin Hout].
    destruct (decide (Z.of_nat i < bound)) as [Hi|Hi].
    + apply Hin. split; [done|]. right.
      pose proof (Z.mod_pos_bound (Z.of_nat i) stride ltac:(lia)) as Hr.
      set (x := Z.of_nat i mod stride) in *.
      pose proof (Z.div_mod x blockDim ltac:(lia)) as Hdm.
      pose proof (Z.mod_pos_bound x blockDim ltac:(lia)) as Ht.
      exists (x / blockDim), (x mod blockDim).
      split; [|split; [lia|lia]].
      rewrite Hsched. apply elem_of_seqZ.
      split; [apply Z.div_pos; lia|].
      rewrite Z.add_0_l. apply Z.div_lt_upper_bound; lia.
    + apply Hout. intros [? _]. lia.
Qed.

End grid_stride_correct.

(** The grid of [ceil(N / 1024.)] blocks of 1024 threads. *)
Lemma ceil_div_1024_grid (N : Z) :
  1 <= N <= 2 ^ 30 ->
  ceil_div_1024 N = (N + 1023) / 1024
  ∧ launch_valid (ceil_div_1024 N) 1024 = true
  ∧ 1 <= (N + 1023) / 1024
  ∧ N + 1024 * ((N + 1023) / 1024) <= 2 ^ 31.
Proof.
  intros HN.
  pose proof (Z.div_mod (N + 1023) 1024 ltac:(lia)) as Hdm.
  pose proof (Z.mod_pos_bound (N + 1023) 1024 ltac:(lia)) as Hmod.
  assert (Hq : 1 <= (N + 1023) / 1024 <= 2 ^ 20) by lia.
  unfold ceil_div_1024. rewrite to_uint32_small by lia.
  split; [done|]. split; [|lia].
  unfold launch_valid.
  repeat (apply andb_true_intro; split); first [apply Z.leb_le | apply Z.ltb_lt];
    lia.
Qed.

Lemma ceil_div_1024_zero : launch_valid (ceil_div_1024 0) 1024 = false.
Proof. done. Qed.

Lemma identity_kernel_elementwise P T inp out n :
  1 <= n <= 2 ^ 30 ->
  n <= Z.of_nat (length inp) -> n <= Z.of_nat (length out) ->
  schedule P ((n + 1023) / 1024) ≡ₚ seqZ 0 ((n + 1023) / 1024) ->
  identity_kernel P T inp out n ((n + 1023) / 1024) 1024
  = Some (elementwise (λ id, cast P T (nth_R inp id)) n out).
Proof.
  intros Hn Hi Ho Hsched. unfold identity_kernel.
  destruct (ceil_div_1024_grid n Hn) as (_ & _ & Hg & Hw).
  apply grid_stride_elementwise; try lia; [|done].
  intros id Hid. by rewrite read_Some by lia.
Qed.


Lemma imap_zero_fill (f : Z -> R) (n : Z) (rest : list R) :
  0 <= n ->
  imap (λ c old, if Z.of_nat c <? n then (old + f (Z.of_nat c))%R else old)
       (replicate (Z.to_nat n) 0%R ++ rest)
  = (f <$> seqZ 0 n) ++ rest.
Proof.
  intros Hn. apply list_eq. intros i. rewrite list_lookup_imap.
  destruct (decide (i < Z.to_nat n)%nat).
  - rewrite !lookup_app_l
      by (rewrite ?length_replicate, ?length_fmap, ?length_seqZ; lia).
    rewrite lookup_replicate_2, list_lookup_fmap, lookup_seqZ_lt by lia.
    simpl. destruct (Z.ltb_spec (Z.of_nat i) n); [|lia].
    f_equal. rewrite Z.add_0_l. lra.
  - rewrite !lookup_app_r
      by (rewrite ?length_replicate, ?length_fmap, ?length_seqZ; lia).
    rewrite length_replicate, length_fmap, length_seqZ.
    destruct (rest !! _) as [x|]; [|done]. simpl.
    destruct (Z.ltb_spec (Z.of_nat i) n); [lia|done].
Qed.

(** ** The launcher of the reduction *)

Lemma wp_load_Some p mem b Q :
  mem !! p = Some b -> Q (Ok b) mem [] -> wp (load p) mem Q.
Proof. intros H HQ. apply wp_load; rewrite H; [by intros ? [= <-]|done]. Qed.

Lemma column_sums_no_rows (inp : list R) (n : Z) :
  column_sums inp 0 n = replicate (Z.to_nat n) 0%R.
Proof.
  apply list_eq. intros i. unfold column_sums.
  rewrite list_lookup_fmap.
  destruct (decide (i < Z.to_nat n)%nat).
  - by rewrite lookup_seqZ_lt, lookup_replicate_2 by lia.
  - rewrite lookup_seqZ_ge by lia. symmetry. apply lookup_replicate_None. lia.
Qed.

Lemma wp_bias_gradient_launcher P pin pout m n stream mem Q inp out BPC :
  lib_status P S_hipMemset = true ->
  mem !! pin = Some inp -> mem !! pout = Some out -> pin ≠ pout ->
  BLOCKS_PER_COL 1024 m = BPC ->
  0 <= m < 2 ^ 31 -> 0 <= n < 2 ^ 31 ->
  0 <= BPC -> (BPC - 1) * 1024 < m -> BPC * 1024 * n < 2 ^ 31 ->
  Z.min m (BPC * 1024) * n <= Z.of_nat (length inp) ->
  n <= Z.of_nat (length out) ->
  schedule P (BPC * n) ≡ₚ seqZ 0 (BPC * n) ->
  Q (Ok tt)
    (<[pout := column_sums inp (Z.min m (BPC * 1024)) n
               ++ drop (Z.to_nat n) out]> mem)
    [EvMemset pout; EvLaunch K_bias_gradient stream pout] ->
  wp (bias_gradient_kernelLauncher P pin pout m n stream) mem Q.
Proof.
  intros Hst Hin Hout Hne HBPC Hm Hn H0 Hlast Hgrid Hlen Hlo Hsched HQ.
  unfold bias_gradient_kernelLauncher. cbv zeta. rewrite HBPC.
  assert (0 <= BPC * n) by (apply Z.mul_nonneg_nonneg; lia).
  assert (BPC * n * 1 <= BPC * n * 1024)
    by (apply Z.mul_le_mono_nonneg_l; lia).
  assert (BPC * n * 1024 = BPC * 1024 * n) by ring.
  rewrite (to_int32_small (BPC * n)), to_uint32_small by lia.
  apply wp_bind, wp_check_cuda; [intros _|congruence].
  apply wp_bind, (wp_load_Some _ _ out); [done|].
  apply wp_bind, wp_emit, wp_bind.
  unfold zero_fill. rewrite float_elems_small, decide_True by lia.
  apply wp_store.
  destruct (decide (1 <= BPC * n)) as [Hvalid|Hinvalid].
  - replace (launch_valid (BPC * n) 1024) with true
      by (symmetry; unfold launch_valid;
          repeat (apply andb_true_intro; split);
          first [apply Z.leb_le | apply Z.ltb_lt]; lia).
    apply wp_bind, (wp_load_Some _ _ inp); [by rewrite lookup_insert_ne|].
    eapply wp_bind, wp_load_Some; [by rewrite lookup_insert_eq|].
    apply wp_bind, wp_emit.
    rewrite (bias_gradient_kernel_spec P 1024 m n inp BPC) by
      (first [done | lia
             | rewrite length_app, length_replicate, length_drop; lia]).
    apply wp_store. rewrite insert_insert_eq, imap_zero_fill by lia.
    exact HQ.
  - replace (launch_valid (BPC * n) 1024) with false
      by (symmetry; unfold launch_valid;
          replace (1 <=? BPC * n) with false
            by (symmetry; apply Z.leb_gt; lia);
          by rewrite !andb_false_r).
    apply wp_emit.
    assert (Hzero : column_sums inp (Z.min m (BPC * 1024)) n
                    = replicate (Z.to_nat n) 0%R).
    { destruct (decide (n = 0)) as [->|Hn0]; [done|].
      assert (BPC = 0) as -> by nia.
      rewrite Z.min_r by lia. apply column_sums_no_rows. }
    by rewrite <- Hzero.
Qed.

(** A launcher whose configuration the device refuses leaves the memory
    as it is. *)
Lemma insert_unchanged (mem : gmap Z (list R)) p f out :
  mem !! p = Some out -> <[p := elementwise f 0 out]> mem = mem.
Proof. intros H. by rewrite elementwise_zero, insert_id. Qed.

Lemma wp_identity_launcher_elementwise P T pin pout n stream mem Q inp out :
  (∀ g, schedule P g ≡ₚ seqZ 0 g) ->
  mem !! pin = Some inp -> mem !! pout = Some out ->
  0 <= n <= 2 ^ 30 ->
  n <= Z.of_nat (length inp) -> n <= Z.of_nat (length out) ->
  Q (Ok tt)
    (<[pout := elementwise (λ id, cast P T (nth_R inp id)) n out]> mem)
    [EvLaunch K_identity stream pout] ->
  wp (identity_kernelLauncher P T pin pout n stream) mem Q.
Proof.
  intros Hsched Hin Hout Hn Hi Ho HQ. unfold identity_kernelLauncher.
  cbv zeta. destruct (decide (n = 0)) as [->|Hn0].
  - rewrite ceil_div_1024_zero. apply wp_emit.
    by rewrite insert_unchanged in HQ.
  - destruct (ceil_div_1024_grid n ltac:(lia)) as (-> & -> & _).
    apply wp_bind, (wp_load_Some _ _ inp); [done|].
    apply wp_bind, (wp_load_Some _ _ out); [done|].
    apply wp_bind, wp_emit.
    rewrite identity_kernel_elementwise by (first [lia | apply Hsched]).
    by apply wp_store.
Qed.


Lemma wp_hipFree P p mem Q :
  lib_status P S_hipFree = true ->
  Q (Ok tt) (delete p mem) [EvFree p] -> wp (hipFree P p) mem Q.
Proof.
  intros Hs HQ. unfold hipFree.
  apply wp_bind, wp_check_cuda; [intros _|congruence].
  by apply wp_bind, wp_get_mem, wp_bind, wp_put_mem, wp_emit.
Qed.

Lemma wp_hipDeviceSynchronize P mem Q :
  lib_status P S_hipDeviceSynchronize = true ->
  Q (Ok tt) mem [EvSync] -> wp (hipDeviceSynchronize P) mem Q.
Proof.
  intros Hs HQ. unfold hipDeviceSynchronize.
  apply wp_bind, wp_check_cuda; [intros _|congruence]. by apply wp_emit.
Qed.

(** ** The bias-only gradient call, step by step *)

Lemma float_elems_product a b :
  0 <= a < 2 ^ 31 -> 0 <= b < 2 ^ 31 -> float_elems a b = a * b.
Proof.
  intros Ha Hb. unfold float_elems.
  rewrite (Z.mod_small (4 * a)) by lia.
  assert (0 <= a * b) by (apply Z.mul_nonneg_nonneg; lia).
  assert (a * b <= (2 ^ 31 - 1) * (2 ^ 31 - 1))
    by (apply Z.mul_le_mono_nonneg; lia).
  rewrite Z.mod_small by lia.
  replace (4 * a * b) with (a * b * 4) by ring. apply Z.div_mul. lia.
Qed.

Lemma column_sums_length b k n : 0 <= n -> length (column_sums b k n) = Z.to_nat n.
Proof. intros. unfold column_sums. by rewrite length_fmap, length_seqZ. Qed.

Lemma gemm_written_length P call a b c :
  length (Rocblas.gemm_written P call a b c) = length c.
Proof. apply length_imap. Qed.

Lemma wp_rocblas_gemm_ok P call A B D_temp mem Q a b c :
  (∀ s, lib_status P s = true) ->
  mem !! A = Some a -> mem !! B = Some b -> mem !! D_temp = Some c ->
  Q (Ok tt) (<[D_temp := Rocblas.gemm_written P call a b c]> mem)
    [EvGemm Rocblas.handle_stream D_temp] ->
  wp (Rocblas.rocblas_gemm P call A B D_temp) mem Q.
Proof.
  intros Hs Ha Hb Hc HQ. unfold Rocblas.rocblas_gemm.
  apply wp_bind, wp_check_cublas; [intros _|by rewrite Hs].
  apply wp_bind, (wp_load_Some _ _ a); [done|].
  apply wp_bind, (wp_load_Some _ _ b); [done|].
  apply wp_bind, (wp_load_Some _ _ c); [done|].
  by apply wp_bind, wp_emit, wp_store.
Qed.

Lemma wp_hipMalloc_ok P elems mem Q :
  (∀ s, lib_status P s = true) ->
  (∀ p, p ≠ 0 -> (∀ q, is_Some (mem !! q) -> p ≠ q) ->
     Q (Ok p) (<[p := replicate (Z.to_nat elems) (uninit P)]> mem)
       [EvMalloc p elems]) ->
  wp (hipMalloc P elems) mem Q.
Proof.
  intros Hs HQ. apply wp_hipMalloc; [intros _ p|by rewrite Hs].
  apply HQ; [by apply fresh_pointer; left|].
  intros q Hq. by apply fresh_pointer; right.
Qed.

Ltac closed_if :=
  lazymatch goal with
  | |- wp (if ?c then ?x else ?y) ?mm ?Q =>
      let v := eval vm_compute in c in
      lazymatch v with
      | true => change (wp x mm Q)
      | false => change (wp y mm Q)
      end
  end.



(** ** The bias gradient of the emulated path *)

Ltac status_ok :=
  match goal with
  | Hs : ∀ s, lib_status _ s = true, H : lib_status _ _ = false |- _ =>
      rewrite Hs in H; discriminate H
  end.




(** ** The reduction up to 2^24 rows *)

Lemma nth_R_fmap_seqZ (f : Z -> R) (n c : Z) (rest : list R) :
  0 <= c < n -> nth_R ((f <$> seqZ 0 n) ++ rest) c = f c.
Proof.
  intros Hc. unfold nth_R, read. rewrite decide_True by lia.
  rewrite lookup_app_l by (rewrite length_fmap, length_seqZ; lia).
  rewrite list_lookup_fmap, lookup_seqZ_lt by lia. simpl.
  f_equal. lia.
Qed.

Lemma column_sum_succ (inp : list R) (r n c : Z) :
  0 <= r ->
  column_sum inp (r + 1) n c
  = (column_sum inp r n c + nth_R inp (r * n + c))%R.
Proof.
  intros Hr. unfold column_sum. fold (Rsum).
  rewrite seqZ_app, fmap_app, Rsum_app by lia.
  change (seqZ (0 + r) 1) with [0 + r]. cbn [fmap list_fmap].
  rewrite Rsum_cons, Z.add_0_l. unfold Rsum. simpl. ring.
Qed.

(** With at most 2^24 rows the launcher zeroes the first [n] entries of
    the destination and leaves in them the column sums over all [m]
    rows, in whatever order the blocks run. *)
Lemma bias_gradient_launcher_column_sums (P : platform) (pin pout m n stream : Z)
    (mem : gmap Z (list R)) (inp out : list R) :
  lib_status P S_hipMemset = true ->
  schedule P ((m + 1023) / 1024 * n) ≡ₚ seqZ 0 ((m + 1023) / 1024 * n) ->
  mem !! pin = Some inp -> mem !! pout = Some out -> pin ≠ pout ->
  0 <= m <= 2 ^ 24 -> 0 <= n < 2 ^ 31 ->
  (m + 1023) / 1024 * 1024 * n < 2 ^ 31 ->
  m * n <= Z.of_nat (length inp) -> n <= Z.of_nat (length out) ->
  let run := bias_gradient_kernelLauncher P pin pout m n stream mem in
  result_of run = Ok tt
  ∧ memory_of run !! pout
    = Some (column_sums inp m n ++ drop (Z.to_nat n) out).
Proof.
  intros Hst Hsched Hin Hout Hne Hm Hn Hgrid Hli Hlo run. subst run.
  match goal with |- context [result_of (?run mem)] =>
    change (wp run mem (λ r mem' _,
      r = Ok tt
      ∧ mem' !! pout = Some (column_sums inp m n ++ drop (Z.to_nat n) out)))
  end.
  pose proof (Z.div_mod (m + 1023) 1024 ltac:(lia)) as Hdm.
  pose proof (Z.mod_pos_bound (m + 1023) 1024 ltac:(lia)) as Hmod.
  assert (Hmin : Z.min m ((m + 1023) / 1024 * 1024) = m) by lia.
  apply (wp_bias_gradient_launcher P pin pout m n stream mem _ inp out
           ((m + 1023) / 1024));
    [ exact Hst | exact Hin | exact Hout | exact Hne
    | by apply BLOCKS_PER_COL_exact
    | lia | lia | lia | lia | lia | rewrite Hmin; lia | lia | exact Hsched | ].
  rewrite Hmin. split; [reflexivity|apply lookup_insert_eq].
Qed.

(** On the pattern in which every entry holds its row index, a column
    sums to [rows * (rows - 1) / 2]. *)
Lemma column_sum_row_index (inp : list R) (rows n c : Z) :
  0 <= rows ->
  (∀ r, 0 <= r < rows -> nth_R inp (r * n + c) = IZR r) ->
  column_sum inp rows n c = IZR (rows * (rows - 1) / 2).
Proof.
  intros Hrows. revert rows Hrows.
  apply (natlike_ind (λ rows,
    (∀ r, 0 <= r < rows -> nth_R inp (r * n + c) = IZR r) ->
    column_sum inp rows n c = IZR (rows * (rows - 1) / 2))).
  - intros _. reflexivity.
  - intros r Hr IH Hpat. unfold Z.succ.
    rewrite column_sum_succ, IH, Hpat by (first [lia | intros; apply Hpat; lia]).
    rewrite <- plus_IZR. f_equal.
    replace ((r + 1) * (r + 1 - 1)) with (r * (r - 1) + r * 2) by ring.
    by rewrite Z.div_add by lia.
Qed.

(** ** The reduction past 2^24 rows *)

Lemma column_sums_short (inp : list R) (r n c : Z) (rest : list R) :
  0 <= r -> 0 <= c < n ->
  nth_R (column_sums inp r n ++ rest) c
  = (column_sum inp (r + 1) n c - nth_R inp (r * n + c))%R.
Proof.
  intros Hr Hc. unfold column_sums. rewrite nth_R_fmap_seqZ by lia.
  rewrite column_sum_succ by lia. ring.
Qed.

(** C5.  On a matrix of 2^24 + 1 rows and n < 128 columns the launcher
    returns normally and every column of the destination holds the sum
    of the first 2^24 rows only: the column sum over all rows less the
    entry of the last row. *)
Theorem bias_gradient_drops_last_row (P : platform) (pin pout n stream : Z)
    (mem : gmap Z (list R)) (inp out : list R) :
  lib_status P S_hipMemset = true ->
  schedule P (16384 * n) ≡ₚ seqZ 0 (16384 * n) ->
  mem !! pin = Some inp -> mem !! pout = Some out -> pin ≠ pout ->
  0 < n < 128 ->
  16777217 * n <= Z.of_nat (length inp) -> n <= Z.of_nat (length out) ->
  let run := bias_gradient_kernelLauncher P pin pout 16777217 n stream mem in
  ∃ out',
    result_of run = Ok tt
    ∧ memory_of run !! pout = Some out'
    ∧ ∀ c, 0 <= c < n ->
        nth_R out' c
        = (column_sum inp 16777217 n c - nth_R inp (16777216 * n + c))%R.
Proof.
  intros Hst Hsched Hin Hout Hne Hn Hli Hlo run. subst run.
  match goal with |- context [result_of (?run mem)] =>
    change (wp run mem (λ r mem' _, ∃ out',
      r = Ok tt ∧ mem' !! pout = Some out'
      ∧ ∀ j, 0 <= j < n ->
          nth_R out' j
          = (column_sum inp 16777217 n j
             - nth_R inp (16777216 * n + j))%R))
  end.
  apply (wp_bias_gradient_launcher P pin pout 16777217 n stream mem _ inp out
           16384);
    [ exact Hst | exact Hin | exact Hout | exact Hne
    | apply BLOCKS_PER_COL_16777217
    | lia | lia | lia | lia | lia | lia | lia | exact Hsched | ].
  eexists. split; [reflexivity|]. split; [apply lookup_insert_eq|].
  intros c Hc.
  exact (column_sums_short inp 16777216 n c _ ltac:(lia) Hc).
Qed.

Lemma bias_gradient_drops_last_row_witness :
  ∃ out',
    result_of (bias_gradient_kernelLauncher reference_platform 1 2 16777217 1 0
                 long_column_memory) = Ok tt
    ∧ memory_of (bias_gradient_kernelLauncher reference_platform 1 2 16777217 1
                   0 long_column_memory) !! 2 = Some out'
    ∧ ∀ c, 0 <= c < 1 ->
        nth_R out' c
        = (column_sum long_column 16777217 1 c
           - nth_R long_column (16777216 * 1 + c))%R.
Proof.
  apply (bias_gradient_drops_last_row reference_platform 1 2 1 0
           long_column_memory long_column [0%R]).
  - reflexivity.
  - reflexivity.
  - reflexivity.
  - reflexivity.
  - discriminate.
  - lia.
  - unfold long_column. rewrite length_replicate. lia.
  - simpl. lia.
Defined.

(** ** Elementwise kernels, one by one *)

Section elementwise_kernels.

Context (P : platform) (gridDim blockDim : Z).
Context (Hblock : 1 <= blockDim) (Hgrid : 1 <= gridDim).
Context (Hsched : schedule P gridDim ≡ₚ seqZ 0 gridDim).

Lemma gelu_forward_kernel_spec T inp out m n :
  0 <= m * n -> m * n + blockDim * gridDim <= 2 ^ 31 ->
  m * n <= Z.of_nat (length inp) -> m * n <= Z.of_nat (length out) ->
  gelu_forward_kernel P T inp out m n gridDim blockDim
  = Some (elementwise (λ id, cast P T (gelu_forward (nth_R inp id))) (m * n)
      out).
Proof.
  intros Hmn Hw Hi Ho. unfold gelu_forward_kernel.
  rewrite to_int32_small by nia.
  apply grid_stride_elementwise; try done.
  intros id Hid. by rewrite read_Some by lia.
Qed.

Lemma gelu_backward_kernel_spec Tin T dy out pre m n (dx : Z -> R) :
  0 <= m * n -> m * n + blockDim * gridDim <= 2 ^ 31 ->
  m * n <= Z.of_nat (length dy) -> m * n <= Z.of_nat (length pre) ->
  m * n <= Z.of_nat (length out) ->
  (∀ id, 0 <= id < m * n ->
     gelu_backward (cast P Tin (nth_R pre id)) (nth_R dy id)
     = Finite (dx id)) ->
  gelu_backward_kernel P Tin T dy out pre m n gridDim blockDim
  = Some (elementwise (λ id, cast P T (cast P Tin (dx id))) (m * n) out).
Proof.
  intros Hmn Hw Hd Hp Ho Hfin. unfold gelu_backward_kernel.
  rewrite to_int32_small by nia.
  apply grid_stride_elementwise; try done.
  intros id Hid. rewrite !read_Some by lia. cbn [fmap option_fmap option_map
    mbind option_bind]. by rewrite Hfin.
Qed.

Lemma add_bias_kernel_spec Tin T inp out bias m n :
  0 <= m * n -> m * n + blockDim * gridDim <= 2 ^ 31 -> 0 <= n ->
  m * n <= Z.of_nat (length inp) -> m * n <= Z.of_nat (length out) ->
  n <= Z.of_nat (length bias) ->
  add_bias_kernel P Tin T inp out bias m n gridDim blockDim
  = Some (elementwise
            (λ id, cast P T (nth_R inp id + cast P Tin (nth_R bias (id mod n))))
            (m * n) out).
Proof.
  intros Hmn Hw Hn Hi Ho Hb. unfold add_bias_kernel.
  rewrite to_int32_small by nia.
  apply grid_stride_elementwise; try done.
  intros id Hid.
  assert (0 < n) by (destruct (decide (n = 0)) as [->|]; [rewrite Z.mul_0_r in
      Hid|]; lia).
  rewrite Z.rem_mod_nonneg by lia.
  pose proof (Z.mod_pos_bound id n ltac:(lia)).
  by rewrite !read_Some by lia.
Qed.

Lemma add_bias_gelu_kernel_pre_spec Tin T inp pre bias m n :
  0 <= m * n -> m * n + blockDim * gridDim <= 2 ^ 31 -> 0 <= n ->
  m * n <= Z.of_nat (length inp) -> m * n <= Z.of_nat (length pre) ->
  n <= Z.of_nat (length bias) ->
  add_bias_gelu_kernel_pre P Tin T inp pre bias m n gridDim blockDim
  = Some (elementwise
            (λ id, cast P T (nth_R inp id + cast P Tin (nth_R bias (id mod n))))
            (m * n) pre).
Proof.
  intros Hmn Hw Hn Hi Ho Hb. unfold add_bias_gelu_kernel_pre.
  rewrite to_int32_small by nia.
  apply grid_stride_elementwise; try done.
  intros id Hid.
  assert (0 < n) by (destruct (decide (n = 0)) as [->|]; [rewrite Z.mul_0_r in
      Hid|]; lia).
  rewrite Z.rem_mod_nonneg by lia.
  pose proof (Z.mod_pos_bound id n ltac:(lia)).
  by rewrite !read_Some by lia.
Qed.

Lemma add_bias_gelu_kernel_out_spec Tin T inp out bias m n :
  0 <= m * n -> m * n + blockDim * gridDim <= 2 ^ 31 -> 0 <= n ->
  m * n <= Z.of_nat (length inp) -> m * n <= Z.of_nat (length out) ->
  n <= Z.of_nat (length bias) ->
  add_bias_gelu_kernel_out P Tin T inp out bias m n gridDim blockDim
  = Some (elementwise
            (λ id, cast P T (gelu_forward
                     (nth_R inp id + cast P Tin (nth_R bias (id mod n)))))
            (m * n) out).
Proof.
  intros Hmn Hw Hn Hi Ho Hb. unfold add_bias_gelu_kernel_out.
  rewrite to_int32_small by nia.
  apply grid_stride_elementwise; try done.
  intros id Hid.
  assert (0 < n) by (destruct (decide (n = 0)) as [->|]; [rewrite Z.mul_0_r in
      Hid|]; lia).
  rewrite Z.rem_mod_nonneg by lia.
  pose proof (Z.mod_pos_bound id n ltac:(lia)).
  by rewrite !read_Some by lia.
Qed.

End elementwise_kernels.

(** ** Launchers of the elementwise kernels *)

(** The configuration of the two activation launchers: [min(m *
    blocks_per_row, 65536)] blocks of [min(n, 1024)] threads. *)
Lemma gelu_launch_configuration (m n : Z) :
  1 <= m -> 1 <= n <= 2 ^ 24 -> m * n <= 2 ^ 31 - 2 ^ 26 ->
  let grid := Z.min (m * ((n + 1023) / 1024)) 65536 in
  let block := Z.min n 1024 in
  to_uint32 (Z.min (to_int32 (m * blocks_per_row n)) 65536) = grid
  ∧ to_uint32 (Z.min n 1024) = block
  ∧ launch_valid grid block = true
  ∧ 1 <= block ∧ 1 <= grid ∧ m * n + block * grid <= 2 ^ 31.
Proof.
  intros Hm Hn Hmn grid block.
  replace (blocks_per_row n) with ((n + 1023) / 1024)
    by (symmetry; apply (BLOCKS_PER_COL_exact n); lia).
  pose proof (Z.div_mod (n + 1023) 1024 ltac:(lia)) as Hdm.
  pose proof (Z.mod_pos_bound (n + 1023) 1024 ltac:(lia)) as Hmod.
  set (q := (n + 1023) / 1024) in *.
  assert (Hq : 1 <= q <= n) by lia.
  assert (Hmq : 1 <= m * q <= m * n) by nia.
  rewrite (to_int32_small (m * q)) by lia. fold grid.
  assert (Hg : 1 <= grid <= 65536) by (unfold grid; lia).
  assert (Hb : 1 <= block <= 1024) by (unfold block; lia).
  assert (Hgb : block * grid <= 2 ^ 26) by nia.
  rewrite !to_uint32_small by lia.
  split; [done|]. split; [done|]. split; [|lia].
  unfold launch_valid.
  repeat (apply andb_true_intro; split);
    first [apply Z.leb_le | apply Z.ltb_lt]; lia.
Qed.

Lemma gelu_launch_refused (m n : Z) :
  0 <= m -> 0 <= n <= 2 ^ 24 -> m * n = 0 ->
  launch_valid (to_uint32 (Z.min (to_int32 (m * blocks_per_row n)) 65536))
               (to_uint32 (Z.min n 1024)) = false.
Proof.
  intros Hm Hn Hmn. destruct (decide (n = 0)) as [->|Hn0].
  - unfold launch_valid. change (1 <=? to_uint32 (Z.min 0 1024)) with false.
    reflexivity.
  - assert (m = 0) as -> by nia. unfold launch_valid.
    change (1 <=? to_uint32 (Z.min (to_int32 (0 * blocks_per_row n)) 65536))
      with false.
    by rewrite andb_false_r.
Qed.

Lemma launch_valid_true (grid block : Z) :
  1 <= block <= 1024 -> 1 <= grid <= 2 ^ 31 - 1 -> grid * block < 2 ^ 32 ->
  launch_valid grid block = true.
Proof.
  intros Hb Hg Hgb. unfold launch_valid.
  repeat (apply andb_true_intro; split);
    first [apply Z.leb_le | apply Z.ltb_lt]; lia.
Qed.

Lemma wp_gelu_forward_launcher P T pin pout m n stream mem Q inp out :
  (∀ g, schedule P g ≡ₚ seqZ 0 g) ->
  mem !! pin = Some inp -> mem !! pout = Some out ->
  0 <= m -> 0 <= n <= 2 ^ 24 -> m * n <= 2 ^ 31 - 2 ^ 26 ->
  m * n <= Z.of_nat (length inp) -> m * n <= Z.of_nat (length out) ->
  Q (Ok tt)
    (<[pout := elementwise (λ id, cast P T (gelu_forward (nth_R inp id)))
                 (m * n) out]> mem)
    [EvLaunch K_gelu_forward stream pout] ->
  wp (gelu_forward_kernelLauncher P T pin pout m n stream) mem Q.
Proof.
  intros Hsched Hin Hout Hm Hn Hmn Hi Ho HQ.
  unfold gelu_forward_kernelLauncher. cbv zeta.
  destruct (decide (m * n = 0)) as [Hz|Hnz].
  - rewrite gelu_launch_refused by lia. apply wp_emit.
    by rewrite Hz, insert_unchanged in HQ.
  - destruct (gelu_launch_configuration m n) as (-> & -> & -> & Hb & Hg & Hw);
      [nia | nia | lia |].
    apply wp_bind, (wp_load_Some _ _ inp); [done|].
    apply wp_bind, (wp_load_Some _ _ out); [done|].
    apply wp_bind, wp_emit.
    rewrite gelu_forward_kernel_spec by (first [done | nia]).
    by apply wp_store.
Qed.

Lemma wp_gelu_backward_launcher P Tin T pin pout ppre m n stream mem Q
    dy out pre (dx : Z -> R) :
  (∀ g, schedule P g ≡ₚ seqZ 0 g) ->
  mem !! pin = Some dy -> mem !! pout = Some out -> mem !! ppre = Some pre ->
  0 <= m -> 0 <= n <= 2 ^ 24 -> m * n <= 2 ^ 31 - 2 ^ 26 ->
  m * n <= Z.of_nat (length dy) -> m * n <= Z.of_nat (length pre) ->
  m * n <= Z.of_nat (length out) ->
  (∀ id, 0 <= id < m * n ->
     gelu_backward (cast P Tin (nth_R pre id)) (nth_R dy id)
     = Finite (dx id)) ->
  Q (Ok tt)
    (<[pout := elementwise (λ id, cast P T (cast P Tin (dx id)))
                 (m * n) out]> mem)
    [EvLaunch K_gelu_backward stream pout] ->
  wp (gelu_backward_kernelLauncher P Tin T pin pout ppre m n stream) mem Q.
Proof.
  intros Hsched Hin Hout Hpre Hm Hn Hmn Hd Hp Ho Hfin HQ.
  unfold gelu_backward_kernelLauncher. cbv zeta.
  destruct (decide (m * n = 0)) as [Hz|Hnz].
  - rewrite gelu_launch_refused by lia. apply wp_emit.
    by rewrite Hz, insert_unchanged in HQ.
  - destruct (gelu_launch_configuration m n) as (-> & -> & -> & Hb & Hg & Hw);
      [nia | nia | lia |].
    apply wp_bind, (wp_load_Some _ _ dy); [done|].
    apply wp_bind, (wp_load_Some _ _ out); [done|].
    apply wp_bind, (wp_load_Some _ _ pre); [done|].
    apply wp_bind, wp_emit.
    rewrite (gelu_backward_kernel_spec P _ _ Hb Hg (Hsched _) Tin T dy out
               pre m n dx) by (first [done | nia]).
    by apply wp_store.
Qed.

Lemma wp_add_bias_launcher P Tin T pin pout pbias m n stream mem Q
    inp out bias :
  (∀ g, schedule P g ≡ₚ seqZ 0 g) ->
  mem !! pin = Some inp -> mem !! pout = Some out -> mem !! pbias = Some bias ->
  0 <= m * n <= 2 ^ 30 -> 0 <= n ->
  m * n <= Z.of_nat (length inp) -> m * n <= Z.of_nat (length out) ->
  n <= Z.of_nat (length bias) ->
  Q (Ok tt)
    (<[pout := elementwise
                 (λ id, cast P T (nth_R inp id
                                  + cast P Tin (nth_R bias (id mod n))))
                 (m * n) out]> mem)
    [EvLaunch K_add_bias stream pout] ->
  wp (add_bias_kernelLauncher P Tin T pin pout pbias m n stream) mem Q.
Proof.
  intros Hsched Hin Hout Hbias Hmn Hn Hi Ho Hb HQ.
  unfold add_bias_kernelLauncher. cbv zeta.
  rewrite (to_int32_small (m * n)) by lia.
  destruct (decide (m * n = 0)) as [Hz|Hnz].
  - rewrite Hz, ceil_div_1024_zero. apply wp_emit.
    by rewrite Hz, insert_unchanged in HQ.
  - destruct (ceil_div_1024_grid (m * n) ltac:(lia)) as (-> & -> & Hg & Hw).
    apply wp_bind, (wp_load_Some _ _ inp); [done|].
    apply wp_bind, (wp_load_Some _ _ out); [done|].
    apply wp_bind, (wp_load_Some _ _ bias); [done|].
    apply wp_bind, wp_emit.
    rewrite add_bias_kernel_spec by (first [done | lia]).
    by apply wp_store.
Qed.

Lemma wp_add_bias_gelu_launcher P Tin T pin pout ppre pbias m n stream mem Q
    inp out pre bias :
  (∀ g, schedule P g ≡ₚ seqZ 0 g) ->
  mem !! pin = Some inp -> mem !! pout = Some out ->
  mem !! ppre = Some pre -> mem !! pbias = Some bias ->
  0 <= m * n <= 2 ^ 30 -> 0 <= n ->
  m * n <= Z.of_nat (length inp) -> m * n <= Z.of_nat (length out) ->
  m * n <= Z.of_nat (length pre) -> n <= Z.of_nat (length bias) ->
  Q (Ok tt)
    (<[pout := elementwise
                 (λ id, cast P T (gelu_forward
                          (nth_R inp id + cast P Tin (nth_R bias (id mod n)))))
                 (m * n) out]>
       (<[ppre := elementwise
                    (λ id, cast P T (nth_R inp id
                                     + cast P Tin (nth_R bias (id mod n))))
                    (m * n) pre]> mem))
    [EvLaunch K_add_bias_gelu stream pout] ->
  wp (add_bias_gelu_kernelLauncher P Tin T pin pout ppre pbias m n stream) mem
      Q.
Proof.
  intros Hsched Hin Hout Hpre Hbias Hmn Hn Hi Ho Hp Hb HQ.
  unfold add_bias_gelu_kernelLauncher. cbv zeta.
  rewrite (to_int32_small (m * n)) by lia.
  destruct (decide (m * n = 0)) as [Hz|Hnz].
  - rewrite Hz, ceil_div_1024_zero. apply wp_emit.
    rewrite Hz, (insert_unchanged mem ppre) in HQ by done.
    by rewrite insert_unchanged in HQ.
  - destruct (ceil_div_1024_grid (m * n) ltac:(lia)) as (-> & -> & Hg & Hw).
    apply wp_bind, (wp_load_Some _ _ inp); [done|].
    apply wp_bind, (wp_load_Some _ _ out); [done|].
    apply wp_bind, (wp_load_Some _ _ pre); [done|].
    apply wp_bind, (wp_load_Some _ _ bias); [done|].
    apply wp_bind, wp_emit. apply wp_bind.
    rewrite add_bias_gelu_kernel_pre_spec by (first [done | lia]).
    apply wp_store.
    rewrite add_bias_gelu_kernel_out_spec by (first [done | lia]).
    by apply wp_store.
Qed.

(** ** Stepping through the rocBLAS variant

    The tactics below run [Rocblas.cublas_gemm] on a platform whose
    calls all succeed and which runs every block of a grid: each
    allocation, multiply, launch and release is taken with its rule, the buffers are found by lookup through the
    inserts made so far, and a pointer returned by [hipMalloc] differs
    from every buffer that existed when it was returned. *)

Lemma insert_is_Some_mono (mem : gmap Z (list R)) i j x :
  is_Some (mem !! j) -> is_Some (<[i := x]> mem !! j).
Proof.
  intros H. destruct (decide (i = j)) as [->|].
  - rewrite lookup_insert_eq. by eexists.
  - by rewrite lookup_insert_ne.
Qed.

(** Two pointers differ: by hypothesis, or because one of them was
    returned by [hipMalloc] while the other was already allocated. *)
Ltac ptr_ne :=
  first [ assumption
        | apply not_eq_sym; assumption
        | match goal with
          | H : ∀ q, is_Some (_ !! q) -> ?p ≠ q |- ?p ≠ _ => apply H
          | H : ∀ q, is_Some (_ !! q) -> ?p ≠ q |- _ ≠ ?p =>
              apply not_eq_sym, H
          end;
          repeat first [ rewrite lookup_insert_eq
                       | rewrite lookup_insert_ne by ptr_ne ];
          by eexists ].

(** The buffer at a pointer, through inserts and deletes at others. *)
Ltac ptr_lookup :=
  repeat first [ rewrite lookup_insert_eq
               | rewrite lookup_insert_ne by ptr_ne
               | rewrite lookup_delete_ne by ptr_ne ];
  first [ reflexivity | eassumption ].

(** A pointer returned by [hipMalloc] was not allocated before. *)
Ltac fresh_none :=
  apply eq_None_not_Some; intros ?Hs;
  match goal with
  | H : ∀ q, is_Some (_ !! q) -> ?p ≠ q, Hs : is_Some (_ !! ?p) |- _ =>
      apply (H p); [repeat apply insert_is_Some_mono; exact Hs | reflexivity]
  end.

(** Freed scratch buffers disappear from the final memory. *)
Ltac mem_normal :=
  repeat first
    [ rewrite delete_insert_eq
    | rewrite delete_insert_ne by ptr_ne
    | match goal with
      | |- context [delete ?p ?mm] => rewrite (delete_id mm p) by fresh_none
      end
    | rewrite insert_insert_eq ].

(** Equality of two memories, address by address. *)
Ltac mem_ext :=
  apply map_eq; intros ?i;
  repeat match goal with
  | |- context [<[?p := _]> _ !! ?i] =>
      destruct (decide (p = i)) as [<-|?];
      repeat first [ rewrite lookup_insert_eq
                   | rewrite lookup_insert_ne by (first [done | ptr_ne]) ]
  end;
  reflexivity.

(** Lengths of the buffers the kernels and the multiply have written. *)
Ltac len :=
  unfold elementwise, multiply_buffer;
  rewrite ?length_app, ?length_fmap, ?length_seqZ, ?length_drop,
    ?gemm_written_length, ?length_replicate, ?column_sums_length by lia;
  rewrite ?length_app, ?length_fmap, ?length_seqZ, ?length_drop,
    ?gemm_written_length, ?length_replicate, ?column_sums_length by lia;
  lia.

(** One allocation, multiply, launch, synchronisation or release. *)
Ltac launcher_step Hstatus :=
  lazymatch goal with
  | |- wp (hipMalloc _ _) _ _ =>
      apply wp_hipMalloc_ok; [exact Hstatus|]; intros ? ? ?
  | |- wp (Rocblas.rocblas_gemm _ _ _ _ _) _ _ =>
      eapply wp_rocblas_gemm_ok; [exact Hstatus|ptr_lookup..|]
  | |- wp (add_bias_kernelLauncher _ _ _ _ _ _ _ _ _) _ _ =>
      eapply wp_add_bias_launcher;
        [ assumption | ptr_lookup | ptr_lookup | ptr_lookup
        | lia | lia | len | len | len | ]
  | |- wp (add_bias_gelu_kernelLauncher _ _ _ _ _ _ _ _ _ _) _ _ =>
      eapply wp_add_bias_gelu_launcher;
        [ assumption | ptr_lookup | ptr_lookup | ptr_lookup | ptr_lookup
        | lia | lia | len | len | len | len | ]
  | |- wp (gelu_forward_kernelLauncher _ _ _ _ _ _ _) _ _ =>
      eapply wp_gelu_forward_launcher;
        [ assumption | ptr_lookup | ptr_lookup | lia | lia | lia | len | len | ]
  | |- wp (gelu_backward_kernelLauncher _ _ _ _ _ _ _ _ _) _ _ =>
      eapply wp_gelu_backward_launcher;
        [ assumption | ptr_lookup | ptr_lookup | ptr_lookup
        | lia | lia | lia | len | len | len | | ]
  | |- wp (identity_kernelLauncher _ _ _ _ _ _) _ _ =>
      eapply wp_identity_launcher_elementwise;
        [ assumption | ptr_lookup | ptr_lookup | lia | len | len | ]
  | |- wp (bias_gradient_kernelLauncher _ _ _ _ _ _) _ _ =>
      eapply wp_bias_gradient_launcher;
        [ apply Hstatus | ptr_lookup | ptr_lookup | ptr_ne
        | by apply BLOCKS_PER_COL_exact
        | lia | lia | lia | lia | lia
        | rewrite Z.min_l by lia; len
        | len
        | by auto | ]
  | |- wp (hipDeviceSynchronize _) _ _ =>
      apply wp_hipDeviceSynchronize; [apply Hstatus|]
  | |- wp (hipFree _ _) _ _ => apply wp_hipFree; [apply Hstatus|]
  end.

(** The whole call: conditions that are decided are resolved, the type
    switches are reduced, sizes within range lose their wrap-around. *)
Ltac rocblas_run Hstatus :=
  repeat (lazymatch goal with |- wp _ _ _ => idtac end;
          first
            [ closed_if
            | progress cbn [Rocblas.TRANSFORMER_ENGINE_TYPE_SWITCH_ROCM_SIM
                            Rocblas.get_transformer_engine_dtype]
            | rewrite float_elems_product by lia
            | rewrite float_elems_small by lia
            | rewrite (to_int32_small (_ * _)) by lia
            | launcher_step Hstatus
            | wp_step; try done; try status_ok ]).

(** A statement about the result, memory and trace of a run, as a
    postcondition; the postcondition is named so that stepping does not
    look into it. *)
Ltac wp_goal :=
  match goal with |- context [result_of (?c ?mem)] =>
    match goal with
    | |- _ ∧ _ = ?M ∧ _ = ?T =>
        change (wp c mem (λ r mem' t, r = Ok tt ∧ mem' = M ∧ t = T))
    | |- _ ∧ _ = ?M =>
        change (wp c mem (λ r mem' _, r = Ok tt ∧ mem' = M))
    end
  end;
  match goal with |- wp _ _ ?post => let Q := fresh "Q" in set (Q := post) end.

Ltac wp_done :=
  match goal with Q := _ |- _ => subst Q end; cbv beta;
  (split; [reflexivity|]); mem_normal.

(** ** The forward bias-add of the rocBLAS variant *)

(** X1. On the rocBLAS variant with a bias, no auxiliary buffer and grad
    = false (fp32 or fp16 operands and output, bias fp32, fp16 or bf16),
    when every library call succeeds, every block of a grid is run, m*n
    is at most 2^30 and the buffers are large enough, the call returns
    normally and the only buffer that differs afterwards is the output
    D: entry id of its first m*n entries is the multiply result at id
    plus bias[id mod m], converted to D's format. The scratch buffer
    used for an fp16 output has been freed. *)
Theorem rocblas_forward_bias (P : platform)
    (inputA inputB outputD inputBias outputPreGelu : Tensor)
    (m n k lda ldb ldd : Z) (transa transb : operation)
    (workspace workspaceSize : Z) (accumulate use_split_accumulator : bool)
    (math_sm_count stream : Z) (mem : gmap Z (list R))
    (a b d bias_buf : list R) (vt : rocblas_datatype) :
  (∀ s, lib_status P s = true) ->
  (∀ g, schedule P g ≡ₚ seqZ 0 g) ->
  dptr (data inputBias) ≠ 0 -> dptr (data outputPreGelu) = 0 ->
  vt = rocblas_datatype_f32_r ∨ vt = rocblas_datatype_f16_r ->
  dtype (data inputA) = Rocblas.get_transformer_engine_dtype vt ->
  dtype (data inputB) = Rocblas.get_transformer_engine_dtype vt ->
  dtype (data outputD) = Rocblas.get_transformer_engine_dtype vt ->
  dtype (data inputBias) = kFloat32 ∨ dtype (data inputBias) = kFloat16
    ∨ dtype (data inputBias) = kBFloat16 ->
  mem !! dptr (data inputA) = Some a ->
  mem !! dptr (data inputB) = Some b ->
  mem !! dptr (data outputD) = Some d ->
  mem !! dptr (data inputBias) = Some bias_buf ->
  dptr (data outputD) ≠ dptr (data inputBias) ->
  0 <= m < 2 ^ 31 -> 0 <= n < 2 ^ 31 -> m * n <= 2 ^ 30 ->
  m * n <= Z.of_nat (length d) ->
  m <= Z.of_nat (length bias_buf) ->
  let run := Rocblas.cublas_gemm P inputA inputB outputD inputBias outputPreGelu
               m n k lda ldb ldd transa transb false workspace workspaceSize
               accumulate use_split_accumulator math_sm_count stream mem in
  let W := multiply_buffer P (dtype (data outputD))
             (emulated_call vt transa transb m n k lda ldb ldd accumulate)
             a b d m n in
  result_of run = Ok tt
  ∧ memory_of run
    = <[dptr (data outputD) :=
          elementwise
            (λ id, cast P (dtype (data outputD))
                     (nth_R W id + cast P kFloat32 (nth_R bias_buf (id mod m))))
            (n * m)
            (output_before_epilogue (dtype (data outputD)) W d)]> mem.
Proof.
  intros Hstatus Hsched Hbias Haux Hvt HtA HtB HtD Htbias HA HB HD HBias HDb
    Hm Hn Hmn Hld Hlb run W. subst run W.
  wp_goal.
  unfold Rocblas.cublas_gemm.
  rewrite HtA, HtB, HtD, Haux, (proj2 (Z.eqb_neq _ _) Hbias).
  change (0 =? 0) with true. cbn [negb orb andb].
  assert (Hmn0 : 0 <= m * n) by (apply Z.mul_nonneg_nonneg; lia).
  assert (Hnm : n * m = m * n) by ring.
  destruct Hvt as [-> | ->];
    destruct Htbias as [Htb | [Htb | Htb]]; rewrite Htb;
    cbn [Rocblas.get_transformer_engine_dtype Rocblas.get_cuda_dtype
         is_fp8_dtype orb andb negb].
  all: rocblas_run Hstatus.
  all: wp_done.
  all: rewrite HtD; cbn [Rocblas.get_transformer_engine_dtype];
    unfold multiply_buffer, output_before_epilogue, emulated_call.
  all: by rewrite ?Hnm.
Qed.

Lemma rocblas_forward_bias_witness :
  let P := reference_platform in
  let mem := epilogue_example_memory in
  let a := [3%R; 1%R] in
  let b := [2%R] in
  let d := [0%R; 0%R] in
  let bias_buf := [1%R; 4%R] in
  let vt := rocblas_datatype_f32_r in
  let run := Rocblas.cublas_gemm P example_A example_B example_D example_bias
               null_tensor 2 1 1 1 1 2 OP_T OP_N false 0 0 false false 0 7
               mem in
  let W := multiply_buffer P (dtype (data example_D))
             (emulated_call vt OP_T OP_N 2 1 1 1 1 2 false)
             a b d 2 1 in
  result_of run = Ok tt
  ∧ memory_of run
    = <[dptr (data example_D) :=
          elementwise
            (λ id, cast P (dtype (data example_D))
                     (nth_R W id + cast P kFloat32 (nth_R bias_buf (id mod 2))))
            (1 * 2)
            (output_before_epilogue (dtype (data example_D)) W d)]> mem.
Proof.
  cbv zeta.
  apply (rocblas_forward_bias reference_platform example_A example_B example_D
           example_bias null_tensor 2 1 1 1 1 2 OP_T OP_N 0 0 false false 0 7
           epilogue_example_memory [3%R; 1%R] [2%R] [0%R; 0%R] [1%R; 4%R]
           rocblas_datatype_f32_r);
    first [ reflexivity | discriminate | by left | simpl; lia
          | vm_compute; lia | intros; reflexivity ].
Defined.

(** ** The bare multiply of the rocBLAS variant *)

Lemma get_cuda_dtype_of_tag v :
  Rocblas.get_cuda_dtype (Rocblas.get_transformer_engine_dtype v) = mret v.
Proof. by destruct v. Qed.

(** X2. On the rocBLAS variant with no bias and no auxiliary buffer
    (fp32 or fp16 throughout), when every library call succeeds, the
    call does exactly this: create the handle, one rocblas_gemm_ex with
    alpha = 1, beta = 1 if accumulate else 0 and the result type of the
    operands, written into D in place, destroy the handle. Nothing else
    is recorded, no scratch buffer is allocated and no other buffer
    changes. *)
Theorem rocblas_plain_multiply (P : platform)
    (inputA inputB outputD inputBias outputPreGelu : Tensor)
    (m n k lda ldb ldd : Z) (transa transb : operation) (grad : bool)
    (workspace workspaceSize : Z) (accumulate use_split_accumulator : bool)
    (math_sm_count stream : Z) (mem : gmap Z (list R))
    (a b d : list R) (vt bt : rocblas_datatype) :
  (∀ s, lib_status P s = true) ->
  dptr (data inputBias) = 0 -> dptr (data outputPreGelu) = 0 ->
  vt = rocblas_datatype_f32_r ∨ vt = rocblas_datatype_f16_r ->
  dtype (data inputA) = Rocblas.get_transformer_engine_dtype vt ->
  dtype (data inputB) = Rocblas.get_transformer_engine_dtype vt ->
  dtype (data outputD) = Rocblas.get_transformer_engine_dtype vt ->
  dtype (data inputBias) = Rocblas.get_transformer_engine_dtype bt ->
  mem !! dptr (data inputA) = Some a ->
  mem !! dptr (data inputB) = Some b ->
  mem !! dptr (data outputD) = Some d ->
  let run := Rocblas.cublas_gemm P inputA inputB outputD inputBias outputPreGelu
               m n k lda ldb ldd transa transb grad workspace workspaceSize
               accumulate use_split_accumulator math_sm_count stream mem in
  result_of run = Ok tt
  ∧ memory_of run
    = <[dptr (data outputD) :=
          Rocblas.gemm_written P
            {| g_ex3 := false; g_transa := transa; g_transb := transb;
               g_m := m; g_n := n; g_k := k; g_alpha := 1%R;
               g_A_type := vt; g_lda := lda; g_B_type := vt; g_ldb := ldb;
               g_beta := if accumulate then 1%R else 0%R;
               g_D_type := vt; g_ldd := ldd |} a b d]> mem
  ∧ trace_of run
    = [EvCreate Handle; EvGemm 0 (dptr (data outputD)); EvDestroy Handle].
Proof.
  intros Hstatus Hbias Haux Hvt HtA HtB HtD Htb HA HB HD run. subst run.
  wp_goal.
  unfold Rocblas.cublas_gemm.
  rewrite HtA, HtB, HtD, Htb, Haux, Hbias, !get_cuda_dtype_of_tag.
  change (0 =? 0) with true. cbn [negb orb andb].
  destruct Hvt as [-> | ->];
    cbn [Rocblas.get_transformer_engine_dtype Rocblas.get_cuda_dtype
         is_fp8_dtype orb andb negb].
  all: rocblas_run Hstatus.
  all: match goal with Q := _ |- _ => subst Q end; cbv beta.
  all: done.
Qed.

Lemma rocblas_plain_multiply_witness :
  let P := reference_platform in
  let mem := epilogue_example_memory in
  let a := [3%R; 1%R] in
  let b := [2%R] in
  let d := [0%R; 0%R] in
  let vt := rocblas_datatype_f32_r in
  let run := Rocblas.cublas_gemm P example_A example_B example_D null_tensor
               null_tensor 2 1 1 1 1 2 OP_T OP_N false 0 0 false false 0 7
               mem in
  result_of run = Ok tt
  ∧ memory_of run
    = <[dptr (data example_D) :=
          Rocblas.gemm_written P
            {| g_ex3 := false; g_transa := OP_T; g_transb := OP_N;
               g_m := 2; g_n := 1; g_k := 1; g_alpha := 1%R;
               g_A_type := vt; g_lda := 1; g_B_type := vt; g_ldb := 1;
               g_beta := if false then 1%R else 0%R;
               g_D_type := vt; g_ldd := 2 |} a b d]> mem
  ∧ trace_of run
    = [EvCreate Handle; EvGemm 0 (dptr (data example_D)); EvDestroy Handle].
Proof.
  cbv zeta.
  apply (rocblas_plain_multiply reference_platform example_A example_B
           example_D null_tensor null_tensor 2 1 1 1 1 2 OP_T OP_N false 0 0
           false false 0 7 epilogue_example_memory [3%R; 1%R] [2%R] [0%R; 0%R]
           rocblas_datatype_f32_r rocblas_datatype_f32_r);
    first [ reflexivity | discriminate | by left | simpl; lia
          | vm_compute; lia | intros; reflexivity ].
Defined.

(** ** The multiply on narrow operands *)

(** X3. On the rocBLAS variant with narrow (fp8) operands of an enabled
    type combination and no epilogue, when every library call succeeds,
    the call copies the two inverse scales from the device, then runs
    one rocblas_gemm_ex3 whose alpha is the product of the two inverse
    scales, written into D in place between the creation and the
    destruction of the handle. *)
Theorem rocblas_fp8_multiply_scaled (P : platform)
    (inputA inputB outputD inputBias outputPreGelu : Tensor)
    (m n k lda ldb ldd : Z) (transa transb : operation) (grad : bool)
    (workspace workspaceSize : Z) (accumulate use_split_accumulator : bool)
    (math_sm_count stream : Z) (mem : gmap Z (list R))
    (a b d : list R) (sa sb : R) (ra rb : list R)
    (va vb vd bt : rocblas_datatype) :
  (∀ s, lib_status P s = true) ->
  dptr (data inputBias) = 0 -> dptr (data outputPreGelu) = 0 ->
  va = rocblas_datatype_f8_r ∨ va = rocblas_datatype_bf8_r ->
  vb = rocblas_datatype_f8_r ∨ vb = rocblas_datatype_bf8_r ->
  Rocblas.enabled_types va vb vd = true ->
  dtype (data inputA) = Rocblas.get_transformer_engine_dtype va ->
  dtype (data inputB) = Rocblas.get_transformer_engine_dtype vb ->
  dtype (data outputD) = Rocblas.get_transformer_engine_dtype vd ->
  dtype (data inputBias) = Rocblas.get_transformer_engine_dtype bt ->
  mem !! dptr (scale_inv inputA) = Some (sa :: ra) ->
  mem !! dptr (scale_inv inputB) = Some (sb :: rb) ->
  mem !! dptr (data inputA) = Some a ->
  mem !! dptr (data inputB) = Some b ->
  mem !! dptr (data outputD) = Some d ->
  let run := Rocblas.cublas_gemm P inputA inputB outputD inputBias outputPreGelu
               m n k lda ldb ldd transa transb grad workspace workspaceSize
               accumulate use_split_accumulator math_sm_count stream mem in
  result_of run = Ok tt
  ∧ memory_of run
    = <[dptr (data outputD) :=
          Rocblas.gemm_written P
            {| g_ex3 := true; g_transa := transa; g_transb := transb;
               g_m := m; g_n := n; g_k := k; g_alpha := (sa * sb)%R;
               g_A_type := va; g_lda := lda; g_B_type := vb; g_ldb := ldb;
               g_beta := if accumulate then 1%R else 0%R;
               g_D_type := vd; g_ldd := ldd |} a b d]> mem
  ∧ trace_of run
    = [EvMemcpyD2H (dptr (scale_inv inputA));
       EvMemcpyD2H (dptr (scale_inv inputB));
       EvCreate Handle; EvGemm 0 (dptr (data outputD)); EvDestroy Handle].
Proof.
  intros Hstatus Hbias Haux Hva Hvb He HtA HtB HtD Htb HsA HsB HA HB HD run.
  subst run. wp_goal.
  unfold Rocblas.cublas_gemm.
  rewrite HtA, HtB, HtD, Htb, Haux, Hbias, !get_cuda_dtype_of_tag.
  change (0 =? 0) with true. cbn [negb orb andb].
  destruct Hva as [-> | ->]; destruct Hvb as [-> | ->]; destruct vd;
    try discriminate He;
    cbn [Rocblas.get_transformer_engine_dtype Rocblas.get_cuda_dtype
         is_fp8_dtype orb andb negb].
  all: rocblas_run Hstatus.
  all: match goal with Q := _ |- _ => subst Q end; cbv beta.
  all: by rewrite HsA, HsB.
Qed.

Lemma rocblas_fp8_multiply_scaled_witness :
  let P := reference_platform in
  let mem := epilogue_example_memory in
  let a := [3%R; 1%R] in
  let b := [2%R] in
  let d := [0%R; 0%R] in
  let va := rocblas_datatype_f8_r in
  let vb := rocblas_datatype_f8_r in
  let vd := rocblas_datatype_f32_r in
  let run := Rocblas.cublas_gemm P example_A_fp8 example_B_fp8 example_D
               null_tensor null_tensor 2 1 1 1 1 2 OP_T OP_N false 0 0 false
               false 0 7 mem in
  result_of run = Ok tt
  ∧ memory_of run
    = <[dptr (data example_D) :=
          Rocblas.gemm_written P
            {| g_ex3 := true; g_transa := OP_T; g_transb := OP_N;
               g_m := 2; g_n := 1; g_k := 1; g_alpha := (2%R * 2%R)%R;
               g_A_type := va; g_lda := 1; g_B_type := vb; g_ldb := 1;
               g_beta := if false then 1%R else 0%R;
               g_D_type := vd; g_ldd := 2 |} a b d]> mem
  ∧ trace_of run
    = [EvMemcpyD2H (dptr (scale_inv example_A_fp8));
       EvMemcpyD2H (dptr (scale_inv example_B_fp8));
       EvCreate Handle; EvGemm 0 (dptr (data example_D)); EvDestroy Handle].
Proof.
  cbv zeta.
  apply (rocblas_fp8_multiply_scaled reference_platform example_A_fp8
           example_B_fp8 example_D null_tensor null_tensor 2 1 1 1 1 2 OP_T
           OP_N false 0 0 false false 0 7 epilogue_example_memory [3%R; 1%R]
           [2%R] [0%R; 0%R] 2%R 2%R [] [] rocblas_datatype_f8_r
           rocblas_datatype_f8_r rocblas_datatype_f32_r rocblas_datatype_f32_r);
    first [ reflexivity | discriminate | by left | simpl; lia
          | vm_compute; lia | intros; reflexivity ].
Defined.

(** ** The activation epilogues of the rocBLAS variant *)

(** X4. On the rocBLAS variant with an auxiliary buffer, no bias and
    grad = false (fp32 or fp16 throughout, every library call
    succeeding, every block of a grid run, m at most 2^24 and m*n at
    most 2^30, buffers of at least m*n entries), D receives gelu of the
    multiply result, and the auxiliary buffer receives a copy of D_temp
    taken after the activation kernel: for an fp16 output (scratch
    buffer) that is the multiply result before the activation, but for
    an fp32 output, where D_temp is D itself, the auxiliary buffer
    receives the activated values. *)
Theorem rocblas_forward_gelu (P : platform)
    (inputA inputB outputD inputBias outputPreGelu : Tensor)
    (m n k lda ldb ldd : Z) (transa transb : operation)
    (workspace workspaceSize : Z) (accumulate use_split_accumulator : bool)
    (math_sm_count stream : Z) (mem : gmap Z (list R))
    (a b d pre : list R) (vt bt : rocblas_datatype) :
  (∀ s, lib_status P s = true) ->
  (∀ g, schedule P g ≡ₚ seqZ 0 g) ->
  dptr (data inputBias) = 0 -> dptr (data outputPreGelu) ≠ 0 ->
  vt = rocblas_datatype_f32_r ∨ vt = rocblas_datatype_f16_r ->
  dtype (data inputA) = Rocblas.get_transformer_engine_dtype vt ->
  dtype (data inputB) = Rocblas.get_transformer_engine_dtype vt ->
  dtype (data outputD) = Rocblas.get_transformer_engine_dtype vt ->
  dtype (data inputBias) = Rocblas.get_transformer_engine_dtype bt ->
  mem !! dptr (data inputA) = Some a ->
  mem !! dptr (data inputB) = Some b ->
  mem !! dptr (data outputD) = Some d ->
  mem !! dptr (data outputPreGelu) = Some pre ->
  dptr (data outputD) ≠ dptr (data outputPreGelu) ->
  0 <= m <= 2 ^ 24 -> 0 <= n < 2 ^ 31 -> m * n <= 2 ^ 30 ->
  m * n <= Z.of_nat (length d) ->
  m * n <= Z.of_nat (length pre) ->
  let run := Rocblas.cublas_gemm P inputA inputB outputD inputBias outputPreGelu
               m n k lda ldb ldd transa transb false workspace workspaceSize
               accumulate use_split_accumulator math_sm_count stream mem in
  let ft := dtype (data outputD) in
  let W := multiply_buffer P ft
             (emulated_call vt transa transb m n k lda ldb ldd accumulate)
             a b d m n in
  let D' := elementwise (λ id, cast P ft (gelu_forward (nth_R W id))) (n * m)
              (output_before_epilogue ft W d) in
  let copied := match ft with kFloat32 => D' | _ => W end in
  result_of run = Ok tt
  ∧ memory_of run
    = <[dptr (data outputPreGelu) :=
          elementwise (λ id, cast P ft (nth_R copied id)) (n * m) pre]>
        (<[dptr (data outputD) := D']> mem).
Proof.
  intros Hstatus Hsched Hbias Haux Hvt HtA HtB HtD Htb HA HB HD HPre HDp
    Hm Hn Hmn Hld Hlp run ft W D' copied. subst run ft W D' copied.
  wp_goal.
  unfold Rocblas.cublas_gemm.
  rewrite HtA, HtB, HtD, Htb, Hbias, (proj2 (Z.eqb_neq _ _) Haux),
    !get_cuda_dtype_of_tag.
  change (0 =? 0) with true. cbn [negb orb andb].
  assert (Hmn0 : 0 <= m * n) by (apply Z.mul_nonneg_nonneg; lia).
  assert (Hnm : n * m = m * n) by ring.
  destruct Hvt as [-> | ->];
    cbn [Rocblas.get_transformer_engine_dtype Rocblas.get_cuda_dtype
         is_fp8_dtype orb andb negb].
  all: rocblas_run Hstatus.
  all: wp_done.
  all: rewrite HtD; cbn [Rocblas.get_transformer_engine_dtype];
    unfold multiply_buffer, output_before_epilogue, emulated_call.
  all: reflexivity.
Qed.

Lemma rocblas_forward_gelu_witness :
  let P := reference_platform in
  let mem := epilogue_example_memory in
  let a := [3%R; 1%R] in
  let b := [2%R] in
  let d := [0%R; 0%R] in
  let pre := [5%R; 6%R] in
  let vt := rocblas_datatype_f32_r in
  let run := Rocblas.cublas_gemm P example_A example_B example_D null_tensor
               example_aux 2 1 1 1 1 2 OP_T OP_N false 0 0 false false 0 7
               mem in
  let ft := dtype (data example_D) in
  let W := multiply_buffer P ft
             (emulated_call vt OP_T OP_N 2 1 1 1 1 2 false)
             a b d 2 1 in
  let D' := elementwise (λ id, cast P ft (gelu_forward (nth_R W id))) (1 * 2)
              (output_before_epilogue ft W d) in
  let copied := match ft with kFloat32 => D' | _ => W end in
  result_of run = Ok tt
  ∧ memory_of run
    = <[dptr (data example_aux) :=
          elementwise (λ id, cast P ft (nth_R copied id)) (1 * 2) pre]>
        (<[dptr (data example_D) := D']> mem).
Proof.
  cbv zeta.
  apply (rocblas_forward_gelu reference_platform example_A example_B example_D
           null_tensor example_aux 2 1 1 1 1 2 OP_T OP_N 0 0 false false 0 7
           epilogue_example_memory [3%R; 1%R] [2%R] [0%R; 0%R] [5%R; 6%R]
           rocblas_datatype_f32_r rocblas_datatype_f32_r);
    first [ reflexivity | discriminate | by left | simpl; lia
          | vm_compute; lia | intros; reflexivity ].
Defined.

(** X5. On the rocBLAS variant with an auxiliary buffer, no bias and
    grad = true (fp32 or fp16 throughout, every library call succeeding,
    every block of a grid run, m at most 2^24 and m*n at most 2^30,
    buffers of at least m*n entries), when gelu_backward at the stored
    pre-activation value of the auxiliary buffer and the multiply
    result is, entry by entry, a finite number dx, D receives dx
    converted to D's format; the auxiliary buffer is only read and no
    other buffer changes. *)
Theorem rocblas_backward_gelu (P : platform)
    (inputA inputB outputD inputBias outputPreGelu : Tensor)
    (m n k lda ldb ldd : Z) (transa transb : operation)
    (workspace workspaceSize : Z) (accumulate use_split_accumulator : bool)
    (math_sm_count stream : Z) (mem : gmap Z (list R))
    (a b d pre : list R) (vt bt : rocblas_datatype) (dx : Z -> R) :
  (∀ s, lib_status P s = true) ->
  (∀ g, schedule P g ≡ₚ seqZ 0 g) ->
  dptr (data inputBias) = 0 -> dptr (data outputPreGelu) ≠ 0 ->
  vt = rocblas_datatype_f32_r ∨ vt = rocblas_datatype_f16_r ->
  dtype (data inputA) = Rocblas.get_transformer_engine_dtype vt ->
  dtype (data inputB) = Rocblas.get_transformer_engine_dtype vt ->
  dtype (data outputD) = Rocblas.get_transformer_engine_dtype vt ->
  dtype (data inputBias) = Rocblas.get_transformer_engine_dtype bt ->
  mem !! dptr (data inputA) = Some a ->
  mem !! dptr (data inputB) = Some b ->
  mem !! dptr (data outputD) = Some d ->
  mem !! dptr (data outputPreGelu) = Some pre ->
  dptr (data outputD) ≠ dptr (data outputPreGelu) ->
  0 <= m <= 2 ^ 24 -> 0 <= n < 2 ^ 31 -> m * n <= 2 ^ 30 ->
  m * n <= Z.of_nat (length d) ->
  m * n <= Z.of_nat (length pre) ->
  let ft := dtype (data outputD) in
  let W := multiply_buffer P ft
             (emulated_call vt transa transb m n k lda ldb ldd accumulate)
             a b d m n in
  (∀ id, 0 <= id < n * m ->
     gelu_backward (cast P kFloat32 (nth_R pre id)) (nth_R W id)
     = Finite (dx id)) ->
  let run := Rocblas.cublas_gemm P inputA inputB outputD inputBias outputPreGelu
               m n k lda ldb ldd transa transb true workspace workspaceSize
               accumulate use_split_accumulator math_sm_count stream mem in
  result_of run = Ok tt
  ∧ memory_of run
    = <[dptr (data outputD) :=
          elementwise (λ id, cast P ft (cast P kFloat32 (dx id)))
            (n * m) (output_before_epilogue ft W d)]> mem.
Proof.
  intros Hstatus Hsched Hbias Haux Hvt HtA HtB HtD Htb HA HB HD HPre HDp
    Hm Hn Hmn Hld Hlp ft W Hfin run. subst run ft W.
  wp_goal.
  unfold Rocblas.cublas_gemm.
  rewrite HtA, HtB, HtD, Htb, Hbias, (proj2 (Z.eqb_neq _ _) Haux),
    !get_cuda_dtype_of_tag.
  change (0 =? 0) with true. cbn [negb orb andb].
  assert (Hmn0 : 0 <= m * n) by (apply Z.mul_nonneg_nonneg; lia).
  assert (Hnm : n * m = m * n) by ring.
  rewrite HtD in Hfin. unfold multiply_buffer, emulated_call in Hfin.
  destruct Hvt as [-> | ->];
    cbn [Rocblas.get_transformer_engine_dtype Rocblas.get_cuda_dtype
         is_fp8_dtype orb andb negb] in *.
  all: rocblas_run Hstatus.
  all: try exact Hfin.
  all: wp_done.
  all: rewrite HtD; cbn [Rocblas.get_transformer_engine_dtype];
    unfold multiply_buffer, output_before_epilogue, emulated_call.
  all: reflexivity.
Qed.

Lemma rocblas_backward_gelu_witness :
  let P := reference_platform in
  let mem := epilogue_example_memory in
  let a := [3%R; 1%R] in
  let b := [2%R] in
  let d := [0%R; 0%R] in
  let pre := [5%R; 6%R] in
  let vt := rocblas_datatype_f32_r in
  let ft := dtype (data example_D) in
  let W := multiply_buffer P ft
             (emulated_call vt OP_T OP_N 2 1 1 1 1 2 false)
             a b d 2 1 in
  let dx id :=
    gelu_backward_exact (cast P kFloat32 (nth_R pre id)) (nth_R W id) in
  let run := Rocblas.cublas_gemm P example_A example_B example_D null_tensor
               example_aux 2 1 1 1 1 2 OP_T OP_N true 0 0 false false 0 7
               mem in
  result_of run = Ok tt
  ∧ memory_of run
    = <[dptr (data example_D) :=
          elementwise (λ id, cast P ft (cast P kFloat32 (dx id)))
            (1 * 2) (output_before_epilogue ft W d)]> mem.
Proof.
  cbv zeta.
  apply (rocblas_backward_gelu reference_platform example_A example_B
           example_D null_tensor example_aux 2 1 1 1 1 2 OP_T OP_N 0 0 false
           false 0 7 epilogue_example_memory [3%R; 1%R] [2%R] [0%R; 0%R]
           [5%R; 6%R] rocblas_datatype_f32_r rocblas_datatype_f32_r);
    first [ reflexivity | discriminate | by left | simpl; lia
          | vm_compute; lia | intros; reflexivity | idtac ].
  intros id Hid. apply gelu_backward_in_range.
  - assert (id = 0 ∨ id = 1) as [-> | ->] by lia;
      vm_compute; apply Rabs_le; lra.
  - assert (id = 0 ∨ id = 1) as [-> | ->] by lia;
      vm_compute; apply Rabs_le; lra.
Defined.

(** X6. On the rocBLAS variant with a bias, an auxiliary buffer and grad
    = false (fp32 or fp16 operands and output, every library call
    succeeding, every block of a grid run, m*n at most 2^30, buffers
    large enough), the auxiliary buffer receives the
    multiply result plus bias[id mod m] (the pre-activation value) and D
    receives gelu of that sum, both converted to D's format; no other
    buffer changes. *)
Theorem rocblas_forward_bias_gelu (P : platform)
    (inputA inputB outputD inputBias outputPreGelu : Tensor)
    (m n k lda ldb ldd : Z) (transa transb : operation)
    (workspace workspaceSize : Z) (accumulate use_split_accumulator : bool)
    (math_sm_count stream : Z) (mem : gmap Z (list R))
    (a b d pre bias_buf : list R) (vt : rocblas_datatype) :
  (∀ s, lib_status P s = true) ->
  (∀ g, schedule P g ≡ₚ seqZ 0 g) ->
  dptr (data inputBias) ≠ 0 -> dptr (data outputPreGelu) ≠ 0 ->
  vt = rocblas_datatype_f32_r ∨ vt = rocblas_datatype_f16_r ->
  dtype (data inputA) = Rocblas.get_transformer_engine_dtype vt ->
  dtype (data inputB) = Rocblas.get_transformer_engine_dtype vt ->
  dtype (data outputD) = Rocblas.get_transformer_engine_dtype vt ->
  dtype (data inputBias) = kFloat32 ∨ dtype (data inputBias) = kFloat16
    ∨ dtype (data inputBias) = kBFloat16 ->
  mem !! dptr (data inputA) = Some a ->
  mem !! dptr (data inputB) = Some b ->
  mem !! dptr (data outputD) = Some d ->
  mem !! dptr (data outputPreGelu) = Some pre ->
  mem !! dptr (data inputBias) = Some bias_buf ->
  dptr (data outputD) ≠ dptr (data outputPreGelu) ->
  dptr (data outputD) ≠ dptr (data inputBias) ->
  dptr (data outputPreGelu) ≠ dptr (data inputBias) ->
  0 <= m < 2 ^ 31 -> 0 <= n < 2 ^ 31 -> m * n <= 2 ^ 30 ->
  m * n <= Z.of_nat (length d) ->
  m * n <= Z.of_nat (length pre) ->
  m <= Z.of_nat (length bias_buf) ->
  let run := Rocblas.cublas_gemm P inputA inputB outputD inputBias outputPreGelu
               m n k lda ldb ldd transa transb false workspace workspaceSize
               accumulate use_split_accumulator math_sm_count stream mem in
  let ft := dtype (data outputD) in
  let W := multiply_buffer P ft
             (emulated_call vt transa transb m n k lda ldb ldd accumulate)
             a b d m n in
  let biased id :=
    (nth_R W id + cast P kFloat32 (nth_R bias_buf (id mod m)))%R in
  result_of run = Ok tt
  ∧ memory_of run
    = <[dptr (data outputD) :=
          elementwise (λ id, cast P ft (gelu_forward (biased id))) (n * m)
            (output_before_epilogue ft W d)]>
        (<[dptr (data outputPreGelu) :=
             elementwise (λ id, cast P ft (biased id)) (n * m) pre]> mem).
Proof.
  intros Hstatus Hsched Hbias Haux Hvt HtA HtB HtD Htbias HA HB HD HPre HBias
    HDp HDb HPb Hm Hn Hmn Hld Hlp Hlb run ft W biased.
  subst run ft W biased.
  wp_goal.
  unfold Rocblas.cublas_gemm.
  rewrite HtA, HtB, HtD, (proj2 (Z.eqb_neq _ _) Hbias),
    (proj2 (Z.eqb_neq _ _) Haux), !get_cuda_dtype_of_tag.
  cbn [negb orb andb].
  assert (Hmn0 : 0 <= m * n) by (apply Z.mul_nonneg_nonneg; lia).
  assert (Hnm : n * m = m * n) by ring.
  destruct Hvt as [-> | ->];
    destruct Htbias as [Htb | [Htb | Htb]]; rewrite Htb;
    cbn [Rocblas.get_transformer_engine_dtype Rocblas.get_cuda_dtype
         is_fp8_dtype orb andb negb].
  all: rocblas_run Hstatus.
  all: wp_done.
  all: rewrite HtD; cbn [Rocblas.get_transformer_engine_dtype];
    unfold multiply_buffer, output_before_epilogue, emulated_call.
  all: first [reflexivity | mem_ext].
Qed.

Lemma rocblas_forward_bias_gelu_witness :
  let P := reference_platform in
  let mem := epilogue_example_memory in
  let a := [3%R; 1%R] in
  let b := [2%R] in
  let d := [0%R; 0%R] in
  let pre := [5%R; 6%R] in
  let bias_buf := [1%R; 4%R] in
  let vt := rocblas_datatype_f32_r in
  let run := Rocblas.cublas_gemm P example_A example_B example_D example_bias
               example_aux 2 1 1 1 1 2 OP_T OP_N false 0 0 false false 0 7
               mem in
  let ft := dtype (data example_D) in
  let W := multiply_buffer P ft
             (emulated_call vt OP_T OP_N 2 1 1 1 1 2 false)
             a b d 2 1 in
  let biased id :=
    (nth_R W id + cast P kFloat32 (nth_R bias_buf (id mod 2)))%R in
  result_of run = Ok tt
  ∧ memory_of run
    = <[dptr (data example_D) :=
          elementwise (λ id, cast P ft (gelu_forward (biased id))) (1 * 2)
            (output_before_epilogue ft W d)]>
        (<[dptr (data example_aux) :=
             elementwise (λ id, cast P ft (biased id)) (1 * 2) pre]> mem).
Proof.
  cbv zeta.
  apply (rocblas_forward_bias_gelu reference_platform example_A example_B
           example_D example_bias example_aux 2 1 1 1 1 2 OP_T OP_N 0 0 false
           false 0 7 epilogue_example_memory [3%R; 1%R] [2%R] [0%R; 0%R]
           [5%R; 6%R] [1%R; 4%R] rocblas_datatype_f32_r);
    first [ reflexivity | discriminate | by left | simpl; lia
          | vm_compute; lia | intros; reflexivity ].
Defined.



(** ** The two variants with a fused epilogue *)

Lemma lt_device_work_hipblaslt P inputA inputB outputD inputBias outputPreGelu
    m n k lda ldb ldd transa transb grad workspace workspaceSize
    accumulate use_split_accumulator math_sm_count stream :
  trace_all (λ e, is_device_work e = true
                  -> e = EvGemm stream (dptr (data outputD)))
    (HipblasLt.cublas_gemm P inputA inputB outputD inputBias outputPreGelu
       m n k lda ldb ldd transa transb grad workspace workspaceSize
       accumulate use_split_accumulator math_sm_count stream).
Proof.
  unfold HipblasLt.cublas_gemm, HipblasLt.get_cuda_dtype. unfold_host.
  repeat trace_all_step.
  all: simpl; first [discriminate | reflexivity | done].
Qed.

Lemma lt_device_work_cublaslt P inputA inputB outputD inputBias outputPreGelu
    m n k lda ldb ldd transa transb grad workspace workspaceSize
    accumulate use_split_accumulator math_sm_count stream :
  trace_all (λ e, is_device_work e = true
                  -> e = EvGemm stream (dptr (data outputD)))
    (CublasLt.cublas_gemm P inputA inputB outputD inputBias outputPreGelu
       m n k lda ldb ldd transa transb grad workspace workspaceSize
       accumulate use_split_accumulator math_sm_count stream).
Proof.
  unfold CublasLt.cublas_gemm, CublasLt.get_cuda_dtype. unfold_host.
  repeat trace_all_step.
  all: simpl; first [discriminate | reflexivity | done].
Qed.

(** X8. In the hipBLASLt and the cuBLASLt variant the only device work a
    call ever enqueues is the one fused multiply, on the stream the
    caller passed and with D as its destination. *)
Theorem lt_variants_use_caller_stream P inputA inputB outputD inputBias
    outputPreGelu m n k lda ldb ldd transa transb grad workspace workspaceSize
    accumulate use_split_accumulator math_sm_count stream mem e :
  e ∈ trace_of
        (HipblasLt.cublas_gemm P inputA inputB outputD inputBias outputPreGelu
           m n k lda ldb ldd transa transb grad workspace workspaceSize
           accumulate use_split_accumulator math_sm_count stream mem)
  ∨ e ∈ trace_of
          (CublasLt.cublas_gemm P inputA inputB outputD inputBias outputPreGelu
             m n k lda ldb ldd transa transb grad workspace workspaceSize
             accumulate use_split_accumulator math_sm_count stream mem) ->
  is_device_work e = true ->
  e = EvGemm stream (dptr (data outputD)).
Proof.
  intros [He|He] Hw.
  - pose proof (lt_device_work_hipblaslt P inputA inputB outputD inputBias
      outputPreGelu m n k lda ldb ldd transa transb grad workspace
      workspaceSize accumulate use_split_accumulator math_sm_count stream mem)
      as Hall.
    rewrite Forall_forall in Hall. by apply Hall.
  - pose proof (lt_device_work_cublaslt P inputA inputB outputD inputBias
      outputPreGelu m n k lda ldb ldd transa transb grad workspace
      workspaceSize accumulate use_split_accumulator math_sm_count stream mem)
      as Hall.
    rewrite Forall_forall in Hall. by apply Hall.
Qed.

Lemma lt_variants_use_caller_stream_witness :
  let run := HipblasLt.cublas_gemm reference_platform
               (plain_tensor 1 [1; 1] kFloat32)
               (plain_tensor 2 [1; 1] kFloat32)
               (plain_tensor 3 [1; 1] kFloat32) null_tensor null_tensor 1 1 1
               1 1 1 OP_T OP_N false 0 0 false false 0 7
               no_algorithm_memory in
  EvGemm 7 3 ∈ trace_of run ∧ EvGemm 7 3 = EvGemm 7 3.
Proof.
  assert (Hin : EvGemm 7 3 ∈ trace_of
                  (HipblasLt.cublas_gemm reference_platform
                     (plain_tensor 1 [1; 1] kFloat32)
                     (plain_tensor 2 [1; 1] kFloat32)
                     (plain_tensor 3 [1; 1] kFloat32) null_tensor null_tensor
                     1 1 1 1 1 1 OP_T OP_N false 0 0 false false 0 7
                     no_algorithm_memory))
    by (apply list_elem_of_In; vm_compute; auto 20).
  split; [exact Hin|].
  apply (lt_variants_use_caller_stream reference_platform
           (plain_tensor 1 [1; 1] kFloat32) (plain_tensor 2 [1; 1] kFloat32)
           (plain_tensor 3 [1; 1] kFloat32) null_tensor null_tensor
           1 1 1 1 1 1 OP_T OP_N false 0 0 false false 0 7
           no_algorithm_memory (EvGemm 7 3));
    [left; exact Hin|reflexivity].
Defined.

(** X9. A hipBLASLt call that returns normally has changed device memory
    exactly as one hipblasLtMatmul does whose epilogue is chosen from
    the presence of a bias, of an auxiliary buffer and the grad flag
    (DGELU_BGRAD, GELU_AUX_BIAS, BGRADB, BIAS, DGELU, GELU_AUX,
    DEFAULT), whose beta is 1 if accumulate else 0, and whose matrix C
    is D. *)
Theorem hipblaslt_effect_is_one_multiply P inputA inputB outputD inputBias
    outputPreGelu m n k lda ldb ldd transa transb grad workspace workspaceSize
    accumulate use_split_accumulator math_sm_count stream mem :
  let run := HipblasLt.cublas_gemm P inputA inputB outputD inputBias
               outputPreGelu m n k lda ldb ldd transa transb grad workspace
               workspaceSize accumulate use_split_accumulator math_sm_count
               stream mem in
  result_of run = Ok tt ->
  memory_of run
  = lt_matmul_result P
      (fused_call inputA inputB outputD inputBias outputPreGelu m n k
         transa transb grad workspace workspaceSize accumulate
         (dptr (data outputD)))
      mem.
Proof.
  intros run. subst run.
  match goal with |- result_of (?c mem) = _ -> _ = ?M =>
    change (wp c mem (λ r mem' _, r = Ok tt -> mem' = M))
  end.
  unfold HipblasLt.cublas_gemm, fused_call. unfold_lt.
  destruct (dptr (data inputBias) =? 0), (dptr (data outputPreGelu) =? 0), grad;
    cbn [negb andb orb epilogue_of].
  all: repeat wp_step; simpl; try discriminate; try done.
Qed.

Lemma hipblaslt_effect_is_one_multiply_witness :
  let P := reference_platform in
  let inputA := plain_tensor 1 [1; 1] kFloat32 in
  let inputB := plain_tensor 2 [1; 1] kFloat32 in
  let outputD := plain_tensor 3 [1; 1] kFloat32 in
  let mem := no_algorithm_memory in
  let run := HipblasLt.cublas_gemm P inputA inputB outputD null_tensor
               null_tensor 1 1 1 1 1 1 OP_T OP_N false 0 0 false false 0 7
               mem in
  memory_of run
  = lt_matmul_result P
      (fused_call inputA inputB outputD null_tensor null_tensor 1 1 1
         OP_T OP_N false 0 0 false
         (dptr (data outputD)))
      mem.
Proof.
  cbv zeta.
  apply (hipblaslt_effect_is_one_multiply reference_platform
           (plain_tensor 1 [1; 1] kFloat32) (plain_tensor 2 [1; 1] kFloat32)
           (plain_tensor 3 [1; 1] kFloat32) null_tensor null_tensor 1 1 1 1 1
           1 OP_T OP_N false 0 0 false false 0 7 no_algorithm_memory);
  by vm_compute.
Defined.

(** X10. A cuBLASLt call that returns normally has changed device memory
    exactly as one cublasLtMatmul does with the epilogue chosen from
    bias, auxiliary buffer and grad, beta 1 if accumulate else 0; its
    matrix C is D, except that C is null when an operand and the output
    are both narrow (fp8). *)
Theorem cublaslt_effect_is_one_multiply P inputA inputB outputD inputBias
    outputPreGelu m n k lda ldb ldd transa transb grad workspace workspaceSize
    accumulate use_split_accumulator math_sm_count stream mem :
  let run := CublasLt.cublas_gemm P inputA inputB outputD inputBias
               outputPreGelu m n k lda ldb ldd transa transb grad workspace
               workspaceSize accumulate use_split_accumulator math_sm_count
               stream mem in
  let use_fp8 := is_fp8_dtype (dtype (data inputA))
                 || is_fp8_dtype (dtype (data inputB)) in
  result_of run = Ok tt ->
  memory_of run
  = lt_matmul_result P
      (fused_call inputA inputB outputD inputBias outputPreGelu m n k
         transa transb grad workspace workspaceSize accumulate
         (if use_fp8 && is_fp8_dtype (dtype (data outputD))
          then 0 else dptr (data outputD)))
      mem.
Proof.
  intros run use_fp8. subst run use_fp8.
  match goal with |- result_of (?c mem) = _ -> _ = ?M =>
    change (wp c mem (λ r mem' _, r = Ok tt -> mem' = M))
  end.
  unfold CublasLt.cublas_gemm, fused_call. unfold_lt.
  destruct (dptr (data inputBias) =? 0), (dptr (data outputPreGelu) =? 0), grad;
    cbn [negb andb orb epilogue_of].
  all: destruct (is_fp8_dtype (dtype (data inputA))
                 || is_fp8_dtype (dtype (data inputB))) eqn:Hfp8;
    destruct (is_fp8_dtype (dtype (data outputD))) eqn:HD8;
    cbn [negb andb orb].
  all: repeat wp_step; simpl; try discriminate; try done.
Qed.

Lemma cublaslt_effect_is_one_multiply_witness :
  let P := reference_platform in
  let inputA := plain_tensor 1 [1; 1] kFloat32 in
  let inputB := plain_tensor 2 [1; 1] kFloat32 in
  let outputD := plain_tensor 3 [1; 1] kFloat32 in
  let mem := no_algorithm_memory in
  let run := CublasLt.cublas_gemm P inputA inputB outputD null_tensor
               null_tensor 1 1 1 1 1 1 OP_T OP_N false 0 0 false false 0 7
               mem in
  let use_fp8 := is_fp8_dtype (dtype (data inputA))
                 || is_fp8_dtype (dtype (data inputB)) in
  memory_of run
  = lt_matmul_result P
      (fused_call inputA inputB outputD null_tensor null_tensor 1 1 1
         OP_T OP_N false 0 0 false
         (if use_fp8 && is_fp8_dtype (dtype (data outputD))
          then 0 else dptr (data outputD)))
      mem.
Proof.
  cbv zeta.
  apply (cublaslt_effect_is_one_multiply reference_platform
           (plain_tensor 1 [1; 1] kFloat32) (plain_tensor 2 [1; 1] kFloat32)
           (plain_tensor 3 [1; 1] kFloat32) null_tensor null_tensor 1 1 1 1 1
           1 OP_T OP_N false 0 0 false false 0 7 no_algorithm_memory);
  by vm_compute.
Defined.

Lemma cublaslt_no_destroy_handle P inputA inputB outputD inputBias outputPreGelu
    m n k lda ldb ldd transa transb grad workspace workspaceSize
    accumulate use_split_accumulator math_sm_count stream :
  trace_all (λ e, e ≠ EvDestroy Handle)
    (CublasLt.cublas_gemm P inputA inputB outputD inputBias outputPreGelu
       m n k lda ldb ldd transa transb grad workspace workspaceSize
       accumulate use_split_accumulator math_sm_count stream).
Proof.
  unfold CublasLt.cublas_gemm, CublasLt.get_cuda_dtype. unfold_host.
  repeat trace_all_step.
  all: discriminate.
Qed.

(** X11. The cuBLASLt variant never destroys the cublasLt handle it
    creates: no call records its destruction, and after every normal
    return the handle is the one library object still alive. *)
Theorem cublaslt_keeps_handle P inputA inputB outputD inputBias
    outputPreGelu m n k lda ldb ldd transa transb grad workspace workspaceSize
    accumulate use_split_accumulator math_sm_count stream mem :
  let run := CublasLt.cublas_gemm P inputA inputB outputD inputBias
               outputPreGelu m n k lda ldb ldd transa transb grad workspace
               workspaceSize accumulate use_split_accumulator math_sm_count
               stream mem in
  (EvDestroy Handle ∉ trace_of run)
  ∧ (result_of run = Ok tt -> live_objects (trace_of run) [] = [Handle]).
Proof.
  intros run. subst run. split.
  - intros Hin.
    pose proof (cublaslt_no_destroy_handle P inputA inputB outputD inputBias
      outputPreGelu m n k lda ldb ldd transa transb grad workspace
      workspaceSize accumulate use_split_accumulator math_sm_count stream mem)
      as Hall.
    rewrite Forall_forall in Hall. by apply (Hall _ Hin).
  - match goal with |- result_of (?c mem) = _ -> _ =>
      change (wp c mem (λ r _ t, r = Ok tt -> live_objects t [] = [Handle]))
    end.
    unfold CublasLt.cublas_gemm. unfold_lt.
    repeat wp_step; simpl; try discriminate; try done.
Qed.

(** X12. When the heuristic search returns no algorithm, both fused
    variants throw without having enqueued any device work and without
    having changed device memory. *)
Theorem lt_no_algorithm_no_multiply P inputA inputB outputD inputBias
    outputPreGelu m n k lda ldb ldd transa transb grad workspace workspaceSize
    accumulate use_split_accumulator math_sm_count stream mem :
  returnedResults P = 0 ->
  let hip := HipblasLt.cublas_gemm P inputA inputB outputD inputBias outputPreGelu
               m n k lda ldb ldd transa transb grad workspace workspaceSize
               accumulate use_split_accumulator math_sm_count stream mem in
  let cu := CublasLt.cublas_gemm P inputA inputB outputD inputBias outputPreGelu
               m n k lda ldb ldd transa transb grad workspace workspaceSize
               accumulate use_split_accumulator math_sm_count stream mem in
  (∃ msg, result_of hip = Throw msg)
  ∧ Forall (λ e, is_device_work e = false) (trace_of hip)
  ∧ memory_of hip = mem
  ∧ (∃ msg, result_of cu = Throw msg)
  ∧ Forall (λ e, is_device_work e = false) (trace_of cu)
  ∧ memory_of cu = mem.
Proof.
  intros Hr hip cu. subst hip cu.
  assert (Hhip : wp (HipblasLt.cublas_gemm P inputA inputB outputD inputBias
                       outputPreGelu m n k lda ldb ldd transa transb grad
                       workspace workspaceSize accumulate use_split_accumulator
                       math_sm_count stream) mem
                   (λ r mem' t, (∃ msg, r = Throw msg)
                                ∧ Forall (λ e, is_device_work e = false) t
                                ∧ mem' = mem)).
  { unfold HipblasLt.cublas_gemm. unfold_lt. rewrite Hr.
    change (0 =? 0) with true. cbv iota.
    repeat wp_step; simpl;
      (split; [eauto|split; [repeat constructor|reflexivity]]). }
  assert (Hcu : wp (CublasLt.cublas_gemm P inputA inputB outputD inputBias
                      outputPreGelu m n k lda ldb ldd transa transb grad
                      workspace workspaceSize accumulate use_split_accumulator
                      math_sm_count stream) mem
                  (λ r mem' t, (∃ msg, r = Throw msg)
                               ∧ Forall (λ e, is_device_work e = false) t
                               ∧ mem' = mem)).
  { unfold CublasLt.cublas_gemm. unfold_lt. rewrite Hr.
    change (0 =? 0) with true. cbv iota.
    repeat wp_step; simpl;
      (split; [eauto|split; [repeat constructor|reflexivity]]). }
  destruct Hhip as (? & ? & ?), Hcu as (? & ? & ?). auto 10.
Qed.

Lemma lt_no_algorithm_no_multiply_witness :
  let P := no_algorithm_platform in
  let inputA := plain_tensor 1 [1; 1] kFloat32 in
  let inputB := plain_tensor 2 [1; 1] kFloat32 in
  let outputD := plain_tensor 3 [1; 1] kFloat32 in
  let mem := no_algorithm_memory in
  let hip := HipblasLt.cublas_gemm P inputA inputB outputD null_tensor
               null_tensor 1 1 1 1 1 1 OP_T OP_N false 0 0 false false 0 7
               mem in
  let cu := CublasLt.cublas_gemm P inputA inputB outputD null_tensor
               null_tensor 1 1 1 1 1 1 OP_T OP_N false 0 0 false false 0 7
               mem in
  (∃ msg, result_of hip = Throw msg)
  ∧ Forall (λ e, is_device_work e = false) (trace_of hip)
  ∧ memory_of hip = mem
  ∧ (∃ msg, result_of cu = Throw msg)
  ∧ Forall (λ e, is_device_work e = false) (trace_of cu)
  ∧ memory_of cu = mem.
Proof.
  cbv zeta.
  apply (lt_no_algorithm_no_multiply no_algorithm_platform
           (plain_tensor 1 [1; 1] kFloat32) (plain_tensor 2 [1; 1] kFloat32)
           (plain_tensor 3 [1; 1] kFloat32) null_tensor null_tensor 1 1 1 1 1
           1 OP_T OP_N false 0 0 false false 0 7 no_algorithm_memory);
  reflexivity.
Defined.

(** ** Checks that precede all device work *)

Lemma wp_rocblas_dtype_float {A : Type} t (f : rocblas_datatype -> M A) mem Q :
  (is_float_dtype t = true -> ∀ v, wp (f v) mem Q) ->
  (is_float_dtype t = false -> Q (Throw "Invalid type") mem []) ->
  wp (Rocblas.get_cuda_dtype t ≫= f) mem Q.
Proof.
  intros H1 H2. apply wp_bind.
  destruct t; simpl; first [by apply H2 | by apply wp_mono with Q; [apply H1|]].
Qed.

Lemma wp_hipblaslt_dtype_float {A : Type} t (f : hipblasltDatatype_t -> M A)
    mem Q :
  (is_float_dtype t = true -> ∀ v, wp (f v) mem Q) ->
  (is_float_dtype t = false -> Q (Throw "Invalid type") mem []) ->
  wp (HipblasLt.get_cuda_dtype t ≫= f) mem Q.
Proof.
  intros H1 H2. apply wp_bind.
  destruct t; simpl; first [by apply H2 | by apply wp_mono with Q; [apply H1|]].
Qed.

Lemma wp_cuda_dtype_float {A : Type} t (f : cudaDataType_t -> M A) mem Q :
  (is_float_dtype t = true -> ∀ v, wp (f v) mem Q) ->
  (is_float_dtype t = false -> Q (Throw "Invalid type") mem []) ->
  wp (CublasLt.get_cuda_dtype t ≫= f) mem Q.
Proof.
  intros H1 H2. apply wp_bind.
  destruct t; simpl; first [by apply H2 | by apply wp_mono with Q; [apply H1|]].
Qed.

(** X13. When the element format of A, B, D or the bias tensor is not
    one of the five floating formats, every variant of cublas_gemm
    throws Invalid type at once: nothing is recorded and device memory
    is unchanged. *)
Theorem integer_format_rejected P inputA inputB outputD inputBias
    outputPreGelu m n k lda ldb ldd transa transb grad workspace workspaceSize
    accumulate use_split_accumulator math_sm_count stream mem :
  is_float_dtype (dtype (data inputA)) && is_float_dtype (dtype (data inputB))
  && is_float_dtype (dtype (data outputD))
  && is_float_dtype (dtype (data inputBias)) = false ->
  throws_at_once
    (Rocblas.cublas_gemm P inputA inputB outputD inputBias outputPreGelu
       m n k lda ldb ldd transa transb grad workspace workspaceSize
       accumulate use_split_accumulator math_sm_count stream mem)
    mem "Invalid type"
  ∧ throws_at_once
      (HipblasLt.cublas_gemm P inputA inputB outputD inputBias outputPreGelu
         m n k lda ldb ldd transa transb grad workspace workspaceSize
         accumulate use_split_accumulator math_sm_count stream mem)
      mem "Invalid type"
  ∧ throws_at_once
      (CublasLt.cublas_gemm P inputA inputB outputD inputBias outputPreGelu
         m n k lda ldb ldd transa transb grad workspace workspaceSize
         accumulate use_split_accumulator math_sm_count stream mem)
      mem "Invalid type".
Proof.
  intros Hf. unfold throws_at_once.
  split; [|split].
  - match goal with |- context [result_of (?c mem)] =>
      change (wp c mem (λ r mem' t,
                r = Throw "Invalid type" ∧ t = [] ∧ mem' = mem))
    end.
    unfold Rocblas.cublas_gemm. cbv zeta.
    apply wp_rocblas_dtype_float; [intros HA vA|done].
    apply wp_rocblas_dtype_float; [intros HB vB|done].
    apply wp_rocblas_dtype_float; [intros HD vD|done].
    apply wp_rocblas_dtype_float; [intros Hb vb|done].
    by rewrite HA, HB, HD, Hb in Hf.
  - match goal with |- context [result_of (?c mem)] =>
      change (wp c mem (λ r mem' t,
                r = Throw "Invalid type" ∧ t = [] ∧ mem' = mem))
    end.
    unfold HipblasLt.cublas_gemm. cbv zeta.
    apply wp_hipblaslt_dtype_float; [intros HA vA|done].
    apply wp_hipblaslt_dtype_float; [intros HB vB|done].
    apply wp_hipblaslt_dtype_float; [intros HD vD|done].
    apply wp_hipblaslt_dtype_float; [intros Hb vb|done].
    by rewrite HA, HB, HD, Hb in Hf.
  - match goal with |- context [result_of (?c mem)] =>
      change (wp c mem (λ r mem' t,
                r = Throw "Invalid type" ∧ t = [] ∧ mem' = mem))
    end.
    unfold CublasLt.cublas_gemm. cbv zeta.
    apply wp_cuda_dtype_float; [intros HA vA|done].
    apply wp_cuda_dtype_float; [intros HB vB|done].
    apply wp_cuda_dtype_float; [intros HD vD|done].
    apply wp_cuda_dtype_float; [intros Hb vb|done].
    by rewrite HA, HB, HD, Hb in Hf.
Qed.

Lemma integer_format_rejected_witness :
  let P := reference_platform in
  let inputA := plain_tensor 1 [2; 1] kInt32 in
  let mem := epilogue_example_memory in
  throws_at_once
    (Rocblas.cublas_gemm P inputA example_B example_D null_tensor null_tensor
       2 1 1 1 1 2 OP_T OP_N false 0 0 false false 0 7 mem)
    mem "Invalid type"
  ∧ throws_at_once
      (HipblasLt.cublas_gemm P inputA example_B example_D null_tensor
         null_tensor 2 1 1 1 1 2 OP_T OP_N false 0 0 false false 0 7 mem)
      mem "Invalid type"
  ∧ throws_at_once
      (CublasLt.cublas_gemm P inputA example_B example_D null_tensor
         null_tensor 2 1 1 1 1 2 OP_T OP_N false 0 0 false false 0 7 mem)
      mem "Invalid type".
Proof.
  cbv zeta.
  apply (integer_format_rejected reference_platform
           (plain_tensor 1 [2; 1] kInt32) example_B example_D null_tensor
           null_tensor 2 1 1 1 1 2 OP_T OP_N false 0 0 false false 0 7
           epilogue_example_memory);
  reflexivity.
Defined.

(** X14. On the hipBLASLt variant a call with a narrow (fp8) operand,
    valid inverse scales and an auxiliary buffer fails before any device
    work, with the fp8 gemm + gelu fusion error (with Invalid type when
    a format is not a floating one), whatever the format of the
    auxiliary buffer. *)
Theorem hipblaslt_rejects_fp8_gelu P inputA inputB outputD inputBias
    outputPreGelu m n k lda ldb ldd transa transb grad workspace workspaceSize
    accumulate use_split_accumulator math_sm_count stream mem :
  is_fp8_dtype (dtype (data inputA)) || is_fp8_dtype (dtype (data inputB))
  = true ->
  dptr (data outputPreGelu) ≠ 0 ->
  dptr (scale_inv inputA) ≠ 0 -> dptr (scale_inv inputB) ≠ 0 ->
  fails_before_device_work
    (HipblasLt.cublas_gemm P inputA inputB outputD inputBias outputPreGelu
       m n k lda ldb ldd transa transb grad workspace workspaceSize
       accumulate use_split_accumulator math_sm_count stream mem)
    mem "fp8 gemm + gelu fusion is unavailable right now!".
Proof.
  intros Hfp8 Haux HsA HsB.
  match goal with |- fails_before_device_work (?c mem) _ ?msg =>
    change (wp c mem (λ r mem' t,
      (r = Throw msg ∨ r = Throw "Invalid type") ∧ t = [] ∧ mem' = mem))
  end.
  unfold HipblasLt.cublas_gemm.
  rewrite Hfp8, (proj2 (Z.eqb_neq _ _) Haux), (proj2 (Z.eqb_neq _ _) HsA),
    (proj2 (Z.eqb_neq _ _) HsB), !orb_true_r.
  cbn [negb].
  do 14 (try wp_step); simpl; auto; discriminate.
Qed.

Lemma hipblaslt_rejects_fp8_gelu_witness :
  let P := reference_platform in
  let mem := epilogue_example_memory in
  fails_before_device_work
    (HipblasLt.cublas_gemm P example_A_fp8 example_B_fp8 example_D null_tensor
       example_aux 2 1 1 1 1 2 OP_T OP_N false 0 0 false false 0 7 mem)
    mem "fp8 gemm + gelu fusion is unavailable right now!".
Proof.
  cbv zeta.
  apply (hipblaslt_rejects_fp8_gelu reference_platform example_A_fp8
           example_B_fp8 example_D null_tensor example_aux 2 1 1 1 1 2 OP_T
           OP_N false 0 0 false false 0 7 epilogue_example_memory);
    first [ reflexivity | discriminate | by left | simpl; lia
          | vm_compute; lia | intros; reflexivity ].
Defined.

(** X15. On the rocBLAS variant, and on the cuBLASLt variant when the
    inverse scales are present, a call with a narrow (fp8) operand and
    an auxiliary buffer whose format is narrow fails before any device
    work, with the fp8 Aux output error (with Invalid type when a format
    is not a floating one). *)
Theorem fp8_auxiliary_output_rejected P inputA inputB outputD inputBias
    outputPreGelu m n k lda ldb ldd transa transb grad workspace workspaceSize
    accumulate use_split_accumulator math_sm_count stream mem :
  is_fp8_dtype (dtype (data inputA)) || is_fp8_dtype (dtype (data inputB))
  = true ->
  dptr (data outputPreGelu) ≠ 0 ->
  is_fp8_dtype (dtype (data outputPreGelu)) = true ->
  fails_before_device_work
    (Rocblas.cublas_gemm P inputA inputB outputD inputBias outputPreGelu
       m n k lda ldb ldd transa transb grad workspace workspaceSize
       accumulate use_split_accumulator math_sm_count stream mem)
    mem "fp8 Aux output for gemm + gelu fusion not supported!"
  ∧ (dptr (scale_inv inputA) ≠ 0 -> dptr (scale_inv inputB) ≠ 0 ->
     fails_before_device_work
       (CublasLt.cublas_gemm P inputA inputB outputD inputBias outputPreGelu
          m n k lda ldb ldd transa transb grad workspace workspaceSize
          accumulate use_split_accumulator math_sm_count stream mem)
       mem "fp8 Aux output for gemm + gelu fusion not supported!").
Proof.
  intros Hfp8 Haux Hp. split; [|intros HsA HsB].
  - match goal with |- fails_before_device_work (?c mem) _ ?msg =>
      change (wp c mem (λ r mem' t,
        (r = Throw msg ∨ r = Throw "Invalid type") ∧ t = [] ∧ mem' = mem))
    end.
    unfold Rocblas.cublas_gemm.
    rewrite Hfp8, Hp, (proj2 (Z.eqb_neq _ _) Haux). cbn [negb andb].
    do 12 (try wp_step); simpl; auto; discriminate.
  - match goal with |- fails_before_device_work (?c mem) _ ?msg =>
      change (wp c mem (λ r mem' t,
        (r = Throw msg ∨ r = Throw "Invalid type") ∧ t = [] ∧ mem' = mem))
    end.
    unfold CublasLt.cublas_gemm.
    rewrite Hfp8, Hp, (proj2 (Z.eqb_neq _ _) Haux),
      (proj2 (Z.eqb_neq _ _) HsA), (proj2 (Z.eqb_neq _ _) HsB), !orb_true_r.
    cbn [negb andb].
    do 16 (try wp_step); simpl; auto; discriminate.
Qed.

Lemma fp8_auxiliary_output_rejected_witness :
  let P := reference_platform in
  let outputPreGelu := plain_tensor 5 [1; 2] kFloat8E4M3 in
  let mem := epilogue_example_memory in
  fails_before_device_work
    (Rocblas.cublas_gemm P example_A_fp8 example_B_fp8 example_D null_tensor
       outputPreGelu 2 1 1 1 1 2 OP_T OP_N false 0 0 false false 0 7 mem)
    mem "fp8 Aux output for gemm + gelu fusion not supported!"
  ∧ (dptr (scale_inv example_A_fp8) ≠ 0 -> dptr (scale_inv example_B_fp8) ≠ 0 ->
     fails_before_device_work
       (CublasLt.cublas_gemm P example_A_fp8 example_B_fp8 example_D
          null_tensor outputPreGelu 2 1 1 1 1 2 OP_T OP_N false 0 0 false
          false 0 7 mem)
       mem "fp8 Aux output for gemm + gelu fusion not supported!").
Proof.
  cbv zeta.
  apply (fp8_auxiliary_output_rejected reference_platform example_A_fp8
           example_B_fp8 example_D null_tensor
           (plain_tensor 5 [1; 2] kFloat8E4M3) 2 1 1 1 1 2 OP_T OP_N false 0 0
           false false 0 7 epilogue_example_memory);
    first [ reflexivity | discriminate | by left | simpl; lia
          | vm_compute; lia | intros; reflexivity ].
Defined.

(** ** The entry point *)

(** X16. nvte_cublas_gemm called with transa and transb both true, on
    operands of at least two dimensions, throws TT layout not allowed at
    once, on every variant and whatever the debug switch: nothing is
    recorded and device memory is unchanged. *)
Theorem tt_layout_rejected variant P getenv A B D bias pre_gelu_out grad
    workspace accumulate use_split_accumulator math_sm_count stream mem
    a0 a1 ra b0 b1 rb :
  shape (data A) = a0 :: a1 :: ra ->
  shape (data B) = b0 :: b1 :: rb ->
  throws_at_once
    (nvte_cublas_gemm variant P getenv A B D bias pre_gelu_out true true grad
       workspace accumulate use_split_accumulator math_sm_count stream mem)
    mem "TT layout not allowed.".
Proof.
  intros HA HB. unfold throws_at_once, nvte_cublas_gemm, shape_at.
  rewrite HA, HB. done.
Qed.

Lemma tt_layout_rejected_witness :
  let P := reference_platform in
  let workspace := plain_tensor 0 [0] kByte in
  let mem := epilogue_example_memory in
  throws_at_once
    (nvte_cublas_gemm ROCBLAS P None example_A example_B example_D null_tensor
        null_tensor true true false
       workspace false false 0 7 mem)
    mem "TT layout not allowed.".
Proof.
  cbv zeta.
  apply (tt_layout_rejected ROCBLAS reference_platform None example_A
           example_B example_D null_tensor null_tensor false
           (plain_tensor 0 [0] kByte) false false 0 7 epilogue_example_memory
           2 1 [] 1 1 []);
  reflexivity.
Defined.

(** ** Range of the activation *)

Section Activation_shape.

Local Open Scope R_scope.

(** X18. The activation lies between 0 and its argument: 0 <= gelu(x) <=
    x for x >= 0 and x <= gelu(x) <= 0 for x <= 0. *)
Theorem gelu_forward_between (x : R) :
  (0 <= x -> 0 <= gelu_forward x <= x)
  ∧ (x <= 0 -> x <= gelu_forward x <= 0).
Proof.
  unfold gelu_forward. cbv zeta.
  pose proof (tanh_bounds
    (Single.lit 0.7978845608028654
     * (x + Single.lit 0.044715 * x * x * x))) as Ht.
  revert Ht. generalize (tanh (Single.lit 0.7978845608028654
                               * (x + Single.lit 0.044715 * x * x * x))).
  intros t Ht. replace 0.5 with (1 / 2) by lra.
  split; intros Hx; nra.
Qed.

End Activation_shape.

(** ** What each launcher leaves in device memory *)

(** X19. gelu_forward_kernelLauncher for m rows of n <= 2^24 entries,
    m*n at most 2^31 - 2^26, on buffers of at least m*n entries, when
    every block of the grid is run: it returns normally, records one
    launch on the given stream, and replaces the first m*n entries of
    the output by gelu of the input entries converted to the output
    format, leaving the rest of memory as it was.  With m or n zero the
    configuration is refused and memory is unchanged. *)
Theorem gelu_forward_launcher_result P T pin pout m n stream mem inp out :
  (∀ g, schedule P g ≡ₚ seqZ 0 g) ->
  mem !! pin = Some inp -> mem !! pout = Some out ->
  0 <= m -> 0 <= n <= 2 ^ 24 -> m * n <= 2 ^ 31 - 2 ^ 26 ->
  m * n <= Z.of_nat (length inp) -> m * n <= Z.of_nat (length out) ->
  let run := gelu_forward_kernelLauncher P T pin pout m n stream mem in
  result_of run = Ok tt
  ∧ memory_of run
    = <[pout := elementwise (λ id, cast P T (gelu_forward (nth_R inp id)))
                  (m * n) out]> mem
  ∧ trace_of run = [EvLaunch K_gelu_forward stream pout].
Proof.
  intros Hsched Hin Hout Hm Hn Hmn Hi Ho run. subst run.
  by apply (wp_gelu_forward_launcher P T pin pout m n stream mem
              (λ r mem' t, r = Ok tt ∧ mem' = _ ∧ t = _) inp out).
Qed.

Lemma gelu_forward_launcher_result_witness :
  let P := reference_platform in
  let mem := epilogue_example_memory in
  let inp := [5%R; 6%R] in
  let out := [0%R; 0%R] in
  let run := gelu_forward_kernelLauncher P kFloat32 5 3 1 2 7 mem in
  result_of run = Ok tt
  ∧ memory_of run
    = <[3 := elementwise (λ id, cast P kFloat32 (gelu_forward (nth_R inp id)))
                  (1 * 2) out]> mem
  ∧ trace_of run = [EvLaunch K_gelu_forward 7 3].
Proof.
  cbv zeta.
  apply (gelu_forward_launcher_result reference_platform kFloat32 5 3 1 2 7
           epilogue_example_memory [5%R; 6%R] [0%R; 0%R]);
    first [ reflexivity | discriminate | by left | simpl; lia
          | vm_compute; lia | intros; reflexivity ].
Defined.

(** X20. gelu_backward_kernelLauncher for m rows of n <= 2^24 entries,
    m*n at most 2^31 - 2^26, on buffers of at least m*n entries, when
    every block of the grid is run and gelu_backward at the stored
    pre-activation value and the incoming gradient is, entry by entry,
    a finite number dx: it returns normally and writes dx, with the
    conversions the kernel applies, into the first m*n entries of the
    output, and changes nothing else. *)
Theorem gelu_backward_launcher_result P Tin T pin pout ppre m n stream mem
    dy out pre (dx : Z -> R) :
  (∀ g, schedule P g ≡ₚ seqZ 0 g) ->
  mem !! pin = Some dy -> mem !! pout = Some out -> mem !! ppre = Some pre ->
  0 <= m -> 0 <= n <= 2 ^ 24 -> m * n <= 2 ^ 31 - 2 ^ 26 ->
  m * n <= Z.of_nat (length dy) -> m * n <= Z.of_nat (length pre) ->
  m * n <= Z.of_nat (length out) ->
  (∀ id, 0 <= id < m * n ->
     gelu_backward (cast P Tin (nth_R pre id)) (nth_R dy id)
     = Finite (dx id)) ->
  let run := gelu_backward_kernelLauncher P Tin T pin pout ppre m n stream mem
      in
  result_of run = Ok tt
  ∧ memory_of run
    = <[pout := elementwise (λ id, cast P T (cast P Tin (dx id)))
                  (m * n) out]> mem
  ∧ trace_of run = [EvLaunch K_gelu_backward stream pout].
Proof.
  intros Hsched Hin Hout Hpre Hm Hn Hmn Hd Hp Ho Hfin run. subst run.
  by apply (wp_gelu_backward_launcher P Tin T pin pout ppre m n stream mem
              (λ r mem' t, r = Ok tt ∧ mem' = _ ∧ t = _) dy out pre dx).
Qed.

Lemma gelu_backward_launcher_result_witness :
  let P := reference_platform in
  let mem := epilogue_example_memory in
  let dy := [5%R; 6%R] in
  let out := [0%R; 0%R] in
  let pre := [3%R; 1%R] in
  let dx id :=
    gelu_backward_exact (cast P kFloat32 (nth_R pre id)) (nth_R dy id) in
  let run := gelu_backward_kernelLauncher P kFloat32 kFloat32 5 3 1 1 2 7
               mem in
  result_of run = Ok tt
  ∧ memory_of run
    = <[3 := elementwise
               (λ id, cast P kFloat32 (cast P kFloat32 (dx id)))
               (1 * 2) out]> mem
  ∧ trace_of run = [EvLaunch K_gelu_backward 7 3].
Proof.
  cbv zeta.
  apply (gelu_backward_launcher_result reference_platform kFloat32 kFloat32 5
           3 1 1 2 7 epilogue_example_memory [5%R; 6%R] [0%R; 0%R] [3%R; 1%R]);
    first [ reflexivity | discriminate | by left | simpl; lia
          | vm_compute; lia | intros; reflexivity | idtac ].
  intros id Hid. apply gelu_backward_in_range.
  - assert (id = 0 ∨ id = 1) as [-> | ->] by lia;
      vm_compute; apply Rabs_le; lra.
  - assert (id = 0 ∨ id = 1) as [-> | ->] by lia;
      vm_compute; apply Rabs_le; lra.
Defined.

(** X21. add_bias_kernelLauncher with m*n at most 2^30, on buffers of at
    least m*n entries and a bias of at least n entries that is not the
    output, when every block of the grid is run, returns normally and
    writes input[id] + bias[id mod n] into the first m*n entries of the
    output (the bias is indexed by the column), converted to the output
    format, and changes nothing else. *)
Theorem add_bias_launcher_result P Tin T pin pout pbias m n stream mem
    inp out bias :
  (∀ g, schedule P g ≡ₚ seqZ 0 g) ->
  mem !! pin = Some inp -> mem !! pout = Some out -> mem !! pbias = Some bias ->
  pbias ≠ pout ->
  0 <= m * n <= 2 ^ 30 -> 0 <= n ->
  m * n <= Z.of_nat (length inp) -> m * n <= Z.of_nat (length out) ->
  n <= Z.of_nat (length bias) ->
  let run := add_bias_kernelLauncher P Tin T pin pout pbias m n stream mem in
  result_of run = Ok tt
  ∧ memory_of run
    = <[pout := elementwise
                  (λ id, cast P T (nth_R inp id
                                   + cast P Tin (nth_R bias (id mod n))))
                  (m * n) out]> mem
  ∧ trace_of run = [EvLaunch K_add_bias stream pout].
Proof.
  intros Hsched Hin Hout Hbias _ Hmn Hn Hi Ho Hb run. subst run.
  by apply (wp_add_bias_launcher P Tin T pin pout pbias m n stream mem
              (λ r mem' t, r = Ok tt ∧ mem' = _ ∧ t = _) inp out bias).
Qed.

Lemma add_bias_launcher_result_witness :
  let P := reference_platform in
  let mem := epilogue_example_memory in
  let inp := [5%R; 6%R] in
  let out := [0%R; 0%R] in
  let bias := [1%R; 4%R] in
  let run := add_bias_kernelLauncher P kFloat32 kFloat32 5 3 4 1 2 7 mem in
  result_of run = Ok tt
  ∧ memory_of run
    = <[3 := elementwise
                  (λ id, cast P kFloat32 (nth_R inp id
                                   + cast P kFloat32 (nth_R bias (id mod 2))))
                  (1 * 2) out]> mem
  ∧ trace_of run = [EvLaunch K_add_bias 7 3].
Proof.
  cbv zeta.
  apply (add_bias_launcher_result reference_platform kFloat32 kFloat32 5 3 4 1
           2 7 epilogue_example_memory [5%R; 6%R] [0%R; 0%R] [1%R; 4%R]);
    first [ reflexivity | discriminate | by left | simpl; lia
          | vm_compute; lia | intros; reflexivity ].
Defined.

(** X22. add_bias_gelu_kernelLauncher with m*n at most 2^30, on buffers
    of at least m*n entries and a bias of at least n entries that is
    neither the output nor the auxiliary buffer, when every block of the
    grid is run, returns normally and writes input[id] + bias[id mod n]
    into the auxiliary buffer and gelu of that sum into the output, for
    the first m*n entries, and changes nothing else. *)
Theorem add_bias_gelu_launcher_result P Tin T pin pout ppre pbias m n stream
    mem inp out pre bias :
  (∀ g, schedule P g ≡ₚ seqZ 0 g) ->
  mem !! pin = Some inp -> mem !! pout = Some out ->
  mem !! ppre = Some pre -> mem !! pbias = Some bias ->
  pbias ≠ pout -> pbias ≠ ppre ->
  0 <= m * n <= 2 ^ 30 -> 0 <= n ->
  m * n <= Z.of_nat (length inp) -> m * n <= Z.of_nat (length out) ->
  m * n <= Z.of_nat (length pre) -> n <= Z.of_nat (length bias) ->
  let run := add_bias_gelu_kernelLauncher P Tin T pin pout ppre pbias m n
               stream mem in
  let biased id := (nth_R inp id + cast P Tin (nth_R bias (id mod n)))%R in
  result_of run = Ok tt
  ∧ memory_of run
    = <[pout := elementwise (λ id, cast P T (gelu_forward (biased id)))
                  (m * n) out]>
        (<[ppre := elementwise (λ id, cast P T (biased id)) (m * n) pre]> mem)
  ∧ trace_of run = [EvLaunch K_add_bias_gelu stream pout].
Proof.
  intros Hsched Hin Hout Hpre Hbias _ _ Hmn Hn Hi Ho Hp Hb run biased.
  subst run biased.
  by apply (wp_add_bias_gelu_launcher P Tin T pin pout ppre pbias m n stream
              mem (λ r mem' t, r = Ok tt ∧ mem' = _ ∧ t = _) inp out pre bias).
Qed.

Lemma add_bias_gelu_launcher_result_witness :
  let P := reference_platform in
  let mem := epilogue_example_memory in
  let inp := [5%R; 6%R] in
  let out := [0%R; 0%R] in
  let pre := [3%R; 1%R] in
  let bias := [1%R; 4%R] in
  let run := add_bias_gelu_kernelLauncher P kFloat32 kFloat32 5 3 1 4 1 2 7
               mem in
  let biased id := (nth_R inp id + cast P kFloat32 (nth_R bias (id mod 2)))%R in
  result_of run = Ok tt
  ∧ memory_of run
    = <[3 := elementwise (λ id, cast P kFloat32 (gelu_forward (biased id)))
                  (1 * 2) out]>
        (<[1 := elementwise (λ id, cast P kFloat32 (biased id)) (1 * 2) pre]>
            mem)
  ∧ trace_of run = [EvLaunch K_add_bias_gelu 7 3].
Proof.
  cbv zeta.
  apply (add_bias_gelu_launcher_result reference_platform kFloat32 kFloat32 5
           3 1 4 1 2 7 epilogue_example_memory [5%R; 6%R] [0%R; 0%R]
           [3%R; 1%R] [1%R; 4%R]);
    first [ reflexivity | discriminate | by left | simpl; lia
          | vm_compute; lia | intros; reflexivity ].
Defined.

(** X23. identity_kernelLauncher for 0 <= n <= 2^30, on buffers of at
    least n entries, when every block of the grid is run, returns
    normally and copies the first n entries of the input to the output,
    converted to the output format, and records one launch; for n = 0
    the configuration is refused and memory is unchanged. *)
Theorem identity_launcher_result P T pin pout n stream mem inp out :
  (∀ g, schedule P g ≡ₚ seqZ 0 g) ->
  mem !! pin = Some inp -> mem !! pout = Some out ->
  0 <= n <= 2 ^ 30 ->
  n <= Z.of_nat (length inp) -> n <= Z.of_nat (length out) ->
  let run := identity_kernelLauncher P T pin pout n stream mem in
  result_of run = Ok tt
  ∧ memory_of run
    = <[pout := elementwise (λ id, cast P T (nth_R inp id)) n out]> mem
  ∧ trace_of run = [EvLaunch K_identity stream pout]
  ∧ (n <= 0 -> memory_of run = mem).
Proof.
  intros Hsched Hin Hout Hn Hi Ho run. subst run.
  apply (wp_identity_launcher_elementwise P T pin pout n stream mem
           (λ r mem' t, r = Ok tt ∧ mem' = _ ∧ t = _ ∧ (n <= 0 -> mem' = mem))
           inp out); try done.
  repeat split. intros Hn0. assert (n = 0) as -> by lia.
  by apply insert_unchanged.
Qed.

Lemma identity_launcher_result_witness :
  let P := reference_platform in
  let mem := epilogue_example_memory in
  let inp := [5%R; 6%R] in
  let out := [0%R; 0%R] in
  let run := identity_kernelLauncher P kFloat32 5 3 2 7 mem in
  result_of run = Ok tt
  ∧ memory_of run
    = <[3 := elementwise (λ id, cast P kFloat32 (nth_R inp id)) 2 out]> mem
  ∧ trace_of run = [EvLaunch K_identity 7 3]
  ∧ (2 <= 0 -> memory_of run = mem).
Proof.
  cbv zeta.
  apply (identity_launcher_result reference_platform kFloat32 5 3 2 7
           epilogue_example_memory [5%R; 6%R] [0%R; 0%R]);
    first [ reflexivity | discriminate | by left | simpl; lia
          | vm_compute; lia | intros; reflexivity ].
Defined.

(** ** The reduction kernel without its launcher *)

(** X24. For 0 < m <= 2^24 rows the number of blocks per column computed
    in single precision, ceil(float(m) / 1024), is exact: the blocks
    cover all m rows and the last block is not empty. *)
Theorem blocks_per_col_covers_rows (m : Z) :
  0 < m <= 2 ^ 24 ->
  (BLOCKS_PER_COL 1024 m - 1) * 1024 < m <= BLOCKS_PER_COL 1024 m * 1024.
Proof.
  intros Hm. rewrite BLOCKS_PER_COL_exact by lia.
  pose proof (Z.div_mod (m + 1023) 1024 ltac:(lia)).
  pose proof (Z.mod_pos_bound (m + 1023) 1024 ltac:(lia)). lia.
Qed.

Lemma blocks_per_col_covers_rows_witness :
  (BLOCKS_PER_COL 1024 1025 - 1) * 1024 < 1025 <= BLOCKS_PER_COL 1024 1025 *
      1024.
Proof.
  cbv zeta.
  apply (blocks_per_col_covers_rows 1025);
  lia.
Defined.

(** ** An error raised after the multiply *)

(** X27. On the rocBLAS variant, when every library call succeeds, an
    fp16 forward call whose bias tensor has a narrow (fp8) format fails
    with FP8 type not instantiated only after the multiply has run: the
    handle has been created and destroyed, the multiply result is in a
    freshly allocated scratch buffer, and that buffer is never freed. *)
Theorem rocblas_fp8_bias_fails_after_multiply (P : platform)
    (inputA inputB outputD inputBias outputPreGelu : Tensor)
    (m n k lda ldb ldd : Z) (transa transb : operation)
    (workspace workspaceSize : Z) (accumulate use_split_accumulator : bool)
    (math_sm_count stream : Z) (mem : gmap Z (list R)) (a b : list R) :
  (∀ s, lib_status P s = true) ->
  dptr (data inputBias) ≠ 0 -> dptr (data outputPreGelu) = 0 ->
  dtype (data inputA) = kFloat16 -> dtype (data inputB) = kFloat16 ->
  dtype (data outputD) = kFloat16 ->
  is_fp8_dtype (dtype (data inputBias)) = true ->
  mem !! dptr (data inputA) = Some a ->
  mem !! dptr (data inputB) = Some b ->
  0 <= m < 2 ^ 31 -> 0 <= n < 2 ^ 31 ->
  let run := Rocblas.cublas_gemm P inputA inputB outputD inputBias outputPreGelu
               m n k lda ldb ldd transa transb false workspace workspaceSize
               accumulate use_split_accumulator math_sm_count stream mem in
  ∃ p, mem !! p = None
       ∧ result_of run = Throw "FP8 type not instantiated"
       ∧ trace_of run = [EvCreate Handle; EvMalloc p (m * n); EvGemm 0 p;
                         EvDestroy Handle]
       ∧ memory_of run
         = <[p := Rocblas.gemm_written P
                    (emulated_call rocblas_datatype_f16_r transa transb m n k
                       lda ldb ldd accumulate)
                    a b (replicate (Z.to_nat (m * n)) (uninit P))]> mem.
Proof.
  intros Hstatus Hbias Haux HtA HtB HtD Htb HA HB Hm Hn run. subst run.
  match goal with |- ∃ p, _ ∧ result_of (?c mem) = _ ∧ _ =>
    change (wp c mem (λ r mem' t, ∃ p, mem !! p = None
      ∧ r = Throw "FP8 type not instantiated"
      ∧ t = [EvCreate Handle; EvMalloc p (m * n); EvGemm 0 p; EvDestroy Handle]
      ∧ mem' = <[p := Rocblas.gemm_written P
                        (emulated_call rocblas_datatype_f16_r transa transb
                           m n k lda ldb ldd accumulate)
                        a b (replicate (Z.to_nat (m * n)) (uninit P))]> mem))
  end.
  match goal with |- wp _ _ ?post => set (Q := post) end.
  unfold Rocblas.cublas_gemm.
  rewrite HtA, HtB, HtD, Haux, (proj2 (Z.eqb_neq _ _) Hbias).
  change (0 =? 0) with true. cbn [negb orb andb].
  destruct (dtype (data inputBias)); try discriminate Htb;
    cbn [Rocblas.get_transformer_engine_dtype Rocblas.get_cuda_dtype
         is_fp8_dtype orb andb negb].
  all: rocblas_run Hstatus.
  all: subst Q; cbv beta.
  all: match goal with H : ∀ q, is_Some (_ !! q) -> ?p ≠ q |- _ =>
         exists p; split;
           [apply eq_None_not_Some; intros Hs; by apply (H p Hs)|]
       end.
  all: rewrite insert_insert_eq; done.
Qed.

Lemma rocblas_fp8_bias_fails_after_multiply_witness :
  let P := reference_platform in
  let inputBias := plain_tensor 4 [2] kFloat8E4M3 in
  let mem := epilogue_example_memory in
  let a := [3%R; 1%R] in
  let b := [2%R] in
  let run := Rocblas.cublas_gemm P example_A_fp16 example_B_fp16
               example_D_fp16 inputBias null_tensor 2 1 1 1 1 2 OP_T OP_N
               false 0 0 false false 0 7 mem in
  ∃ p, mem !! p = None
       ∧ result_of run = Throw "FP8 type not instantiated"
       ∧ trace_of run = [EvCreate Handle; EvMalloc p (2 * 1); EvGemm 0 p;
                         EvDestroy Handle]
       ∧ memory_of run
         = <[p := Rocblas.gemm_written P
                    (emulated_call rocblas_datatype_f16_r OP_T OP_N 2 1 1
                       1 1 2 false)
                    a b (replicate (Z.to_nat (2 * 1)) (uninit P))]> mem.
Proof.
  cbv zeta.
  apply (rocblas_fp8_bias_fails_after_multiply reference_platform
           example_A_fp16 example_B_fp16 example_D_fp16
           (plain_tensor 4 [2] kFloat8E4M3) null_tensor 2 1 1 1 1 2 OP_T OP_N
           0 0 false false 0 7 epilogue_example_memory [3%R; 1%R] [2%R]);
    first [ reflexivity | discriminate | by left | simpl; lia
          | vm_compute; lia | intros; reflexivity ].
Defined.

(** ** Resources of the rocBLAS variant *)

#[local] Set Warnings "-clear-no-such-hyp".

Section keeps_buffers_rules.

Lemma keeps_bind {A B : Type} (c : M A) (f : A -> M B) :
  keeps_buffers c -> (∀ a, keeps_buffers (f a)) -> keeps_buffers (c ≫= f).
Proof.
  intros Hc Hf mem. destruct (Hc mem) as [Ht Hd].
  unfold trace_of, memory_of, mbind, M_bind, bind_M in *.
  destruct (c mem) as [[[a|msg|] mem1] t1]; simpl in *; auto.
  destruct (Hf a mem1) as [Ht2 Hd2]. unfold trace_of, memory_of in *.
  destruct (f a mem1) as [[r mem2] t2]; simpl in *.
  split; [by apply Forall_app|congruence].
Qed.

Lemma keeps_pure {A : Type} (c : M A) :
  (∀ mem, trace_of (c mem) = [] ∧ memory_of (c mem) = mem) -> keeps_buffers c.
Proof. intros H mem. destruct (H mem) as [-> ->]. by split. Qed.

Lemma keeps_ret {A : Type} (a : A) : keeps_buffers (mret a).
Proof. by apply keeps_pure. Qed.

Lemma keeps_error {A : Type} msg : keeps_buffers (@NVTE_ERROR A msg).
Proof. by apply keeps_pure. Qed.

Lemma keeps_load p : keeps_buffers (load p).
Proof.
  apply keeps_pure. intros mem. unfold load, trace_of, memory_of.
  by destruct (mem !! p).
Qed.

Lemma keeps_emit e : is_alloc e = false -> keeps_buffers (emit e).
Proof. intros H mem. split; [by repeat constructor|done]. Qed.

Lemma keeps_check_cuda P s : keeps_buffers (NVTE_CHECK_CUDA P s).
Proof.
  unfold NVTE_CHECK_CUDA. destruct (lib_status P s); by apply keeps_pure.
Qed.

Lemma keeps_check_cublas P w s : keeps_buffers (NVTE_CHECK_CUBLAS P w s).
Proof.
  unfold NVTE_CHECK_CUBLAS. destruct (lib_status P s); by apply keeps_pure.
Qed.

(** A kernel result stored over a buffer that has just been read. *)
Lemma keeps_store_loaded {A : Type} p (f : list R -> M A)
    (g : list R -> option (list R)) e :
  is_alloc e = false ->
  keeps_buffers (o ← load p; emit e;; store_result p (g o)).
Proof.
  intros He mem. unfold load, store_result, store, fault, emit, trace_of,
    memory_of, mbind, M_bind, bind_M.
  destruct (mem !! p) as [o|] eqn:Hp; simpl; [|by split].
  destruct (g o); simpl.
  - split; [by repeat constructor|].
    apply dom_insert_lookup_L. by rewrite Hp.
  - split; [by repeat constructor|done].
Qed.

End keeps_buffers_rules.

Ltac keeps_step :=
  lazymatch goal with
  | |- wp (load _) _ _ => apply wp_load; [intros ? ?|intros ?]
  | |- wp (store_result _ _) _ _ =>
      apply wp_store_result; [intros ? ?|intros ?]
  | |- wp (Rocblas.TRANSFORMER_ENGINE_TYPE_SWITCH_ROCM_SIM ?t _) _ _ =>
      destruct t; cbn [Rocblas.TRANSFORMER_ENGINE_TYPE_SWITCH_ROCM_SIM]
  | _ => wp_step
  end.

Ltac keeps_leaf :=
  split;
    [ simpl; repeat constructor
    | repeat match goal with
             | H : _ !! _ = Some _ |- _ =>
                 let H' := fresh in
                 pose proof (elem_of_dom_2 _ _ _ H) as H'; clear H
             end;
      rewrite ?dom_insert_L in *; set_solver ].

Ltac keeps_unit :=
  intros ?mem;
  match goal with |- _ ∧ dom (memory_of (?c ?mem)) = _ =>
    change (wp c mem (λ _ mem' t,
              Forall (λ e, is_alloc e = false) t ∧ dom mem' = dom mem))
  end;
  repeat keeps_step; keeps_leaf.

Section keeps_buffers_units.

Context (P : platform).

Lemma keeps_rocblas_gemm call A B D_temp :
  keeps_buffers (Rocblas.rocblas_gemm P call A B D_temp).
Proof. unfold Rocblas.rocblas_gemm. keeps_unit. Qed.

Lemma keeps_memcpy src : keeps_buffers (hipMemcpy_to_host P src).
Proof. unfold hipMemcpy_to_host. keeps_unit. Qed.

Lemma keeps_sync : keeps_buffers (hipDeviceSynchronize P).
Proof. unfold hipDeviceSynchronize. keeps_unit. Qed.

Lemma keeps_gelu_forward T inp out m n s :
  keeps_buffers (gelu_forward_kernelLauncher P T inp out m n s).
Proof. unfold gelu_forward_kernelLauncher. keeps_unit. Qed.

Lemma keeps_gelu_backward Tin T inp out pre m n s :
  keeps_buffers (gelu_backward_kernelLauncher P Tin T inp out pre m n s).
Proof. unfold gelu_backward_kernelLauncher. keeps_unit. Qed.

Lemma keeps_add_bias Tin T inp out bias m n s :
  keeps_buffers (add_bias_kernelLauncher P Tin T inp out bias m n s).
Proof. unfold add_bias_kernelLauncher. keeps_unit. Qed.

Lemma keeps_add_bias_gelu Tin T inp out pre bias m n s :
  keeps_buffers (add_bias_gelu_kernelLauncher P Tin T inp out pre bias m n s).
Proof. unfold add_bias_gelu_kernelLauncher. keeps_unit. Qed.

Lemma keeps_identity T inp out n s :
  keeps_buffers (identity_kernelLauncher P T inp out n s).
Proof. unfold identity_kernelLauncher. keeps_unit. Qed.

Lemma keeps_bias_gradient inp out m n s :
  keeps_buffers (bias_gradient_kernelLauncher P inp out m n s).
Proof. unfold bias_gradient_kernelLauncher. cbv zeta. keeps_unit. Qed.

Lemma keeps_type_switch {A : Type} t (body : DType -> M A) :
  (∀ T, keeps_buffers (body T)) ->
  keeps_buffers (Rocblas.TRANSFORMER_ENGINE_TYPE_SWITCH_ROCM_SIM t body).
Proof. intros H. destruct t; simpl; auto using @keeps_error. Qed.

End keeps_buffers_units.

Lemma wp_keeps {A : Type} (c : M A) mem
    (Q : outcome A -> gmap Z (list R) -> list event -> Prop) :
  keeps_buffers c ->
  (∀ r mem' t, Forall (λ e, is_alloc e = false) t -> dom mem' = dom mem ->
     Q r mem' t) ->
  wp c mem Q.
Proof. intros Hc HQ. destruct (Hc mem). by apply HQ. Qed.

Lemma live_objects_quiet t t' acc :
  Forall (λ e, is_alloc e = false) t ->
  live_objects (t ++ t') acc = live_objects t' acc.
Proof.
  intros Ht. revert acc. induction Ht as [|e t He _ IH]; intros acc; [done|].
  destruct e; try discriminate He; simpl; apply IH.
Qed.

Lemma live_buffers_quiet t t' acc :
  Forall (λ e, is_alloc e = false) t ->
  live_buffers (t ++ t') acc = live_buffers t' acc.
Proof.
  intros Ht. revert acc. induction Ht as [|e t He _ IH]; intros acc; [done|].
  destruct e; try discriminate He; simpl; apply IH.
Qed.

Lemma wp_hipMalloc_fresh P elems mem Q :
  (∀ p, p ∉ dom mem ->
     Q (Ok p) (<[p := replicate (Z.to_nat elems) (uninit P)]> mem)
       [EvMalloc p elems]) ->
  Q (Throw "CUDA Error") mem [] ->
  wp (hipMalloc P elems) mem Q.
Proof.
  intros H1 H2. apply wp_hipMalloc; [intros _ p|by intros _].
  apply H1. intros Hin. apply (fresh_pointer mem p); [|done].
  right. by apply elem_of_dom.
Qed.

Lemma wp_hipFree_any P p mem Q :
  Q (Ok tt) (delete p mem) [EvFree p] ->
  Q (Throw "CUDA Error") mem [] ->
  wp (hipFree P p) mem Q.
Proof.
  intros H1 H2. unfold hipFree.
  apply wp_bind, wp_check_cuda; intros _; [|done].
  by apply wp_bind, wp_get_mem, wp_bind, wp_put_mem, wp_emit.
Qed.

Lemma keeps_check b msg : keeps_buffers (NVTE_CHECK b msg).
Proof. destruct b; by apply keeps_pure. Qed.

Lemma keeps_rocblas_dtype t : keeps_buffers (Rocblas.get_cuda_dtype t).
Proof. destruct t; by apply keeps_pure. Qed.

Lemma live_objects_quiet_end t acc :
  Forall (λ e, is_alloc e = false) t -> live_objects t acc = acc.
Proof.
  intros Ht. rewrite <- (app_nil_r t). by rewrite live_objects_quiet.
Qed.

Lemma live_buffers_quiet_end t acc :
  Forall (λ e, is_alloc e = false) t -> live_buffers t acc = acc.
Proof.
  intros Ht. rewrite <- (app_nil_r t). by rewrite live_buffers_quiet.
Qed.

Ltac keeps_leaf_rule :=
  lazymatch goal with
  | |- keeps_buffers (mret _) => apply keeps_ret
  | |- keeps_buffers (NVTE_ERROR _) => apply keeps_error
  | |- keeps_buffers (NVTE_CHECK _ _) => apply keeps_check
  | |- keeps_buffers (NVTE_CHECK_CUDA _ _) => apply keeps_check_cuda
  | |- keeps_buffers (NVTE_CHECK_CUBLAS _ _ _) => apply keeps_check_cublas
  | |- keeps_buffers (Rocblas.get_cuda_dtype _) => apply keeps_rocblas_dtype
  | |- keeps_buffers (hipMemcpy_to_host _ _) => apply keeps_memcpy
  | |- keeps_buffers (Rocblas.rocblas_gemm _ _ _ _ _) =>
      apply keeps_rocblas_gemm
  | |- keeps_buffers (hipDeviceSynchronize _) => apply keeps_sync
  | |- keeps_buffers (gelu_forward_kernelLauncher _ _ _ _ _ _ _) =>
      apply keeps_gelu_forward
  | |- keeps_buffers (gelu_backward_kernelLauncher _ _ _ _ _ _ _ _ _) =>
      apply keeps_gelu_backward
  | |- keeps_buffers (add_bias_kernelLauncher _ _ _ _ _ _ _ _ _) =>
      apply keeps_add_bias
  | |- keeps_buffers (add_bias_gelu_kernelLauncher _ _ _ _ _ _ _ _ _ _) =>
      apply keeps_add_bias_gelu
  | |- keeps_buffers (identity_kernelLauncher _ _ _ _ _ _) =>
      apply keeps_identity
  | |- keeps_buffers (bias_gradient_kernelLauncher _ _ _ _ _ _) =>
      apply keeps_bias_gradient
  | |- keeps_buffers (Rocblas.TRANSFORMER_ENGINE_TYPE_SWITCH_ROCM_SIM _ _) =>
      apply keeps_type_switch; intros ?
  | |- keeps_buffers (mbind _ _) => apply keeps_bind; [|intros ?]
  | |- keeps_buffers (if ?b then _ else _) => destruct b
  end.

Ltac keeps_auto := repeat keeps_leaf_rule.

Ltac resource_step :=
  lazymatch goal with
  | |- wp (hipMalloc _ _) _ _ => apply wp_hipMalloc_fresh; [intros ? ?|]
  | |- wp (hipFree _ _) _ _ => apply wp_hipFree_any
  | |- wp (mbind _ _) _ _ =>
      apply wp_bind;
      first [ apply wp_keeps; [solve [keeps_auto]|intros [?|?|] ? ? ? ?]
            | idtac ]
  | |- wp _ _ _ =>
      first [ apply wp_keeps; [solve [keeps_auto]|intros [?|?|] ? ? ? ?]
            | wp_step ]
  end.

(** X28. Every call of the rocBLAS variant that returns normally, in any
    epilogue mode and for any formats, leaves the set of device buffers
    as it found it, has destroyed the handle it created, and has freed
    every buffer it allocated. *)
Theorem rocblas_normal_return_releases P inputA inputB outputD inputBias
    outputPreGelu m n k lda ldb ldd transa transb grad workspace workspaceSize
    accumulate use_split_accumulator math_sm_count stream mem :
  let run := Rocblas.cublas_gemm P inputA inputB outputD inputBias outputPreGelu
               m n k lda ldb ldd transa transb grad workspace workspaceSize
               accumulate use_split_accumulator math_sm_count stream mem in
  result_of run = Ok tt ->
  dom (memory_of run) = dom mem
  ∧ live_objects (trace_of run) [] = []
  ∧ live_buffers (trace_of run) [] = [].
Proof.
  intros run. subst run.
  match goal with |- result_of (?c mem) = _ -> _ =>
    change (wp c mem (λ r mem' t, r = Ok tt ->
              dom mem' = dom mem ∧ live_objects t [] = []
              ∧ live_buffers t [] = []))
  end.
  match goal with |- wp _ _ ?post => set (Q := post) end.
  unfold Rocblas.cublas_gemm. cbv zeta.
  repeat (lazymatch goal with |- wp _ _ _ => idtac end; resource_step).
  all: subst Q; cbv beta; try (intros [=]).
  all: rewrite <- ?(assoc_L (++)), ?app_nil_r.
  all: split; [|split].
  all: lazymatch goal with
       | |- live_objects _ _ = _ =>
           repeat first [ rewrite live_objects_quiet by assumption
                        | rewrite live_objects_quiet_end by assumption
                        | progress simpl ]; done
       | |- live_buffers _ _ = _ =>
           repeat first [ rewrite live_buffers_quiet by assumption
                        | rewrite live_buffers_quiet_end by assumption
                        | progress cbn [live_buffers app]
                        | rewrite filter_cons
                        | rewrite filter_nil
                        | case_decide ]; done
       | |- dom _ = _ =>
           repeat match goal with H : _ ∉ dom _ |- _ => revert H end;
           rewrite ?dom_delete_L;
           repeat match goal with
                  | H : dom ?x = _ |- context [dom ?x] =>
                      rewrite H, ?dom_insert_L, ?dom_delete_L
                  end;
           intros; set_solver
       end.
Qed.

Lemma rocblas_normal_return_releases_witness :
  let run := Rocblas.cublas_gemm reference_platform example_A_fp16
               example_B_fp16 example_D_fp16 (plain_tensor 4 [2] kFloat16)
               null_tensor 2 1 1 1 1 2 OP_T OP_N true 0 0 false false 0 7
               epilogue_example_memory in
  result_of run = Ok tt
  ∧ dom (memory_of run) = dom epilogue_example_memory
  ∧ live_objects (trace_of run) [] = []
  ∧ live_buffers (trace_of run) [] = [].
Proof.
  intros run.
  assert (Hok : result_of run = Ok tt) by (by vm_compute).
  split; [exact Hok|].
  exact (rocblas_normal_return_releases reference_platform example_A_fp16
           example_B_fp16 example_D_fp16 (plain_tensor 4 [2] kFloat16)
           null_tensor 2 1 1 1 1 2 OP_T OP_N true 0 0 false false 0 7
           epilogue_example_memory Hok).
Defined.
